(** * PrivateData: the meta-data interface of DiCE

    A shallow embedding of [dice_ml/data_interfaces/private_data_interface.py]
    and the properties of its feature encoding and normalisation scheme.

    Conventions of the embedding.
    - Python values are the atoms [None], [int], [float] and [str], lists of
      atoms, and dictionaries with string keys.  Dictionaries keep insertion
      order, so they are association lists (with distinct keys).
    - A Python [float] is an exact rational: rounding is not represented,
      and of a column of infinities and NaNs, which a division by zero
      leaves, only the length.  Where the program would go on with a value
      the embedding cannot represent, the outcome is [OutOfModel].
    - A string is a sequence of characters, one [ascii] for each character
      of the Python [str]: the embedding covers the characters with a code
      point below 256, and orders strings character by character by code
      point, as Python orders [str].
    - A column of dtype [int64] holds machine integers: arithmetic between
      such a column and an [int] that fits in 64 bits wraps around.
    - A method returns an [outcome]: a value, or the exception it raises.
    - A pandas DataFrame is an ordered list of named columns with distinct
      labels; frames live in a store, since [df.copy()] creates a new object
      and column assignment mutates its target.
    - The tables that [prepare_df_for_encoding] and [get_test_inputs] build
      have missing cells and are not shared: they are given by value, as
      columns of cells that are missing, a float, a string or a Python
      [int]. *)

From Stdlib Require Import ZArith QArith String Ascii List Permutation Sorted Lia Lqa.
From stdpp Require Import base tactics option list sorting strings.

(** ** Python values *)

Inductive atom : Type :=
  | ANone
  | AInt (z : Z)
  | AFloat (q : Q)
  | AStr (s : string).

Inductive pyval : Type :=
  | VAtom (a : atom)
  | VList (l : list atom).

(** An insertion-ordered dictionary with string keys. *)
Definition dict (V : Type) : Type := list (string * V).

Inductive pyobj : Type :=
  | OVal (v : pyval)
  | ODict (d : dict pyval).

Inductive exn : Type :=
  | ValueError
  | KeyError
  | IndexError
  | TypeError
  | NameError (name : string)
  | AttributeError (attr : string).

Inductive outcome (A : Type) : Type :=
  | Ok (a : A)
  | Raise (e : exn)
  | OutOfModel.
Arguments Ok {A} a.
Arguments Raise {A} e.
Arguments OutOfModel {A}.

Definition outcome_bind {A B : Type} (f : A -> outcome B) (m : outcome A) : outcome B :=
  match m with
  | Ok a => f a
  | Raise e => Raise e
  | OutOfModel => OutOfModel
  end.

#[global] Instance outcome_mbind : MBind outcome := @outcome_bind.
#[global] Instance outcome_mret : MRet outcome := @Ok.

(** [for x in l: body], threading an accumulator and stopping at the first
    exception. *)
Fixpoint for_each {A S : Type} (body : S -> A -> outcome S) (l : list A) (s : S) : outcome S :=
  match l with
  | [] => Ok s
  | x :: l' => s' ← body s x; for_each body l' s'
  end.

(** [[f(x) for x in l]] where [f] may raise. *)
Fixpoint comprehension {A B : Type} (f : A -> outcome B) (l : list A) : outcome (list B) :=
  match l with
  | [] => Ok []
  | x :: l' => y ← f x; ys ← comprehension f l'; Ok (y :: ys)
  end.

(** ** Dictionaries *)

Fixpoint dict_get {V : Type} (k : string) (d : dict V) : option V :=
  match d with
  | [] => None
  | (k', v) :: d' => if String.eqb k k' then Some v else dict_get k d'
  end.

(** [d[k] = v]: overwrite in place, or append a new key. *)
Fixpoint dict_set {V : Type} (k : string) (v : V) (d : dict V) : dict V :=
  match d with
  | [] => [(k, v)]
  | (k', v') :: d' =>
      if String.eqb k k' then (k', v) :: d' else (k', v') :: dict_set k v d'
  end.

Definition dict_keys {V : Type} (d : dict V) : list string := map fst d.

Definition dict_mem {V : Type} (k : string) (d : dict V) : bool :=
  match dict_get k d with Some _ => true | None => false end.

(** [d[k]], raising [KeyError] on a missing key. *)
Definition dict_getitem {V : Type} (k : string) (d : dict V) : outcome V :=
  match dict_get k d with
  | Some v => Ok v
  | None => Raise KeyError
  end.

(** ** Built-in operations on values *)

Definition chars (s : string) : list string :=
  map (fun c => String c EmptyString) (list_ascii_of_string s).

(** [v[i]] for an integer position [i]. *)
Definition getitem (v : pyval) (i : nat) : outcome atom :=
  match v with
  | VList l =>
      match nth_error l i with
      | Some a => Ok a
      | None => Raise IndexError
      end
  | VAtom (AStr s) =>
      match nth_error (chars s) i with
      | Some c => Ok (AStr c)
      | None => Raise IndexError
      end
  | VAtom _ => Raise TypeError
  end.

(** [iter(v)], as a list. *)
Definition iterate (v : pyval) : outcome (list atom) :=
  match v with
  | VList l => Ok l
  | VAtom (AStr s) => Ok (map AStr (chars s))
  | VAtom _ => Raise TypeError
  end.

Definition is_int (a : atom) : bool :=
  match a with AInt _ => true | _ => false end.

(** [a < b]: numbers compare with numbers, strings with strings. *)
Definition atom_lt (a b : atom) : outcome bool :=
  match a, b with
  | AInt x, AInt y => Ok (Z.ltb x y)
  | AInt x, AFloat y => Ok (if Qlt_le_dec (inject_Z x) y then true else false)
  | AFloat x, AInt y => Ok (if Qlt_le_dec x (inject_Z y) then true else false)
  | AFloat x, AFloat y => Ok (if Qlt_le_dec x y then true else false)
  | AStr x, AStr y => Ok (String.ltb x y)
  | _, _ => Raise TypeError
  end.

(** [sorted(l)]: a stable sort that only uses [<]; an element is placed
    before the first element of the sorted tail that is not smaller. *)
Fixpoint sorted_insert (x : atom) (l : list atom) : outcome (list atom) :=
  match l with
  | [] => Ok [x]
  | y :: l' =>
      b ← atom_lt y x;
      if (b : bool) then l'' ← sorted_insert x l'; Ok (y :: l'')
      else Ok (x :: y :: l')
  end.

Fixpoint sorted (l : list atom) : outcome (list atom) :=
  match l with
  | [] => Ok []
  | x :: l' => s ← sorted l'; sorted_insert x s
  end.

(** [s + a] for a string [s]. *)
Definition str_add (s : string) (a : atom) : outcome string :=
  match a with
  | AStr t => Ok (s +:+ t)
  | _ => Raise TypeError
  end.

(** [l.index(x)]. *)
Fixpoint list_index (x : string) (l : list string) : outcome nat :=
  match l with
  | [] => Raise ValueError
  | y :: l' => if String.eqb y x then Ok 0%nat else i ← list_index x l'; Ok (S i)
  end.

(** [len(o)]. *)
Definition len (o : pyobj) : outcome nat :=
  match o with
  | ODict d => Ok (length d)
  | OVal (VList l) => Ok (length l)
  | OVal (VAtom (AStr s)) => Ok (String.length s)
  | OVal (VAtom _) => Raise TypeError
  end.

(** [o[k] = v] for a string key [k]. *)
Definition setitem (o : pyobj) (k : string) (v : pyval) : outcome pyobj :=
  match o with
  | ODict d => Ok (ODict (dict_set k v d))
  | OVal _ => Raise TypeError
  end.

(** [o[k]] for a string key [k]. *)
Definition getitem_key (o : pyobj) (k : string) : outcome pyval :=
  match o with
  | ODict d => dict_getitem k d
  | OVal _ => Raise TypeError
  end.

(** ** The schema object *)

(** The constructor's argument [params], a dictionary; a key that is absent
    is [None] here. *)
Record params : Type := {
  params_features : option pyobj;
  params_outcome_name : option pyobj;
  params_type_and_precision : option pyobj;
  params_mad : option pyobj
}.

(** The attributes of a [PrivateData] object.  An attribute that has not been
    assigned yet is [None]; reading it raises [AttributeError]. *)
Record PrivateData : Type := {
  outcome_name : string;
  type_and_precision : pyobj;
  mad : pyobj;
  continuous_feature_names : list string;
  permitted_range : dict pyval;
  categorical_feature_names : list string;
  categorical_levels : dict pyval;
  feature_names : list string;
  continuous_feature_indexes : list nat;
  categorical_feature_indexes : list nat;
  encoded_feature_names : option (list string);
  encoded_continuous_feature_indexes : option (list nat);
  encoded_categorical_feature_indexes : option (list (list nat))
}.

(** [self.attr] for an attribute that may be unassigned. *)
Definition getattr {A : Type} (name : string) (field : option A) : outcome A :=
  match field with
  | Some a => Ok a
  | None => Raise (AttributeError name)
  end.

(** State of the classification loop of the constructor. *)
Record classified : Type := {
  cl_continuous : list string;
  cl_range : dict pyval;
  cl_categorical : list string;
  cl_levels : dict pyval
}.

(** Body of [for feature in features_dict]. *)
Definition classify_feature (features_dict : dict pyval) (st : classified)
    (feature : string) : outcome classified :=
  v ← dict_getitem feature features_dict;
  first ← getitem v 0;
  if is_int first then
    Ok {| cl_continuous := cl_continuous st ++ [feature];
          cl_range := dict_set feature v (cl_range st);
          cl_categorical := cl_categorical st;
          cl_levels := cl_levels st |}
  else
    Ok {| cl_continuous := cl_continuous st;
          cl_range := cl_range st;
          cl_categorical := cl_categorical st ++ [feature];
          cl_levels := dict_set feature v (cl_levels st) |}.

(** [[keys.index(name) for name in names if name in features_dict]]. *)
Definition indexes_in {V : Type} (features_dict : dict V) (names : list string)
    : outcome (list nat) :=
  comprehension (fun name => list_index name (dict_keys features_dict))
    (filter (fun name => dict_mem name features_dict = true) names).

(** Body of [for category in sorted(...)]. *)
Definition append_category (feature_name : string) (names : list string)
    (category : atom) : outcome (list string) :=
  name ← str_add (feature_name +:+ "_") category;
  Ok (names ++ [name]).

(** Body of [for feature_name in self.categorical_feature_names]. *)
Definition append_levels (levels : dict pyval) (names : list string)
    (feature_name : string) : outcome (list string) :=
  v ← dict_getitem feature_name levels;
  l ← iterate v;
  s ← sorted l;
  for_each (append_category feature_name) s names.

(** Body of the loop that fills the default type of the continuous features. *)
Definition default_type (tp : pyobj) (feature_name : string) : outcome pyobj :=
  setitem tp feature_name (VAtom (AStr "int")).

Definition init (p : params) : outcome PrivateData :=
  f ← match params_features p with
      | Some f => Ok f
      | None => Raise KeyError
      end;
  features_dict ← match f with
                  | ODict d => Ok d
                  | OVal _ => Raise ValueError
                  end;
  o ← match params_outcome_name p with
      | Some o => Ok o
      | None => Raise KeyError
      end;
  outcome ← match o with
            | OVal (VAtom (AStr s)) => Ok s
            | _ => Raise ValueError
            end;
  let tp0 := match params_type_and_precision p with
             | Some tp => tp
             | None => ODict []
             end in
  let mad0 := match params_mad p with
              | Some m => m
              | None => OVal (VList (repeat (AFloat 1) (length features_dict)))
              end in
  c ← for_each (classify_feature features_dict) (dict_keys features_dict)
        {| cl_continuous := []; cl_range := []; cl_categorical := []; cl_levels := [] |};
  cont_ix ← indexes_in features_dict (cl_continuous c);
  cat_ix ← indexes_in features_dict (cl_categorical c);
  encoded ← (if Nat.ltb 0 (length (cl_categorical c)) then
               names ← for_each (append_levels (cl_levels c)) (cl_categorical c)
                         (cl_continuous c);
               Ok (Some names)
             else Ok None);
  n ← len tp0;
  tp ← (if Nat.eqb n 0 then for_each default_type (cl_continuous c) tp0 else Ok tp0);
  Ok {| outcome_name := outcome;
        type_and_precision := tp;
        mad := mad0;
        continuous_feature_names := cl_continuous c;
        permitted_range := cl_range c;
        categorical_feature_names := cl_categorical c;
        categorical_levels := cl_levels c;
        feature_names := dict_keys features_dict;
        continuous_feature_indexes := cont_ix;
        categorical_feature_indexes := cat_ix;
        encoded_feature_names := encoded;
        encoded_continuous_feature_indexes := None;
        encoded_categorical_feature_indexes := None |}.

(** ** Numbers *)

Definition num_of (a : atom) : option Q :=
  match a with
  | AInt z => Some (inject_Z z)
  | AFloat q => Some q
  | _ => None
  end.

(** [a - b] on Python scalars. *)
Definition atom_sub (a b : atom) : outcome atom :=
  match a, b with
  | AInt x, AInt y => Ok (AInt (x - y))
  | _, _ =>
      match num_of a, num_of b with
      | Some x, Some y => Ok (AFloat (x - y))
      | _, _ => Raise TypeError
      end
  end.

(** ** Tables *)

(** A column holds floats (dtype [float64], [NumCol]), strings (dtype
    [object], [StrCol]) or machine integers (dtype [int64], [IntCol]).  A
    division by zero leaves a float column of infinities and NaNs, of which
    only the length is kept ([NonFiniteCol], never empty).  The dtype of an
    empty [object] column decides what arithmetic on it does; the embedding
    does not fix it. *)
Inductive column : Type :=
  | NumCol (vs : list Q)
  | StrCol (vs : list string)
  | IntCol (zs : list Z)
  | NonFiniteCol (n : nat).

(** The range of [int64], and the value that an integer has after
    wrap-around to 64 bits (two's complement). *)
Definition int64_min : Z := (- 2 ^ 63)%Z.
Definition int64_max : Z := (2 ^ 63 - 1)%Z.

Definition in_int64 (z : Z) : bool := ((int64_min <=? z) && (z <=? int64_max))%Z.

Definition wrap64 (z : Z) : Z := ((z + 2 ^ 63) mod 2 ^ 64 - 2 ^ 63)%Z.

(** [series op n] on an [int64] column and a Python [int]: when [n] fits in
    64 bits numpy computes in [int64], and the result wraps around silently;
    a larger [n] is no [int64] scalar, and the result is computed without
    wrap-around (in [float64], or on Python integers). *)
Definition int64_op (op : Z -> Z -> Z) (zs : list Z) (n : Z) : column :=
  if in_int64 n then IntCol (map (fun z => wrap64 (op z n)) zs)
  else NumCol (map (fun z => inject_Z (op z n)) zs).

(** A column of infinities and NaNs stays one under arithmetic with a
    number. *)
Definition non_finite_op (n : nat) (x : atom) : outcome column :=
  match num_of x with
  | Some _ => Ok (NonFiniteCol n)
  | None => Raise TypeError
  end.

Definition frame : Type := list (string * column).

Definition columns (f : frame) : list string := map fst f.

Definition frame_get (name : string) (f : frame) : option column := dict_get name f.

Definition frame_set (name : string) (c : column) (f : frame) : frame := dict_set name c f.




(** [s * n] on a string: [n] copies of [s], none when [n <= 0]. *)
Fixpoint str_repeat (s : string) (n : nat) : string :=
  match n with
  | O => ""
  | S n' => s +:+ str_repeat s n'
  end.

(** [series * x], element by element. *)
Definition series_mul (c : column) (x : atom) : outcome column :=
  match c with
  | NumCol vs =>
      match num_of x with
      | Some q => Ok (NumCol (map (fun v => v * q)%Q vs))
      | None => Raise TypeError
      end
  | StrCol [] => OutOfModel
  | StrCol ((_ :: _) as vs) =>
      match x with
      | AInt n => Ok (StrCol (map (fun s => str_repeat s (Z.to_nat n)) vs))
      | _ => Raise TypeError
      end
  | IntCol zs =>
      match x with
      | AInt n => Ok (int64_op Z.mul zs n)
      | AFloat q => Ok (NumCol (map (fun z => inject_Z z * q)%Q zs))
      | _ => Raise TypeError
      end
  | NonFiniteCol n => non_finite_op n x
  end.

(** [series + x], element by element. *)
Definition series_add (c : column) (x : atom) : outcome column :=
  match c with
  | NumCol vs =>
      match num_of x with
      | Some q => Ok (NumCol (map (fun v => v + q)%Q vs))
      | None => Raise TypeError
      end
  | StrCol [] => OutOfModel
  | StrCol ((_ :: _) as vs) =>
      match x with
      | AStr t => Ok (StrCol (map (fun s => s +:+ t) vs))
      | _ => Raise TypeError
      end
  | IntCol zs =>
      match x with
      | AInt n => Ok (int64_op Z.add zs n)
      | AFloat q => Ok (NumCol (map (fun z => inject_Z z + q)%Q zs))
      | _ => Raise TypeError
      end
  | NonFiniteCol n => non_finite_op n x
  end.

(** ** The store of tables *)

Abbreviation ref := nat (only parsing).
Abbreviation store := (list frame) (only parsing).

(** A reference always points into the store; a dangling one has no
    counterpart in the program. *)
Definition deref (st : store) (r : ref) : outcome frame :=
  match st !! r with
  | Some f => Ok f
  | None => OutOfModel
  end.

(** [df.copy()]: a new table with the same columns. *)
Definition copy (st : store) (df : ref) : outcome (ref * store) :=
  f ← deref st df;
  Ok (length st, st ++ [f]).

(** [df[name]]. *)
Definition frame_getitem (st : store) (df : ref) (name : string) : outcome column :=
  f ← deref st df;
  match frame_get name f with
  | Some c => Ok c
  | None => Raise KeyError
  end.

(** [df[name] = c], in place. *)
Definition frame_setitem (st : store) (df : ref) (name : string) (c : column)
    : outcome store :=
  f ← deref st df;
  Ok (<[df := frame_set name c f]> st).

(** ** Normalisation *)



(** Body of the loop of [de_normalize_data]. *)
Definition de_normalize_column (self : PrivateData) (df result : ref) (st : store)
    (feature_name : string) : outcome store :=
  r1 ← dict_getitem feature_name (permitted_range self);
  max_value ← getitem r1 1;
  r0 ← dict_getitem feature_name (permitted_range self);
  min_value ← getitem r0 0;
  col ← frame_getitem st df feature_name;
  width ← atom_sub max_value min_value;
  scaled ← series_mul col width;
  c ← series_add scaled min_value;
  frame_setitem st result feature_name c.

Definition de_normalize_data (self : PrivateData) (st : store) (df : ref)
    : outcome (ref * store) :=
  '(result, st1) ← copy st df;
  st2 ← for_each (de_normalize_column self df result) (continuous_feature_names self) st1;
  Ok (result, st2).

(** ** Bounds and index tables of the encoded space *)

(** A two-dimensional numpy array: [ncols] is the length of every row. *)
Record ndarray : Type := {
  ncols : nat;
  rows : list (list Q)
}.

(** [np.array([[x]*n])]. *)
Definition row_of (x : Q) (n : nat) : ndarray :=
  {| ncols := n; rows := [repeat x n] |}.

(** A name that the function, the module and the builtins leave unbound. *)
Definition unbound_name {A : Type} (name : string) : outcome A :=
  Raise (NameError name).

Definition get_minx_maxx (self : PrivateData) (normalized : bool)
    : outcome (ndarray * ndarray) :=
  names0 ← getattr "encoded_feature_names" (encoded_feature_names self);
  let minx := row_of 0 (length names0) in
  names1 ← getattr "encoded_feature_names" (encoded_feature_names self);
  let maxx := row_of 1 (length names1) in
  if normalized then Ok (minx, maxx)
  else
    feature_name ← unbound_name (A := string) "feature_name";
    r ← dict_getitem feature_name (permitted_range self);
    _ ← getitem r 0;
    unbound_name "idx".

Definition get_mads_from_training_data (self : PrivateData) (normalized : bool) : pyobj :=
  mad self.

(** Body of the loop of [get_encoded_categorical_feature_indexes]. *)
Definition encoded_group (self : PrivateData) (cols : list (list nat))
    (col_parent : string) : outcome (list (list nat)) :=
  names ← getattr "encoded_feature_names" (encoded_feature_names self);
  temp ← comprehension
            (fun col =>
               names' ← getattr "encoded_feature_names" (encoded_feature_names self);
               list_index col names')
            (filter (fun col => String.prefix col_parent col = true) names);
  Ok (cols ++ [temp]).

Definition get_encoded_categorical_feature_indexes (self : PrivateData)
    : outcome (list (list nat)) :=
  for_each (encoded_group self) (categorical_feature_names self) [].

Definition set_encoded_continuous_feature_indexes (self : PrivateData) (v : list nat)
    : PrivateData :=
  {| outcome_name := outcome_name self;
     type_and_precision := type_and_precision self;
     mad := mad self;
     continuous_feature_names := continuous_feature_names self;
     permitted_range := permitted_range self;
     categorical_feature_names := categorical_feature_names self;
     categorical_levels := categorical_levels self;
     feature_names := feature_names self;
     continuous_feature_indexes := continuous_feature_indexes self;
     categorical_feature_indexes := categorical_feature_indexes self;
     encoded_feature_names := encoded_feature_names self;
     encoded_continuous_feature_indexes := Some v;
     encoded_categorical_feature_indexes := encoded_categorical_feature_indexes self |}.

Definition set_encoded_categorical_feature_indexes (self : PrivateData)
    (v : list (list nat)) : PrivateData :=
  {| outcome_name := outcome_name self;
     type_and_precision := type_and_precision self;
     mad := mad self;
     continuous_feature_names := continuous_feature_names self;
     permitted_range := permitted_range self;
     categorical_feature_names := categorical_feature_names self;
     categorical_levels := categorical_levels self;
     feature_names := feature_names self;
     continuous_feature_indexes := continuous_feature_indexes self;
     categorical_feature_indexes := categorical_feature_indexes self;
     encoded_feature_names := encoded_feature_names self;
     encoded_continuous_feature_indexes := encoded_continuous_feature_indexes self;
     encoded_categorical_feature_indexes := Some v |}.

(** What [get_data_params] returns. *)
Record data_params : Type := {
  dp_minx : ndarray;
  dp_maxx : ndarray;
  dp_continuous : list nat;
  dp_categorical : list (list nat)
}.

(** The method assigns two attributes of [self]; the object after the call is
    returned with the result. *)
Definition get_data_params (self : PrivateData) : outcome (data_params * PrivateData) :=
  '(minx, maxx) ← get_minx_maxx self true;
  let self1 :=
    set_encoded_continuous_feature_indexes self
      (seq 0 (length (continuous_feature_indexes self))) in
  cat ← get_encoded_categorical_feature_indexes self1;
  let self2 := set_encoded_categorical_feature_indexes self1 cat in
  cont ← getattr "encoded_continuous_feature_indexes"
           (encoded_continuous_feature_indexes self2);
  cat' ← getattr "encoded_categorical_feature_indexes"
           (encoded_categorical_feature_indexes self2);
  Ok ({| dp_minx := minx; dp_maxx := maxx; dp_continuous := cont; dp_categorical := cat' |},
      self2).

(** [v == "s"] for a string literal. *)
Definition eq_str (v : pyval) (s : string) : bool :=
  match v with
  | VAtom (AStr x) => String.eqb x s
  | _ => false
  end.

(** [col.startswith(t)] for a tuple [t]: the elements are tried in order, and
    one that is not a string raises when it is reached. *)
Fixpoint startswith_any (col : string) (t : list atom) : outcome bool :=
  match t with
  | [] => Ok false
  | AStr p :: t' => if String.prefix p col then Ok true else startswith_any col t'
  | _ :: _ => Raise TypeError
  end.

(** [[x for x in l if cond(x)]] where [cond] may raise. *)
Fixpoint filter_comprehension {A : Type} (cond : A -> outcome bool) (l : list A)
    : outcome (list A) :=
  match l with
  | [] => Ok []
  | x :: l' =>
      b ← cond x;
      r ← filter_comprehension cond l';
      Ok (if (b : bool) then x :: r else r)
  end.

Definition enumerate {A : Type} (l : list A) : list (nat * A) :=
  combine (seq 0 (length l)) l.

Definition get_indexes_of_features_to_vary (self : PrivateData) (features_to_vary : pyval)
    : outcome (list nat) :=
  if eq_str features_to_vary "all" then
    names ← getattr "encoded_feature_names" (encoded_feature_names self);
    Ok (seq 0 (length names))
  else
    names ← getattr "encoded_feature_names" (encoded_feature_names self);
    picked ← filter_comprehension
               (fun '(colidx, col) =>
                  feature_list ← unbound_name (A := pyval) "feature_list";
                  t ← iterate feature_list;
                  startswith_any col t)
               (enumerate names);
    Ok (map fst picked).

(** ** Decimal precisions *)

(** [l[i] = v]. *)
Definition list_setitem {A : Type} (l : list A) (i : nat) (v : A) : outcome (list A) :=
  if Nat.ltb i (length l) then Ok (<[i := v]> l) else Raise IndexError.

(** Body of the loop of [get_decimal_precisions]. *)
Definition set_precision (self : PrivateData) (precisions : list atom)
    (entry : nat * string) : outcome (list atom) :=
  let '(ix, feature_name) := entry in
  type_prec ← getitem_key (type_and_precision self) feature_name;
  if eq_str type_prec "int" then list_setitem precisions ix (AInt 0)
  else
    tp ← getitem_key (type_and_precision self) feature_name;
    prec ← getitem tp 1;
    list_setitem precisions ix prec.

Definition get_decimal_precisions (self : PrivateData) : outcome (list atom) :=
  for_each (set_precision self) (enumerate (continuous_feature_names self))
    (repeat (AInt 0) (length (feature_names self))).

Definition get_dev_data {A : Type} (self : PrivateData) : outcome A :=
  Raise ValueError.

(** ** Decoding one-hot columns *)

(** [sub in s]. *)
Fixpoint contains (sub s : string) : bool :=
  String.prefix sub s ||
  match s with
  | EmptyString => false
  | String _ s' => contains sub s'
  end.

(** Scan of [s.replace(old, "")] for a non-empty [old]: [skip] characters of
    a match are still to be dropped. *)
Fixpoint remove_scan (old : string) (skip : nat) (s : string) : string :=
  match s with
  | EmptyString => EmptyString
  | String c s' =>
      match skip with
      | S k => remove_scan old k s'
      | O =>
          if String.prefix old s then remove_scan old (String.length old - 1) s'
          else String c (remove_scan old 0 s')
      end
  end.

(** [s.replace(old, "")]. *)
Definition str_remove (old s : string) : string :=
  match old with
  | EmptyString => s
  | String _ _ => remove_scan old 0 s
  end.

(** [np.argmax] of one row: the first position of the largest value. *)
Fixpoint argmax_from (best : Q) (besti i : nat) (l : list Q) : nat :=
  match l with
  | [] => besti
  | x :: l' =>
      if Qlt_le_dec best x then argmax_from x i (S i) l'
      else argmax_from best besti (S i) l'
  end.

Definition argmax (l : list Q) : nat :=
  match l with
  | [] => 0
  | x :: l' => argmax_from x 0 1 l'
  end.

(** [data[cols].values]: the selected columns; an array of strings is not
    represented. *)
Definition select_values (d : frame) (cols : list string) : outcome (list (list Q)) :=
  comprehension
    (fun c =>
       match frame_get c d with
       | Some (NumCol vs) => Ok vs
       | Some (IntCol zs) => Ok (map inject_Z zs)
       | Some (StrCol _) | Some (NonFiniteCol _) => OutOfModel
       | None => Raise KeyError
       end)
    cols.

(** [np.argmax(values, axis=1)]; numpy refuses an array without columns. *)
Definition argmax_rows (vals : list (list Q)) : outcome (list nat) :=
  match vals with
  | [] => Raise ValueError
  | c0 :: _ =>
      Ok (map (fun i => argmax (map (fun c => nth i c 0%Q) vals)) (seq 0 (length c0)))
  end.

(** [out.drop(cols, axis=1, inplace=True)]. *)
Definition drop_columns (st : store) (out : ref) (cols : list string) : outcome store :=
  f ← deref st out;
  if forallb (fun c => dict_mem c f) cols then
    Ok (<[out := filter (fun '(name, _) => negb (existsb (String.eqb name) cols)) f]> st)
  else Raise KeyError.

(** Body of the loop of [from_dummies], with [prefix_sep = "_"]. *)
Definition from_dummies_feature (data out : ref) (st : store) (l : string)
    : outcome store :=
  d ← deref st data;
  let cols := filter (fun c => contains (l +:+ "_") c = true) (columns d) in
  let labs := map (str_remove (l +:+ "_")) cols in
  vals ← select_values d cols;
  ix ← argmax_rows vals;
  st1 ← frame_setitem st out l (StrCol (map (fun i => nth i labs "") ix));
  drop_columns st1 out cols.

Definition from_dummies (self : PrivateData) (st : store) (data : ref)
    : outcome (ref * store) :=
  '(out, st1) ← copy st data;
  st2 ← for_each (from_dummies_feature data out) (categorical_feature_names self) st1;
  Ok (out, st2).

(** The argument of [get_decoded_data]. *)
Inductive table : Type :=
  | Array (a : ndarray)
  | Frame (df : ref).

(** [pd.DataFrame(data=a, index=..., columns=names)]; pandas accepts repeated
    labels, the embedding does not represent such a table. *)
Definition pd_DataFrame (st : store) (a : ndarray) (names : list string)
    : outcome (ref * store) :=
  if negb (forallb (fun r => Nat.eqb (length r) (ncols a)) (rows a)) then OutOfModel
  else if negb (Nat.eqb (ncols a) (length names)) then Raise ValueError
  else if negb (bool_decide (NoDup names)) then OutOfModel
  else
    let f := imap (fun j name => (name, NumCol (map (fun r => nth j r 0%Q) (rows a)))) names in
    Ok (length st, st ++ [f]).

Definition get_decoded_data (self : PrivateData) (st : store) (data : table)
    : outcome (ref * store) :=
  match data with
  | Array a =>
      let index := seq 0 (length (rows a)) in
      names ← getattr "encoded_feature_names" (encoded_feature_names self);
      '(df, st1) ← pd_DataFrame st a names;
      from_dummies self st1 df
  | Frame df => from_dummies self st df
  end.

Definition example_features : dict pyval :=
  [("age", VList [AInt 18; AInt 65]);
   ("color", VList [AStr "red"; AStr "green"; AStr "blue"])].

Definition example_params : params :=
  {| params_features := Some (ODict example_features);
     params_outcome_name := Some (OVal (VAtom (AStr "income")));
     params_type_and_precision := None;
     params_mad := None |}.

Definition example_frame : frame :=
  [("age", NumCol [inject_Z 18; inject_Z 65; (83 # 2)%Q]);
   ("color", StrCol ["red"; "blue"; "red"])].

(** ** Vocabulary of the statements *)

(** [type(o) is dict] and [type(o) is str]. *)
Definition is_dict (o : pyobj) : bool :=
  match o with ODict _ => true | OVal _ => false end.

Definition is_str (o : pyobj) : bool :=
  match o with OVal (VAtom (AStr _)) => true | _ => false end.

(** A schema with continuous features only. *)
Definition continuous_only_params : params :=
  {| params_features :=
       Some (ODict [("age", VList [AInt 18; AInt 65]);
                    ("hours_per_week", VList [AInt 1; AInt 99])]);
     params_outcome_name := Some (OVal (VAtom (AStr "income")));
     params_type_and_precision := None;
     params_mad := None |}.

Definition continuous_only_schema : PrivateData :=
  {| outcome_name := "income";
     type_and_precision :=
       ODict [("age", VAtom (AStr "int")); ("hours_per_week", VAtom (AStr "int"))];
     mad := OVal (VList [AFloat 1; AFloat 1]);
     continuous_feature_names := ["age"; "hours_per_week"];
     permitted_range :=
       [("age", VList [AInt 18; AInt 65]); ("hours_per_week", VList [AInt 1; AInt 99])];
     categorical_feature_names := [];
     categorical_levels := [];
     feature_names := ["age"; "hours_per_week"];
     continuous_feature_indexes := [0; 1];
     categorical_feature_indexes := [];
     encoded_feature_names := None;
     encoded_continuous_feature_indexes := None;
     encoded_categorical_feature_indexes := None |}.

(** The classification rule of the constructor, read off the declared
    mapping: a feature is continuous when the first element of its declared
    value is an [int]. *)
Definition is_continuous (d : dict pyval) (k : string) : bool :=
  match dict_get k d with
  | Some v =>
      match getitem v 0 with
      | Ok a => is_int a
      | _ => false
      end
  | None => false
  end.

(** The strings of a list of atoms. *)
Definition strings_of (l : list atom) : list string :=
  omap (fun a => match a with AStr s => Some s | _ => None end) l.

(** The levels a declared value stands for: the strings of a list, or the
    characters of a string. *)
Definition levels_of (v : pyval) : list string :=
  match v with
  | VList l => strings_of l
  | VAtom (AStr s) => chars s
  | VAtom _ => []
  end.

(** The levels declared for a feature in the mapping the schema was built
    from. *)
Definition declared_levels (d : dict pyval) (c : string) : list string :=
  match dict_get c d with
  | Some v => levels_of v
  | None => []
  end.

(** The column of one level: ["<feature>_<level>"]. *)
Definition encoded_name (feature level : string) : string :=
  feature +:+ "_" +:+ level.

(** The one-hot columns of a categorical feature, as the specification words
    it: its levels sorted lexicographically. *)
Definition one_hot_columns (d : dict pyval) (c : string) : list string :=
  map (encoded_name c) (merge_sort String.le (declared_levels d c)).

(** The layout of the encoded space, as the specification words it: the
    continuous features in declaration order, then the columns of each
    categorical feature in declaration order. *)
Definition encoded_layout (d : dict pyval) : list string :=
  filter (fun k => is_continuous d k = true) (dict_keys d) ++
  flat_map (one_hot_columns d) (filter (fun k => is_continuous d k = false) (dict_keys d)).

(** A schema with a continuous feature first and a categorical one. *)
Definition example_schema : PrivateData :=
  {| outcome_name := "income";
     type_and_precision := ODict [("age", VAtom (AStr "int"))];
     mad := OVal (VList [AFloat 1; AFloat 1]);
     continuous_feature_names := ["age"];
     permitted_range := [("age", VList [AInt 18; AInt 65])];
     categorical_feature_names := ["color"];
     categorical_levels := [("color", VList [AStr "red"; AStr "green"; AStr "blue"])];
     feature_names := ["age"; "color"];
     continuous_feature_indexes := [0];
     categorical_feature_indexes := [1];
     encoded_feature_names := Some ["age"; "color_blue"; "color_green"; "color_red"];
     encoded_continuous_feature_indexes := None;
     encoded_categorical_feature_indexes := None |}.

(** The [type_and_precision] argument as the constructor reads it: an empty
    dictionary when the key is absent. *)
Definition supplied_type_and_precision (p : params) : pyobj :=
  match params_type_and_precision p with
  | Some tp => tp
  | None => ODict []
  end.

(** Two continuous features, and a type given for one of them only. *)
Definition partial_type_params : params :=
  {| params_features :=
       Some (ODict [("age", VList [AInt 18; AInt 65]);
                    ("hours_per_week", VList [AInt 1; AInt 99])]);
     params_outcome_name := Some (OVal (VAtom (AStr "income")));
     params_type_and_precision :=
       Some (ODict [("hours_per_week", VList [AStr "float"; AInt 1])]);
     params_mad := None |}.

Definition partial_type_schema : PrivateData :=
  {| outcome_name := "income";
     type_and_precision := ODict [("hours_per_week", VList [AStr "float"; AInt 1])];
     mad := OVal (VList [AFloat 1; AFloat 1]);
     continuous_feature_names := ["age"; "hours_per_week"];
     permitted_range :=
       [("age", VList [AInt 18; AInt 65]); ("hours_per_week", VList [AInt 1; AInt 99])];
     categorical_feature_names := [];
     categorical_levels := [];
     feature_names := ["age"; "hours_per_week"];
     continuous_feature_indexes := [0; 1];
     categorical_feature_indexes := [];
     encoded_feature_names := None;
     encoded_continuous_feature_indexes := None;
     encoded_categorical_feature_indexes := None |}.

(** The decimal precision a type entry declares: 0 for ["int"], the second
    element of a list such as [["float", 2]]. *)
Definition precision_of (v : pyval) : option atom :=
  match v with
  | VAtom (AStr t) => if String.eqb t "int" then Some (AInt 0) else None
  | VList (_ :: k :: _) => Some k
  | _ => None
  end.

(** A categorical feature declared before a continuous one of type float. *)
Definition interleaved_params : params :=
  {| params_features :=
       Some (ODict [("color", VList [AStr "red"; AStr "green"; AStr "blue"]);
                    ("price", VList [AInt 0; AInt 100])]);
     params_outcome_name := Some (OVal (VAtom (AStr "sold")));
     params_type_and_precision := Some (ODict [("price", VList [AStr "float"; AInt 2])]);
     params_mad := None |}.

Definition interleaved_schema : PrivateData :=
  {| outcome_name := "sold";
     type_and_precision := ODict [("price", VList [AStr "float"; AInt 2])];
     mad := OVal (VList [AFloat 1; AFloat 1]);
     continuous_feature_names := ["price"];
     permitted_range := [("price", VList [AInt 0; AInt 100])];
     categorical_feature_names := ["color"];
     categorical_levels := [("color", VList [AStr "red"; AStr "green"; AStr "blue"])];
     feature_names := ["color"; "price"];
     continuous_feature_indexes := [1];
     categorical_feature_indexes := [0];
     encoded_feature_names := Some ["price"; "color_blue"; "color_green"; "color_red"];
     encoded_continuous_feature_indexes := None;
     encoded_categorical_feature_indexes := None |}.

(** A categorical feature whose name is a prefix of a continuous feature's
    name, as in the Adult census data. *)
Definition education_params : params :=
  {| params_features :=
       Some (ODict [("education_num", VList [AInt 1; AInt 16]);
                    ("education", VList [AStr "HS-grad"; AStr "Bachelors"])]);
     params_outcome_name := Some (OVal (VAtom (AStr "income")));
     params_type_and_precision := None;
     params_mad := None |}.

Definition education_schema : PrivateData :=
  {| outcome_name := "income";
     type_and_precision := ODict [("education_num", VAtom (AStr "int"))];
     mad := OVal (VList [AFloat 1; AFloat 1]);
     continuous_feature_names := ["education_num"];
     permitted_range := [("education_num", VList [AInt 1; AInt 16])];
     categorical_feature_names := ["education"];
     categorical_levels := [("education", VList [AStr "HS-grad"; AStr "Bachelors"])];
     feature_names := ["education_num"; "education"];
     continuous_feature_indexes := [0];
     categorical_feature_indexes := [1];
     encoded_feature_names :=
       Some ["education_num"; "education_Bachelors"; "education_HS-grad"];
     encoded_continuous_feature_indexes := None;
     encoded_categorical_feature_indexes := None |}.

(** The permitted range of a continuous feature, as numbers. *)
Definition range_of (self : PrivateData) (c : string) : option (Q * Q) :=
  match dict_get c (permitted_range self) with
  | Some v =>
      match getitem v 0, getitem v 1 with
      | Ok a, Ok b =>
          match num_of a, num_of b with
          | Some lo, Some hi => Some (lo, hi)
          | _, _ => None
          end
      | _, _ => None
      end
  | None => None
  end.






(** A number within the range of [int64]. *)
Definition within_int64 (q : Q) : Prop :=
  (inject_Z int64_min <= q <= inject_Z int64_max)%Q.





Definition wide_schema : PrivateData :=
  {| outcome_name := "income";
     type_and_precision := ODict [("balance", VAtom (AStr "int"))];
     mad := OVal (VList [AFloat 1]);
     continuous_feature_names := ["balance"];
     permitted_range := [("balance", VList [AInt (- 2 ^ 62); AInt (2 ^ 62)])];
     categorical_feature_names := [];
     categorical_levels := [];
     feature_names := ["balance"];
     continuous_feature_indexes := [0];
     categorical_feature_indexes := [];
     encoded_feature_names := None;
     encoded_continuous_feature_indexes := None;
     encoded_categorical_feature_indexes := None |}.


(** A schema whose feature [count] ranges over [0, 2^62], and a table with
    the [int64] value 2 in the column of that feature. *)
Definition count_schema : PrivateData :=
  {| outcome_name := "income";
     type_and_precision := ODict [("count", VAtom (AStr "int"))];
     mad := OVal (VList [AFloat 1]);
     continuous_feature_names := ["count"];
     permitted_range := [("count", VList [AInt 0; AInt (2 ^ 62)])];
     categorical_feature_names := [];
     categorical_levels := [];
     feature_names := ["count"];
     continuous_feature_indexes := [0];
     categorical_feature_indexes := [];
     encoded_feature_names := None;
     encoded_continuous_feature_indexes := None;
     encoded_categorical_feature_indexes := None |}.

Definition count_frame : frame := [("count", IntCol [2%Z])].




(** [m] does not raise [ValueError]. *)
Definition no_ValueError {A : Type} (m : outcome A) : Prop := m <> Raise ValueError.


(** Only the columns of a categorical feature start with its name. *)
Definition separable (d : dict pyval) (cats names : list string) : Prop :=
  forall c n, c ∈ cats -> n ∈ names -> String.prefix c n = true -> n ∈ one_hot_columns d c.

(** ** Vocabulary of the decoding statements *)

(** The columns [from_dummies] takes for the one-hot columns of a feature:
    those whose label contains ["<feature>_"]. *)
Definition one_hot_group (l : string) (data : frame) : list string :=
  filter (fun c => contains (l +:+ "_") c = true) (columns data).

(** A table without the columns of the given labels. *)
Definition drop_cols (cols : list string) (f : frame) : frame :=
  filter (fun '(name, _) => negb (existsb (String.eqb name) cols)) f.

(** The values of the listed columns, when they are numeric. *)
Definition group_values (cols : list string) (data : frame) : list (list Q) :=
  map (fun c => match frame_get c data with Some (NumCol vs) => vs | _ => [] end) cols.

(** The label [from_dummies] gives each row for a feature: the label of the
    first column of the group with the largest value in the row, without its
    occurrences of ["<feature>_"]. *)
Definition decoded_labels (l : string) (data : frame) : list string :=
  let cols := one_hot_group l data in
  let vals := group_values cols data in
  map (fun i => nth (argmax (map (fun c => nth i c 0%Q) vals))
                  (map (str_remove (l +:+ "_")) cols) "")
    (seq 0 (length (hd [] vals))).

(** The table [from_dummies] returns: the columns of the argument that belong
    to no group, then one column of labels per categorical feature. *)
Definition decoded (cats : list string) (data : frame) : frame :=
  drop_cols (flat_map (fun l => one_hot_group l data) cats) data ++
  map (fun l => (l, StrCol (decoded_labels l data))) cats.

(** What [from_dummies] needs of its argument: no feature is listed twice or
    names a column; every feature has a group of numeric columns; and no
    column belongs to the groups of two features. *)
Definition decodable (cats : list string) (data : frame) : Prop :=
  NoDup cats /\
  (forall l, l ∈ cats -> l ∉ columns data) /\
  (forall l, l ∈ cats ->
     one_hot_group l data <> [] /\
     forall c, c ∈ one_hot_group l data -> exists vs, frame_get c data = Some (NumCol vs)) /\
  (forall l l' c, l ∈ cats -> l' ∈ cats -> l <> l' ->
     c ∈ one_hot_group l data -> c ∉ one_hot_group l' data).

(** Two rows in encoded space, and what they decode to. *)
Definition encoded_example_frame : frame :=
  [("age", NumCol [(1 # 2)%Q; (1 # 3)%Q]);
   ("color_blue", NumCol [0%Q; 1%Q]);
   ("color_green", NumCol [1%Q; 0%Q]);
   ("color_red", NumCol [0%Q; 0%Q])].

Definition decoded_example_frame : frame :=
  [("age", NumCol [(1 # 2)%Q; (1 # 3)%Q]);
   ("color", StrCol ["green"; "blue"])].

(** The value of a numeric column in a row. *)
Definition cell (d : frame) (c : string) (i : nat) : Q :=
  match frame_get c d with
  | Some (NumCol vs) => nth i vs 0%Q
  | _ => 0%Q
  end.

(** In row [i], the column of the [k]-th level holds the largest value of the
    columns of the feature, and no earlier column holds as much. *)
Definition chosen (d : frame) (l : string) (levels : list string) (i k : nat) : Prop :=
  (k < length levels)%nat /\
  (forall m, (m < k)%nat ->
     (cell d (encoded_name l (nth m levels "")) i
      < cell d (encoded_name l (nth k levels "")) i)%Q) /\
  (forall m, (k < m < length levels)%nat ->
     (cell d (encoded_name l (nth m levels "")) i
      <= cell d (encoded_name l (nth k levels "")) i)%Q).

(** A table that was never encoded, and a schema with two categorical
    features, the name of the first being the start of the name of the
    second. *)
Definition degree_schema : PrivateData :=
  {| outcome_name := "income";
     type_and_precision := ODict [];
     mad := OVal (VList [AFloat 1; AFloat 1]);
     continuous_feature_names := [];
     permitted_range := [];
     categorical_feature_names := ["degree"; "degree_field"];
     categorical_levels :=
       [("degree", VList [AStr "BA"; AStr "MA"]);
        ("degree_field", VList [AStr "arts"; AStr "law"])];
     feature_names := ["degree"; "degree_field"];
     continuous_feature_indexes := [];
     categorical_feature_indexes := [0; 1];
     encoded_feature_names :=
       Some ["degree_BA"; "degree_MA"; "degree_field_arts"; "degree_field_law"];
     encoded_continuous_feature_indexes := None;
     encoded_categorical_feature_indexes := None |}.

Definition degree_params : params :=
  {| params_features :=
       Some (ODict [("degree", VList [AStr "BA"; AStr "MA"]);
                    ("degree_field", VList [AStr "arts"; AStr "law"])]);
     params_outcome_name := Some (OVal (VAtom (AStr "income")));
     params_type_and_precision := None;
     params_mad := None |}.

Definition degree_frame : frame :=
  [("degree_BA", NumCol [1%Q]);
   ("degree_MA", NumCol [0%Q]);
   ("degree_field_arts", NumCol [0%Q]);
   ("degree_field_law", NumCol [1%Q])].

(** ** Tables with missing cells *)

(** A cell of a table: missing ([NaN]), a float, a string or a Python
    [int]. *)
Inductive entry : Type :=
  | NaN
  | Num (q : Q)
  | Str (s : string)
  | Int (z : Z).

(** A table given by value, column by column, every column with one cell per
    row.  A table has at least one column and no label twice: where pandas
    would build another table, the embedding stops with [OutOfModel]. *)
Definition dataframe : Type := list (string * list entry).

Definition labels (t : dataframe) : list string := map fst t.

(** [t.shape[0]], the number of rows. *)
Definition height (t : dataframe) : nat :=
  match t with
  | [] => 0
  | (_, c) :: _ => length c
  end.

(** The cell that holds a Python scalar; a cell that holds [None] is not
    represented. *)
Definition entry_of (a : atom) : outcome entry :=
  match a with
  | AInt z => Ok (Int z)
  | AFloat q => Ok (Num q)
  | AStr s => Ok (Str s)
  | ANone => OutOfModel
  end.

(** [pd.DataFrame({name: v})]: pandas refuses a scalar without an index. *)
Definition pd_DataFrame_column (name : string) (v : pyval) : outcome dataframe :=
  match v with
  | VList l => c ← comprehension entry_of l; Ok [(name, c)]
  | VAtom _ => Raise ValueError
  end.

(** A column extended to [n] rows with missing cells. *)
Definition pad (n : nat) (c : list entry) : list entry :=
  c ++ repeat NaN (n - length c).

(** [pd.concat([df, temp_df], axis=1, sort=False)] on tables with the default
    index: the columns side by side, the shorter ones extended with missing
    cells. *)
Definition pd_concat (df temp_df : dataframe) : outcome dataframe :=
  if bool_decide (NoDup (labels df ++ labels temp_df)) then
    let n := Nat.max (height df) (height temp_df) in
    Ok (map (fun kc => (kc.1, pad n kc.2)) (df ++ temp_df))
  else OutOfModel.

(** [l[i]]. *)
Definition list_getitem {A : Type} (l : list A) (i : nat) : outcome A :=
  match l !! i with
  | Some a => Ok a
  | None => Raise IndexError
  end.

Definition prepare_df_for_encoding (self : PrivateData) : outcome dataframe :=
  let colnames := categorical_feature_names self in
  levels ← for_each
             (fun levels cat_feature =>
                v ← dict_getitem cat_feature (categorical_levels self);
                Ok (levels ++ [v]))
             colnames [];
  name0 ← list_getitem colnames 0;
  levels0 ← list_getitem levels 0;
  df ← pd_DataFrame_column name0 levels0;
  df ← for_each
         (fun df col =>
            name ← list_getitem colnames col;
            v ← list_getitem levels col;
            temp_df ← pd_DataFrame_column name v;
            pd_concat df temp_df)
         (seq 1 (length colnames - 1)) df;
  let colnames := continuous_feature_names self in
  for_each
    (fun df col =>
       name ← list_getitem colnames col;
       temp_df ← pd_DataFrame_column name (VList []);
       pd_concat df temp_df)
    (seq 0 (length colnames)) df.

(** ** One-hot encoding *)

(** The strings of a column, in row order; the categories of a column with
    numbers are not represented. *)
Fixpoint strings_in (c : list entry) : outcome (list string) :=
  match c with
  | [] => Ok []
  | NaN :: c' => strings_in c'
  | Str s :: c' => l ← strings_in c'; Ok (s :: l)
  | Num _ :: _ | Int _ :: _ => OutOfModel
  end.

(** The categories pandas gives a column of strings: its distinct values,
    sorted. *)
Definition categories (c : list entry) : outcome (list string) :=
  values ← strings_in c;
  s ← sorted (map AStr (remove_dups values));
  Ok (strings_of s).

Definition indicator (level : string) (e : entry) : entry :=
  match e with
  | Str s => if String.eqb s level then Num 1 else Num 0
  | _ => Num 0
  end.

(** The indicator columns of one column, labelled ["<prefix>_<level>"]; a
    missing cell is 0 in each of them. *)
Definition dummies (prefix : string) (c : list entry) : outcome dataframe :=
  levels ← categories c;
  Ok (map (fun level => (prefix +:+ "_" +:+ level, map (indicator level) c)) levels).

(** [pd.get_dummies(data, drop_first=False, columns=columns)]: the columns
    that are not encoded, then the indicator columns of each encoded column. *)
Definition get_dummies (data : dataframe) (columns : list string) : outcome dataframe :=
  if bool_decide (NoDup columns) then
    data_to_encode ← comprehension (fun k => c ← dict_getitem k data; Ok (k, c)) columns;
    let rest := filter (fun kc => kc.1 ∉ columns) data in
    with_dummies ← comprehension (fun kc => dummies kc.1 kc.2) data_to_encode;
    let result := rest ++ concat with_dummies in
    if bool_decide (NoDup (labels result)) then
      match result with
      | [] => OutOfModel
      | _ :: _ => Ok result
      end
    else OutOfModel
  else OutOfModel.

Definition one_hot_encode_data (self : PrivateData) (data : dataframe) : outcome dataframe :=
  get_dummies data (categorical_feature_names self).

(** ** Test inputs *)

(** The integers of a column whose cells all hold a Python [int]; a column
    without rows is none. *)
Fixpoint ints_of (c : list entry) : option (list Z) :=
  match c with
  | [] => Some []
  | Int z :: c' => zs ← ints_of c'; Some (z :: zs)
  | _ => None
  end.

Definition int_cells (c : list entry) : option (list Z) :=
  match c with
  | [] => None
  | _ :: _ => ints_of c
  end.

(** [series - x] on a column that may miss cells.  A column of Python ints
    has the dtype [int64] when each of them fits in 64 bits: the subtraction
    of an [int] that fits in 64 bits then wraps around, as [int64_op] says.
    When one of them does not fit, the dtype is [uint64] or [object], which
    the embedding does not represent.  On every other column of numbers
    pandas computes without wrap-around. *)
Definition entries_sub (c : list entry) (x : atom) : outcome (list entry) :=
  match num_of x with
  | Some q =>
      match int_cells c with
      | Some zs =>
          if forallb in_int64 zs then
            match x with
            | AInt n =>
                if in_int64 n then Ok (map (fun z => Int (wrap64 (z - n))) zs)
                else Ok (map (fun z => Num (inject_Z (z - n))) zs)
            | _ => Ok (map (fun z => Num (inject_Z z - q)%Q) zs)
            end
          else OutOfModel
      | None =>
          comprehension
            (fun e => match e with
                      | NaN => Ok NaN
                      | Num v => Ok (Num (v - q)%Q)
                      | Int z => Ok (Num (inject_Z z - q)%Q)
                      | Str _ => Raise TypeError
                      end) c
      end
  | None =>
      match c with
      | [] => OutOfModel
      | _ :: _ => Raise TypeError
      end
  end.

(** [series / x] on a column that may miss cells: true division, whose
    results are floats; the result of a division by zero is not
    represented. *)
Definition entries_div (c : list entry) (x : atom) : outcome (list entry) :=
  match num_of x with
  | Some q =>
      if Qeq_bool q 0 then
        match c with
        | [] => Ok []
        | _ :: _ => OutOfModel
        end
      else
        comprehension
          (fun e => match e with
                    | NaN => Ok NaN
                    | Num v => Ok (Num (v / q)%Q)
                    | Int z => Ok (Num (inject_Z z / q)%Q)
                    | Str _ => Raise TypeError
                    end) c
  | None =>
      match c with
      | [] => OutOfModel
      | _ :: _ => Raise TypeError
      end
  end.

(** Body of the loop of [normalize_data], on tables given by value. *)
Definition normalize_entries (self : PrivateData) (df result : dataframe)
    (feature_name : string) : outcome dataframe :=
  r1 ← dict_getitem feature_name (permitted_range self);
  max_value ← getitem r1 1;
  r0 ← dict_getitem feature_name (permitted_range self);
  min_value ← getitem r0 0;
  col ← dict_getitem feature_name df;
  num ← entries_sub col min_value;
  den ← atom_sub max_value min_value;
  c ← entries_div num den;
  Ok (dict_set feature_name c result).

(** [normalize_data] on a table given by value: the copy is the result, the
    argument is only read. *)
Definition normalize_table (self : PrivateData) (df : dataframe) : outcome dataframe :=
  for_each (normalize_entries self df) (continuous_feature_names self) df.

(** [pd.DataFrame.from_dict({'row1': params}, orient='index', columns=names)]
    followed by [reset_index(drop=True)]: one row.  The exception pandas
    raises when the lengths differ depends on its version. *)
Definition from_row (params : list atom) (names : list string) : outcome dataframe :=
  if negb (Nat.eqb (length params) (length names)) then OutOfModel
  else if negb (bool_decide (NoDup names)) then OutOfModel
  else
    match names with
    | [] => OutOfModel
    | _ :: _ =>
        comprehension (fun ka => e ← entry_of ka.2; Ok (ka.1, [e])) (combine names params)
    end.

(** The column of a label, all cells missing when the table lacks the label. *)
Definition column_or_missing (k : string) (t : dataframe) : list entry :=
  match dict_get k t with
  | Some c => c
  | None => repeat NaN (height t)
  end.

(** [temp.append(test, ignore_index=True, sort=False)]: the rows of [test]
    under the rows of [temp]; the labels of [temp], then the other labels of
    [test]. *)
Definition append_rows (temp test : dataframe) : dataframe :=
  map (fun k => (k, column_or_missing k temp ++ column_or_missing k test))
    (labels temp ++ filter (fun k => k ∉ labels temp) (labels test)).

(** [t.tail(k).reset_index(drop=True)]. *)
Definition tail_rows (k : nat) (t : dataframe) : dataframe :=
  map (fun kc => (kc.1, drop (length kc.2 - k) kc.2)) t.

Definition get_test_inputs (self : PrivateData) (params : list atom) (encode : bool)
    : outcome dataframe :=
  test ← from_row params (feature_names self);
  if negb encode then normalize_table self test
  else
    temp ← prepare_df_for_encoding self;
    let temp := append_rows temp test in
    temp ← one_hot_encode_data self temp;
    temp ← normalize_table self temp;
    Ok (tail_rows (height test) temp).

(** ** Vocabulary of the encoding statements *)

(** The levels the schema holds for a categorical feature. *)
Definition schema_levels (self : PrivateData) (c : string) : list string :=
  match dict_get c (categorical_levels self) with
  | Some v => levels_of v
  | None => []
  end.

(** The columns of the categorical features in the table that
    [prepare_df_for_encoding] builds: the levels of each feature in the order
    the schema holds them, extended with missing cells to the largest number
    of levels. *)
Definition level_columns (self : PrivateData) (names : list string) : dataframe :=
  let n := list_max (map (fun c => length (schema_levels self c)) names) in
  map (fun c => (c, pad n (map Str (schema_levels self c)))) names.

(** The table that [prepare_df_for_encoding] builds: the columns of the
    categorical features, then a column of missing cells for each continuous
    feature. *)
Definition encoding_template (self : PrivateData) : dataframe :=
  let n := list_max (map (fun c => length (schema_levels self c))
                       (categorical_feature_names self)) in
  level_columns self (categorical_feature_names self) ++
  map (fun c => (c, repeat NaN n)) (continuous_feature_names self).

(** The schema holds a list of strings for each categorical feature. *)
Definition string_levels (self : PrivateData) : Prop :=
  forall c, c ∈ categorical_feature_names self ->
    dict_get c (categorical_levels self) = Some (VList (map AStr (schema_levels self c))).

(** The cell of a scalar of a query, and the one-row table of a query. *)
Definition entry_or_missing (a : atom) : entry :=
  match entry_of a with
  | Ok e => e
  | _ => NaN
  end.

Definition query_row (names : list string) (params : list atom) : dataframe :=
  map (fun ka => (ka.1, [entry_or_missing ka.2])) (combine names params).

(** A cell after normalisation: a missing cell stays missing, a number [v]
    becomes the float [(v - lo) / (hi - lo)]. *)
Definition scaled (lo hi : Q) (e' e : entry) : Prop :=
  match e, e' with
  | NaN, NaN => True
  | Num v, Num w => (w == (v - lo) / (hi - lo))%Q
  | Int z, Num w => (w == (inject_Z z - lo) / (hi - lo))%Q
  | _, _ => False
  end.

(** The subtraction of [lo] does not overflow in a column: when the column
    has the dtype [int64], neither a cell [z] nor [z - lo] leaves the range of
    [int64]. *)
Definition no_overflow (lo : Q) (c : list entry) : Prop :=
  forall zs, int_cells c = Some zs ->
    Forall (fun z => within_int64 (inject_Z z) /\ within_int64 (inject_Z z - lo)) zs.

Definition not_string (e : entry) : Prop :=
  match e with
  | Str _ => False
  | _ => True
  end.

(** The labels of the encoded space as the schema's lists give them: the
    continuous features, then the columns of each categorical feature, its
    levels sorted. *)
Definition schema_layout (self : PrivateData) : list string :=
  continuous_feature_names self ++
  flat_map (fun c => map (encoded_name c) (merge_sort String.le (schema_levels self c)))
    (categorical_feature_names self).

(** The rows of the table of levels with the row of a query under them. *)
Definition stacked (self : PrivateData) (params : list atom) (c : string) : list entry :=
  column_or_missing c (encoding_template self) ++
  column_or_missing c (query_row (feature_names self) params).

(** The indicator columns of a categorical feature over the stacked rows,
    and the table [one_hot_encode_data] makes of the stacked rows. *)
Definition dummy_columns (self : PrivateData) (params : list atom) (c : string)
    : dataframe :=
  map (fun level => (encoded_name c level, map (indicator level) (stacked self params c)))
    (merge_sort String.le (schema_levels self c)).

Definition encoded_stack (self : PrivateData) (params : list atom) : dataframe :=
  map (fun c => (c, stacked self params c)) (continuous_feature_names self) ++
  concat (map (dummy_columns self params) (categorical_feature_names self)).

(** A query fits a schema: one value per feature, a number within a proper
    range for a continuous feature, a declared level for a categorical one. *)
Definition fits (self : PrivateData) (params : list atom) : Prop :=
  length params = length (feature_names self) /\
  (forall i c a,
     feature_names self !! i = Some c -> params !! i = Some a ->
     c ∈ continuous_feature_names self ->
     exists v lo hi,
       num_of a = Some v /\ range_of self c = Some (lo, hi) /\ ~ (hi == lo)%Q) /\
  (forall i c a,
     feature_names self !! i = Some c -> params !! i = Some a ->
     c ∈ categorical_feature_names self ->
     exists q, a = AStr q /\ q ∈ schema_levels self c).

(** The lists of a schema are those of a mapping with distinct keys, each
    feature in one group, and the levels of a feature are distinct strings. *)
Definition well_formed (self : PrivateData) : Prop :=
  NoDup (feature_names self) /\
  (forall c, c ∈ feature_names self <->
             c ∈ categorical_feature_names self ++ continuous_feature_names self) /\
  NoDup (categorical_feature_names self ++ continuous_feature_names self) /\
  string_levels self /\
  (forall c, c ∈ categorical_feature_names self -> NoDup (schema_levels self c)).

(** ** Vocabulary of the round trip through the encoding *)

(** The strings of a column, and those of the column of a label. *)
Definition entry_strings (c : list entry) : list string :=
  flat_map (fun e => match e with Str x => [x] | _ => [] end) c.

Definition strings_at (t : dataframe) (c : string) : list string :=
  match dict_get c t with
  | Some col => entry_strings col
  | None => []
  end.

(** The levels a column takes in a table, sorted: the categories
    [one_hot_encode_data] gives its indicator columns. *)
Definition observed_levels (t : dataframe) (c : string) : list string :=
  merge_sort String.le (remove_dups (strings_at t c)).

Definition observed_dummies (t : dataframe) (c : string) : dataframe :=
  map (fun level => (encoded_name c level,
                     map (indicator level) (map Str (strings_at t c))))
    (observed_levels t c).

(** The columns that are not encoded. *)
Definition others (cats : list string) (t : dataframe) : dataframe :=
  filter (fun kc => kc.1 ∉ cats) t.

(** A table without missing cells as an object of the store: a column of
    floats, of strings or of Python ints; a table with a mixed column is
    none. *)
Fixpoint numbers_of (c : list entry) : option (list Q) :=
  match c with
  | [] => Some []
  | Num q :: c' => qs ← numbers_of c'; Some (q :: qs)
  | _ => None
  end.

Fixpoint all_strings (c : list entry) : option (list string) :=
  match c with
  | [] => Some []
  | Str x :: c' => xs ← all_strings c'; Some (x :: xs)
  | _ => None
  end.

Definition column_of_entries (c : list entry) : option column :=
  match c with
  | Str _ :: _ => StrCol <$> all_strings c
  | Int _ :: _ => zs ← ints_of c; if forallb in_int64 zs then Some (IntCol zs) else None
  | _ => NumCol <$> numbers_of c
  end.

Fixpoint to_frame (t : dataframe) : option frame :=
  match t with
  | [] => Some []
  | (k, c) :: t' =>
      col ← column_of_entries c;
      f ← to_frame t';
      Some ((k, col) :: f)
  end.

(** The first position of a string in a list. *)
Fixpoint position (x : string) (l : list string) : nat :=
  match l with
  | [] => 0
  | y :: l' => if String.eqb y x then 0 else S (position x l')
  end.

(** A table with a categorical column and a numeric one, its encoding, and
    the encoding as a frame. *)
Definition raw_example : dataframe :=
  [("age", [Num (inject_Z 30); Num (inject_Z 41)]);
   ("color", [Str "red"; Str "blue"])].

Definition encoded_raw_example : dataframe :=
  [("age", [Num (inject_Z 30); Num (inject_Z 41)]);
   ("color_blue", [Num 0; Num 1]);
   ("color_red", [Num 1; Num 0])].

Definition encoded_raw_frame : frame :=
  [("age", NumCol [inject_Z 30; inject_Z 41]);
   ("color_blue", NumCol [0%Q; 1%Q]);
   ("color_red", NumCol [1%Q; 0%Q])].

(** What the round trip needs of a table and its encoding: the categorical
    features are distinct; each has a column of strings with at least one
    row, none of which contains ["<feature>_"]; no label of the encoding is
    the name of a categorical feature; and a label of the encoding contains
    ["<feature>_"] only if it is the column of a value of the feature. *)
Definition encodable (self : PrivateData) (t e : dataframe) : Prop :=
  NoDup (categorical_feature_names self) /\
  (forall c, c ∈ categorical_feature_names self ->
     dict_get c t = Some (map Str (strings_at t c)) /\
     strings_at t c <> [] /\
     forall v, v ∈ strings_at t c -> contains (c +:+ "_") v = false) /\
  (forall c, c ∈ categorical_feature_names self -> c ∉ labels e) /\
  (forall c k, c ∈ categorical_feature_names self -> k ∈ labels e ->
     contains (c +:+ "_") k = true ->
     exists v, v ∈ strings_at t c /\ k = encoded_name c v).

(** * Properties *)

(** ** The outcome monad *)

Lemma bind_Ok {A B : Type} (m : outcome A) (f : A -> outcome B) (b : B) :
  m ≫= f = Ok b <-> exists a, m = Ok a /\ f a = Ok b.
Proof.
  destruct m as [a| |]; simpl; split.
  - intros H. exists a. auto.
  - intros (a' & Ha & H). injection Ha as ->. exact H.
  - discriminate.
  - intros (a' & Ha & _). discriminate.
  - discriminate.
  - intros (a' & Ha & _). discriminate.
Qed.

Lemma bind_Raise {A B : Type} (m : outcome A) (f : A -> outcome B) (e : exn) :
  m ≫= f = Raise e <-> m = Raise e \/ exists a, m = Ok a /\ f a = Raise e.
Proof.
  destruct m as [a| |]; simpl; split.
  - intros H. right. exists a. auto.
  - intros [Ha|(a' & Ha & H)]; [discriminate|]. injection Ha as ->. exact H.
  - intros H. left. injection H as ->. reflexivity.
  - intros [Ha|(a' & Ha & _)]; [|discriminate]. injection Ha as ->. reflexivity.
  - discriminate.
  - intros [Ha|(a' & Ha & _)]; discriminate.
Qed.

(** Splits a hypothesis [x ← m; k = Ok r] into its two steps. *)
Ltac bind_ok H x Hx :=
  apply bind_Ok in H; destruct H as (x & Hx & H).

(** The constructor succeeds exactly through these steps. *)
Lemma init_Ok (p : params) (s : PrivateData) :
  init p = Ok s ->
  exists d o c cont_ix cat_ix enc tp,
    params_features p = Some (ODict d) /\
    params_outcome_name p = Some (OVal (VAtom (AStr o))) /\
    for_each (classify_feature d) (dict_keys d)
      {| cl_continuous := []; cl_range := []; cl_categorical := []; cl_levels := [] |}
      = Ok c /\
    indexes_in d (cl_continuous c) = Ok cont_ix /\
    indexes_in d (cl_categorical c) = Ok cat_ix /\
    (if Nat.ltb 0 (length (cl_categorical c)) then
       exists names,
         for_each (append_levels (cl_levels c)) (cl_categorical c) (cl_continuous c)
           = Ok names /\ enc = Some names
     else enc = None) /\
    s = {| outcome_name := o;
           type_and_precision := tp;
           mad := match params_mad p with
                  | Some m => m
                  | None => OVal (VList (repeat (AFloat 1) (length d)))
                  end;
           continuous_feature_names := cl_continuous c;
           permitted_range := cl_range c;
           categorical_feature_names := cl_categorical c;
           categorical_levels := cl_levels c;
           feature_names := dict_keys d;
           continuous_feature_indexes := cont_ix;
           categorical_feature_indexes := cat_ix;
           encoded_feature_names := enc;
           encoded_continuous_feature_indexes := None;
           encoded_categorical_feature_indexes := None |}.
Proof.
  unfold init. intros H.
  bind_ok H f Hf. destruct (params_features p) as [f'|]; [|discriminate].
  injection Hf as ->.
  bind_ok H d Hd. destruct f as [v|d']; [discriminate|]. injection Hd as ->.
  bind_ok H o Ho. destruct (params_outcome_name p) as [o'|]; [|discriminate].
  injection Ho as ->.
  bind_ok H name Hname.
  destruct o as [[[| | |nm]|]|]; try discriminate. injection Hname as ->.
  bind_ok H c Hc. bind_ok H cont_ix Hcont. bind_ok H cat_ix Hcat.
  bind_ok H enc Henc. bind_ok H n Hn. bind_ok H tp Htp.
  injection H as <-.
  exists d, name, c, cont_ix, cat_ix, enc, tp.
  repeat split; try assumption.
  destruct (Nat.ltb 0 (length (cl_categorical c))).
  - bind_ok Henc names Hnames. injection Henc as <-. exists names. auto.
  - injection Henc as <-. reflexivity.
Qed.

(** ** Which steps can raise [ValueError] *)

Lemma no_ValueError_bind {A B : Type} (m : outcome A) (f : A -> outcome B) :
  no_ValueError m -> (forall a, m = Ok a -> no_ValueError (f a)) -> no_ValueError (m ≫= f).
Proof.
  unfold no_ValueError. intros Hm Hf H. apply bind_Raise in H.
  destruct H as [H|(a & Ha & H)]; [exact (Hm H)|exact (Hf a Ha H)].
Qed.

Lemma no_ValueError_for_each {A S : Type} (body : S -> A -> outcome S) (l : list A) :
  (forall s x, In x l -> no_ValueError (body s x)) ->
  forall s, no_ValueError (for_each body l s).
Proof.
  induction l as [|x l IH]; intros Hbody s; simpl.
  - discriminate.
  - apply no_ValueError_bind.
    + apply Hbody. left. reflexivity.
    + intros s' _. apply IH. intros s0 y Hy. apply Hbody. right. exact Hy.
Qed.

Lemma no_ValueError_comprehension {A B : Type} (f : A -> outcome B) (l : list A) :
  (forall x, In x l -> no_ValueError (f x)) -> no_ValueError (comprehension f l).
Proof.
  induction l as [|x l IH]; intros Hf; simpl.
  - discriminate.
  - apply no_ValueError_bind.
    + apply Hf. left. reflexivity.
    + intros y _. apply no_ValueError_bind.
      * apply IH. intros z Hz. apply Hf. right. exact Hz.
      * intros ys _. discriminate.
Qed.

Lemma no_ValueError_dict_getitem {V : Type} (k : string) (d : dict V) :
  no_ValueError (dict_getitem k d).
Proof. unfold dict_getitem. destruct (dict_get k d); discriminate. Qed.

Lemma no_ValueError_getitem (v : pyval) (i : nat) : no_ValueError (getitem v i).
Proof.
  destruct v as [[| | |s]|l]; simpl; try discriminate.
  - destruct (nth_error (chars s) i); discriminate.
  - destruct (nth_error l i); discriminate.
Qed.

Lemma no_ValueError_classify_feature (d : dict pyval) (st : classified) (k : string) :
  no_ValueError (classify_feature d st k).
Proof.
  unfold classify_feature.
  apply no_ValueError_bind; [apply no_ValueError_dict_getitem|]. intros v _.
  apply no_ValueError_bind; [apply no_ValueError_getitem|]. intros a _.
  destruct (is_int a); discriminate.
Qed.

Lemma no_ValueError_atom_lt (a b : atom) : no_ValueError (atom_lt a b).
Proof. destruct a, b; discriminate. Qed.

Lemma no_ValueError_sorted_insert (x : atom) (l : list atom) :
  no_ValueError (sorted_insert x l).
Proof.
  induction l as [|y l IH]; simpl; [discriminate|].
  apply no_ValueError_bind; [apply no_ValueError_atom_lt|]. intros [] _.
  - apply no_ValueError_bind; [exact IH|]. intros l'' _. discriminate.
  - discriminate.
Qed.

Lemma no_ValueError_sorted (l : list atom) : no_ValueError (sorted l).
Proof.
  induction l as [|x l IH]; simpl; [discriminate|].
  apply no_ValueError_bind; [exact IH|]. intros s _. apply no_ValueError_sorted_insert.
Qed.

Lemma no_ValueError_append_levels (levels : dict pyval) (names : list string) (c : string) :
  no_ValueError (append_levels levels names c).
Proof.
  unfold append_levels.
  apply no_ValueError_bind; [apply no_ValueError_dict_getitem|]. intros v _.
  apply no_ValueError_bind. { destruct v as [[]|]; discriminate. } intros l _.
  apply no_ValueError_bind; [apply no_ValueError_sorted|]. intros s _.
  apply no_ValueError_for_each. intros ns a _. unfold append_category.
  apply no_ValueError_bind. { destruct a; discriminate. } intros n _. discriminate.
Qed.

(** [l.index(x)] finds every key of the dictionary. *)
Lemma list_index_dict_keys {V : Type} (name : string) (d : dict V) :
  dict_mem name d = true -> exists i, list_index name (dict_keys d) = Ok i.
Proof.
  unfold dict_mem. induction d as [|[k v] d IH]; simpl; [discriminate|].
  rewrite (String.eqb_sym k name).
  destruct (String.eqb name k); [exists 0%nat; reflexivity|].
  intros H. destruct (IH H) as [i Hi]. exists (S i). rewrite Hi. reflexivity.
Qed.

Lemma no_ValueError_indexes_in {V : Type} (d : dict V) (names : list string) :
  no_ValueError (indexes_in d names).
Proof.
  unfold indexes_in. apply no_ValueError_comprehension. intros x Hx.
  apply list_elem_of_In, list_elem_of_filter in Hx. destruct Hx as [Hmem _].
  destruct (list_index_dict_keys x d Hmem) as [i Hi]. rewrite Hi. discriminate.
Qed.



(** C9. The constructor raises [ValueError] (the configuration error of the
    schema) exactly when the [features] argument is not a dictionary, or it is
    one and the outcome name is not a string; an exception leaves no object.
    With a dictionary of features and a string outcome name both checks pass:
    no [ValueError] is raised. *)
Theorem init_ValueError_iff (p : params) :
  (init p = Raise ValueError <->
     (exists f, params_features p = Some f /\ is_dict f = false) \/
     (exists f o, params_features p = Some f /\ is_dict f = true /\
                  params_outcome_name p = Some o /\ is_str o = false)) /\
  (forall f o, params_features p = Some f -> params_outcome_name p = Some o ->
     (init p = Raise ValueError <-> is_dict f = false \/ is_str o = false)).
Proof.
  assert (Hmain : init p = Raise ValueError <->
     (exists f, params_features p = Some f /\ is_dict f = false) \/
     (exists f o, params_features p = Some f /\ is_dict f = true /\
                  params_outcome_name p = Some o /\ is_str o = false)).
  { unfold init. destruct (params_features p) as [[v|d]|]; simpl.
    - split; [|reflexivity]. intros _. left. exists (OVal v). auto.
    - destruct (params_outcome_name p) as [o|]; simpl.
      + destruct (is_str o) eqn:Hstr.
        * destruct o as [[[| | |nm]|]|]; try discriminate. simpl.
          split.
          -- intros H. exfalso. revert H.
             apply no_ValueError_bind; [apply no_ValueError_for_each|].
             { intros; apply no_ValueError_classify_feature. }
             intros c _.
             apply no_ValueError_bind; [apply no_ValueError_indexes_in|]. intros ci _.
             apply no_ValueError_bind; [apply no_ValueError_indexes_in|]. intros ca _.
             apply no_ValueError_bind.
             { destruct (Nat.ltb 0 (length (cl_categorical c))); [|discriminate].
               apply no_ValueError_bind; [apply no_ValueError_for_each|].
               - intros; apply no_ValueError_append_levels.
               - intros; discriminate. }
             intros enc _.
             apply no_ValueError_bind.
             { destruct (params_type_and_precision p) as [[[[]|]|]|]; discriminate. }
             intros n _.
             apply no_ValueError_bind; [|intros; discriminate].
             destruct (Nat.eqb n 0); [|discriminate].
             apply no_ValueError_for_each. intros tp x _. destruct tp; discriminate.
          -- intros [(f & Hf & Hd)|(f & o & Hf & _ & Ho & Hs)].
             ++ injection Hf as <-. discriminate.
             ++ injection Ho as <-. discriminate.
        * assert (Hr : (match o with
                        | OVal (VAtom (AStr s)) => Ok s
                        | _ => Raise ValueError
                        end) = Raise ValueError).
          { destruct o as [[[| | |nm]|]|]; try reflexivity. discriminate. }
          rewrite Hr. simpl. split; [|reflexivity]. intros _. right.
          exists (ODict d), o. auto.
      + split; [discriminate|].
        intros [(f & Hf & Hd)|(f & o & _ & _ & Ho & _)].
        * injection Hf as <-. discriminate.
        * discriminate.
    - split; [discriminate|].
      intros [(f & Hf & _)|(f & o & Hf & _)]; discriminate. }
  split; [exact Hmain|].
  intros f o Hf Ho. rewrite Hmain. split.
  - intros [(f' & Hf' & Hd)|(f' & o' & Hf' & _ & Ho' & Hs)].
    + left. congruence.
    + right. congruence.
  - intros [Hd|Hs].
    + left. exists f. auto.
    + destruct (is_dict f) eqn:Hd.
      * right. exists f, o. auto.
      * left. exists f. auto.
Qed.

(** ** Schemas without categorical features *)

Lemma init_encoded_feature_names_None (p : params) (s : PrivateData) :
  init p = Ok s ->
  (encoded_feature_names s = None <-> categorical_feature_names s = []).
Proof.
  intros H. apply init_Ok in H.
  destruct H as (d & o & c & ci & ca & enc & tp & _ & _ & _ & _ & _ & Henc & ->).
  simpl. destruct (cl_categorical c) as [|x l]; simpl in Henc.
  - subst enc. split; reflexivity.
  - destruct Henc as (names & _ & ->). split; discriminate.
Qed.

(** C10. The constructor assigns [encoded_feature_names] only when a
    categorical feature is declared.  On a schema with continuous features
    only, every operation that reads the attribute raises [AttributeError]:
    [get_minx_maxx] with either flag, [get_data_params],
    [get_indexes_of_features_to_vary] on any argument, and
    [get_decoded_data] on a raw matrix. *)
Theorem continuous_only_schema_has_no_encoded_space (p : params) (s : PrivateData) :
  init p = Ok s ->
  (encoded_feature_names s = None <-> categorical_feature_names s = []) /\
  (categorical_feature_names s = [] ->
     (forall normalized,
        get_minx_maxx s normalized = Raise (AttributeError "encoded_feature_names")) /\
     get_data_params s = Raise (AttributeError "encoded_feature_names") /\
     (forall features_to_vary,
        get_indexes_of_features_to_vary s features_to_vary
        = Raise (AttributeError "encoded_feature_names")) /\
     (forall st a,
        get_decoded_data s st (Array a) = Raise (AttributeError "encoded_feature_names"))).
Proof.
  intros H. pose proof (init_encoded_feature_names_None p s H) as Hnone.
  split; [exact Hnone|]. intros Hcat. apply Hnone in Hcat.
  assert (Hmm : forall normalized,
            get_minx_maxx s normalized = Raise (AttributeError "encoded_feature_names")).
  { intros b. unfold get_minx_maxx. rewrite Hcat. reflexivity. }
  repeat split.
  - exact Hmm.
  - unfold get_data_params. rewrite Hmm. reflexivity.
  - intros v. unfold get_indexes_of_features_to_vary. rewrite Hcat.
    destruct (eq_str v "all"); reflexivity.
  - intros st a. unfold get_decoded_data. rewrite Hcat. reflexivity.
Qed.

Lemma continuous_only_schema_has_no_encoded_space_witness :
  init continuous_only_params = Ok continuous_only_schema /\
  (encoded_feature_names continuous_only_schema = None <->
   categorical_feature_names continuous_only_schema = []) /\
  (categorical_feature_names continuous_only_schema = [] ->
     (forall normalized,
        get_minx_maxx continuous_only_schema normalized
        = Raise (AttributeError "encoded_feature_names")) /\
     get_data_params continuous_only_schema = Raise (AttributeError "encoded_feature_names") /\
     (forall features_to_vary,
        get_indexes_of_features_to_vary continuous_only_schema features_to_vary
        = Raise (AttributeError "encoded_feature_names")) /\
     (forall st a,
        get_decoded_data continuous_only_schema st (Array a)
        = Raise (AttributeError "encoded_feature_names"))).
Proof.
  split; [reflexivity|].
  apply (continuous_only_schema_has_no_encoded_space continuous_only_params).
  reflexivity.
Defined.

(** ** Dictionaries *)

Lemma dict_get_set {V : Type} (k k' : string) (v : V) (d : dict V) :
  dict_get k (dict_set k' v d) = if String.eqb k k' then Some v else dict_get k d.
Proof.
  induction d as [|[k0 v0] d IH]; simpl.
  - reflexivity.
  - destruct (String.eqb k' k0) eqn:E0; simpl.
    + apply String.eqb_eq in E0. subst k0.
      destruct (String.eqb k k'); reflexivity.
    + destruct (String.eqb k k0) eqn:E1.
      * apply String.eqb_eq in E1. subst k0.
        rewrite String.eqb_sym, E0. reflexivity.
      * exact IH.
Qed.

Lemma dict_get_set_eq {V : Type} (k : string) (v : V) (d : dict V) :
  dict_get k (dict_set k v d) = Some v.
Proof. rewrite dict_get_set, String.eqb_refl. reflexivity. Qed.

Lemma dict_get_set_ne {V : Type} (k k' : string) (v : V) (d : dict V) :
  k <> k' -> dict_get k (dict_set k' v d) = dict_get k d.
Proof.
  intros Hne. rewrite dict_get_set.
  destruct (String.eqb k k') eqn:E; [|reflexivity].
  apply String.eqb_eq in E. contradiction.
Qed.

(** ** The classification loop *)

Lemma classify_feature_Ok (d : dict pyval) (st st' : classified) (k : string) :
  classify_feature d st k = Ok st' ->
  exists v, dict_get k d = Some v /\
    if is_continuous d k then
      st' = {| cl_continuous := cl_continuous st ++ [k];
               cl_range := dict_set k v (cl_range st);
               cl_categorical := cl_categorical st;
               cl_levels := cl_levels st |}
    else
      st' = {| cl_continuous := cl_continuous st;
               cl_range := cl_range st;
               cl_categorical := cl_categorical st ++ [k];
               cl_levels := dict_set k v (cl_levels st) |}.
Proof.
  unfold classify_feature, is_continuous, dict_getitem. intros H.
  destruct (dict_get k d) as [v|]; [|discriminate]. simpl in H.
  exists v. split; [reflexivity|].
  destruct (getitem v 0) as [a| |]; simpl in H; try discriminate.
  destruct (is_int a); injection H as <-; reflexivity.
Qed.

(** The loop splits the keys, in declaration order, and copies each declared
    value under its key. *)
Lemma classify_loop (d : dict pyval) (ks : list string) (st c : classified) :
  for_each (classify_feature d) ks st = Ok c ->
  cl_continuous c = cl_continuous st ++ filter (fun k => is_continuous d k = true) ks /\
  cl_categorical c = cl_categorical st ++ filter (fun k => is_continuous d k = false) ks /\
  (forall k,
     dict_get k (cl_levels st) = dict_get k d \/ (k ∈ ks /\ is_continuous d k = false) ->
     dict_get k (cl_levels c) = dict_get k d) /\
  (forall k,
     dict_get k (cl_range st) = dict_get k d \/ (k ∈ ks /\ is_continuous d k = true) ->
     dict_get k (cl_range c) = dict_get k d).
Proof.
  revert st. induction ks as [|x ks IH]; intros st H; simpl in H.
  - injection H as <-. rewrite !filter_nil, !app_nil_r.
    repeat split; try reflexivity.
    + intros k [Hk|[Hk _]]; [exact Hk|]. inversion Hk.
    + intros k [Hk|[Hk _]]; [exact Hk|]. inversion Hk.
  - bind_ok H st' Hst'. apply classify_feature_Ok in Hst'.
    destruct Hst' as (v & Hv & Hst'). apply IH in H.
    destruct H as (Hc & Ha & Hl & Hr).
    destruct (is_continuous d x) eqn:Hx; subst st'; simpl in *.
    + rewrite filter_cons_True by exact Hx.
      rewrite filter_cons_False by (rewrite Hx; discriminate).
      rewrite <- app_assoc in Hc. repeat split; try assumption.
      * intros k [Hk|[Hk Hcat]]; apply Hl; [left; exact Hk|].
        apply elem_of_cons in Hk. destruct Hk as [->|Hk]; [congruence|].
        right. auto.
      * intros k Hk. apply Hr.
        destruct (String.eqb k x) eqn:E.
        -- apply String.eqb_eq in E. subst k. left.
           rewrite dict_get_set_eq. symmetry. exact Hv.
        -- assert (k <> x) by (intros ->; rewrite String.eqb_refl in E; discriminate).
           rewrite dict_get_set_ne by assumption.
           destruct Hk as [Hk|[Hk Hcont]]; [left; exact Hk|].
           apply elem_of_cons in Hk. destruct Hk as [->|Hk]; [contradiction|].
           right. auto.
    + rewrite filter_cons_False by (rewrite Hx; discriminate).
      rewrite filter_cons_True by exact Hx.
      rewrite <- app_assoc in Ha. repeat split; try assumption.
      * intros k Hk. apply Hl.
        destruct (String.eqb k x) eqn:E.
        -- apply String.eqb_eq in E. subst k. left.
           rewrite dict_get_set_eq. symmetry. exact Hv.
        -- assert (k <> x) by (intros ->; rewrite String.eqb_refl in E; discriminate).
           rewrite dict_get_set_ne by assumption.
           destruct Hk as [Hk|[Hk Hcat]]; [left; exact Hk|].
           apply elem_of_cons in Hk. destruct Hk as [->|Hk]; [contradiction|].
           right. auto.
      * intros k [Hk|[Hk Hcont]]; apply Hr; [left; exact Hk|].
        apply elem_of_cons in Hk. destruct Hk as [->|Hk]; [congruence|].
        right. auto.
Qed.

(** ** Sorting *)

Lemma ltb_leb (x y : string) : String.ltb x y = true -> String.le x y.
Proof.
  unfold String.le, String.ltb, String.leb.
  destruct (String.compare x y); simpl; intros; try discriminate; exact I.
Qed.

Lemma not_ltb_leb (x y : string) : String.ltb y x = false -> String.le x y.
Proof.
  unfold String.le, String.ltb, String.leb. rewrite (String.compare_antisym y x).
  destruct (String.compare x y); simpl; intros; try discriminate; exact I.
Qed.

(** Inserting a string into a sorted list of strings keeps it sorted. *)
Lemma sorted_insert_strings (x : string) (ls : list string) :
  Sorted String.le ls ->
  exists ls',
    sorted_insert (AStr x) (map AStr ls) = Ok (map AStr ls') /\
    Sorted String.le ls' /\
    ls' ≡ₚ x :: ls /\
    (forall z, String.le z x -> HdRel String.le z ls -> HdRel String.le z ls').
Proof.
  induction ls as [|y ls IH]; intros Hs; simpl.
  - exists [x]. repeat split; auto.
  - destruct (String.ltb y x) eqn:E; simpl.
    + apply Sorted_inv in Hs. destruct Hs as [Hs Hhd].
      destruct (IH Hs) as (ls' & Hins & Hs' & Hp & Hh).
      rewrite Hins. simpl. exists (y :: ls'). repeat split.
      * constructor; [exact Hs'|]. apply Hh; [apply ltb_leb; exact E|exact Hhd].
      * rewrite Hp. apply Permutation_swap.
      * intros z _ Hz. apply HdRel_inv in Hz. constructor. exact Hz.
    + exists (x :: y :: ls). repeat split.
      * constructor; [exact Hs|]. constructor. apply not_ltb_leb. exact E.
      * reflexivity.
      * intros z Hz _. constructor. exact Hz.
Qed.

(** On strings, [sorted] returns the sorted permutation. *)
Lemma sorted_strings (ls : list string) :
  sorted (map AStr ls) = Ok (map AStr (merge_sort String.le ls)).
Proof.
  assert (H : exists ls', sorted (map AStr ls) = Ok (map AStr ls') /\
                          Sorted String.le ls' /\ ls' ≡ₚ ls).
  { induction ls as [|x ls IH]; simpl.
    - exists []. repeat split; constructor.
    - destruct IH as (ls0 & Hs & Hsorted & Hp). rewrite Hs. simpl.
      destruct (sorted_insert_strings x ls0 Hsorted) as (ls' & Hins & Hs' & Hp' & _).
      exists ls'. repeat split; [exact Hins|exact Hs'|].
      rewrite Hp', Hp. reflexivity. }
  destruct H as (ls' & Hs & Hsorted & Hp). rewrite Hs. do 2 f_equal.
  apply (Sorted_unique String.le); [exact Hsorted|apply Sorted_merge_sort; apply _|].
  rewrite Hp. symmetry. apply merge_sort_Permutation.
Qed.

Lemma sorted_insert_Permutation (x : atom) (l l' : list atom) :
  sorted_insert x l = Ok l' -> l' ≡ₚ x :: l.
Proof.
  revert l'. induction l as [|y l IH]; intros l' H; simpl in H.
  - injection H as <-. reflexivity.
  - bind_ok H b Hb. destruct b.
    + bind_ok H l'' Hl''. injection H as <-. rewrite (IH _ Hl''). apply Permutation_swap.
    + injection H as <-. reflexivity.
Qed.

Lemma sorted_Permutation (l l' : list atom) : sorted l = Ok l' -> l' ≡ₚ l.
Proof.
  revert l'. induction l as [|x l IH]; intros l' H; simpl in H.
  - injection H as <-. reflexivity.
  - bind_ok H s Hs. apply sorted_insert_Permutation in H. rewrite H, (IH _ Hs). reflexivity.
Qed.

(** A list of strings is the image of its strings. *)
Lemma strings_of_map (ls : list string) : strings_of (map AStr ls) = ls.
Proof.
  induction ls as [|x ls IH]; [reflexivity|].
  change (x :: strings_of (map AStr ls) = x :: ls). f_equal. exact IH.
Qed.

Lemma strings_of_Permutation (l l' : list atom) :
  l ≡ₚ l' -> (exists ls, l = map AStr ls) -> l' = map AStr (strings_of l').
Proof.
  intros Hp [ls ->].
  assert (Hall : Forall (fun a => exists s, a = AStr s) l').
  { rewrite <- Hp. apply Forall_forall. intros a Ha.
    apply list_elem_of_In, in_map_iff in Ha. destruct Ha as (s & <- & _). eauto. }
  clear Hp. induction Hall as [|a l' [s ->] _ IH]; [reflexivity|].
  change (AStr s :: l' = AStr s :: map AStr (strings_of l')). f_equal. exact IH.
Qed.

(** ** The layout of the encoded space *)

Lemma append_assoc (s1 s2 s3 : string) : (s1 +:+ s2) +:+ s3 = s1 +:+ s2 +:+ s3.
Proof.
  induction s1 as [|a s1 IH]; [reflexivity|].
  change (String a ((s1 +:+ s2) +:+ s3) = String a (s1 +:+ s2 +:+ s3)).
  f_equal. exact IH.
Qed.

(** The inner loop appends one column per category, and every category is a
    string. *)
Lemma append_category_loop (f : string) (s : list atom) (names names' : list string) :
  for_each (append_category f) s names = Ok names' ->
  s = map AStr (strings_of s) /\ names' = names ++ map (encoded_name f) (strings_of s).
Proof.
  revert names. induction s as [|a s IH]; intros names H; simpl in H.
  - injection H as <-. rewrite app_nil_r. auto.
  - bind_ok H names1 H1. unfold append_category in H1.
    bind_ok H1 name Hname. injection H1 as <-.
    destruct a as [| | |t]; try discriminate. injection Hname as <-.
    destruct (IH _ H) as [Hs ->].
    change (strings_of (AStr t :: s)) with (t :: strings_of s).
    split.
    + simpl. f_equal. exact Hs.
    + rewrite <- app_assoc. simpl. unfold encoded_name at 2.
      rewrite append_assoc. reflexivity.
Qed.

Lemma iterate_levels_of (v : pyval) (ls : list string) :
  iterate v = Ok (map AStr ls) -> levels_of v = ls.
Proof.
  destruct v as [[| | |s]|l]; simpl; try discriminate.
  - intros H. injection H as H. revert ls H.
    induction (chars s) as [|c cs IH]; intros [|x ls] H; simpl in H; try discriminate.
    + reflexivity.
    + injection H as -> H. f_equal. apply IH. exact H.
  - intros H. injection H as ->. apply strings_of_map.
Qed.

(** One step of the outer loop appends the columns of one feature. *)
Lemma append_levels_Ok (levels : dict pyval) (names names' : list string) (c : string) :
  append_levels levels names c = Ok names' ->
  exists v,
    dict_get c levels = Some v /\
    iterate v = Ok (map AStr (levels_of v)) /\
    names' = names ++ map (encoded_name c) (merge_sort String.le (levels_of v)).
Proof.
  unfold append_levels, dict_getitem. intros H.
  bind_ok H v Hv. destruct (dict_get c levels) as [v'|]; [|discriminate].
  injection Hv as ->. bind_ok H l Hl. bind_ok H s Hs.
  apply append_category_loop in H. destruct H as [Hstr ->].
  pose proof (sorted_Permutation _ _ Hs) as Hp.
  assert (Hl' : l = map AStr (strings_of l)).
  { apply (strings_of_Permutation s l Hp). exists (strings_of s). exact Hstr. }
  assert (Hlv : levels_of v = strings_of l).
  { apply iterate_levels_of. rewrite Hl. f_equal. exact Hl'. }
  exists v. split; [reflexivity|]. rewrite Hlv. split.
  - rewrite Hl. f_equal. exact Hl'.
  - rewrite Hl', sorted_strings in Hs. injection Hs as <-.
    rewrite strings_of_map. reflexivity.
Qed.

Lemma append_levels_loop (levels : dict pyval) (cats names names' : list string) :
  for_each (append_levels levels) cats names = Ok names' ->
  Forall (fun c => exists v, dict_get c levels = Some v /\
                             iterate v = Ok (map AStr (levels_of v))) cats /\
  names' = names ++ flat_map (one_hot_columns levels) cats.
Proof.
  revert names. induction cats as [|c cats IH]; intros names H; simpl in H.
  - injection H as <-. rewrite app_nil_r. split; [constructor|reflexivity].
  - bind_ok H names1 H1. apply append_levels_Ok in H1.
    destruct H1 as (v & Hv & Hit & ->). destruct (IH _ H) as [Hall ->].
    split.
    + constructor; [exists v; auto|exact Hall].
    + simpl. rewrite <- app_assoc. do 2 f_equal.
      unfold one_hot_columns, declared_levels. rewrite Hv. reflexivity.
Qed.

Lemma length_flat_map_sum {A B : Type} (f : A -> list B) (l : list A) :
  length (flat_map f l) = sum_list (map (fun x => length (f x)) l).
Proof.
  induction l as [|x l IH]; [reflexivity|].
  simpl. rewrite length_app, IH. reflexivity.
Qed.

Lemma flat_map_ext_Forall {A B : Type} (f g : A -> list B) (l : list A) :
  Forall (fun x => f x = g x) l -> flat_map f l = flat_map g l.
Proof. induction 1 as [|x l Hx _ IH]; [reflexivity|]. simpl. rewrite Hx, IH. reflexivity. Qed.

(** The schema a successful construction yields, in terms of the declared
    mapping. *)
Lemma init_layout (p : params) (s : PrivateData) :
  init p = Ok s ->
  exists d,
    params_features p = Some (ODict d) /\
    feature_names s = dict_keys d /\
    continuous_feature_names s = filter (fun k => is_continuous d k = true) (dict_keys d) /\
    categorical_feature_names s = filter (fun k => is_continuous d k = false) (dict_keys d) /\
    (forall c, c ∈ continuous_feature_names s ->
       dict_get c (permitted_range s) = dict_get c d) /\
    (forall c, c ∈ categorical_feature_names s ->
       dict_get c (categorical_levels s) = dict_get c d) /\
    (categorical_feature_names s <> [] ->
       Forall (fun c => exists v, dict_get c d = Some v /\
                                  iterate v = Ok (map AStr (declared_levels d c)))
         (categorical_feature_names s) /\
       encoded_feature_names s = Some (encoded_layout d)).
Proof.
  intros H. apply init_Ok in H.
  destruct H as (d & o & c & ci & ca & enc & tp & Hf & _ & Hc & _ & _ & Henc & ->).
  simpl. apply classify_loop in Hc. simpl in Hc. destruct Hc as (Hcont & Hcat & Hl & Hr).
  exists d. split; [exact Hf|]. split; [reflexivity|].
  split; [exact Hcont|]. split; [exact Hcat|].
  assert (Hlev : forall k, k ∈ cl_categorical c -> dict_get k (cl_levels c) = dict_get k d).
  { intros k Hk. apply Hl. right. rewrite Hcat in Hk.
    apply list_elem_of_filter in Hk. tauto. }
  split.
  { intros k Hk. apply Hr. right. rewrite Hcont in Hk.
    apply list_elem_of_filter in Hk. tauto. }
  split; [exact Hlev|].
  intros Hne. destruct (Nat.ltb 0 (length (cl_categorical c))) eqn:E.
  2:{ exfalso. apply Hne. destruct (cl_categorical c); [reflexivity|discriminate]. }
  destruct Henc as (names & Hloop & ->).
  apply append_levels_loop in Hloop. destruct Hloop as [Hall ->].
  split.
  - rewrite Forall_forall in Hall |- *. intros k Hk.
    destruct (Hall k Hk) as (v & Hv & Hit). exists v.
    rewrite <- (Hlev k Hk). split; [exact Hv|].
    unfold declared_levels. rewrite <- (Hlev k Hk), Hv. exact Hit.
  - f_equal. unfold encoded_layout. rewrite <- Hcont, <- Hcat. f_equal.
    apply flat_map_ext_Forall. rewrite Forall_forall. intros k Hk.
    unfold one_hot_columns, declared_levels. rewrite (Hlev k Hk). reflexivity.
Qed.

(** C1 (as amended). For every schema constructed from a feature mapping
    that declares at least one categorical feature, [encoded_feature_names]
    lists the continuous feature names in declaration order, then for each
    categorical feature in declaration order its levels sorted
    lexicographically, each as ["<feature>_<level>"]; its length is the number
    of continuous features plus the sum of the numbers of levels of the
    categorical features. *)
Theorem encoded_feature_names_layout (p : params) (s : PrivateData) :
  init p = Ok s ->
  categorical_feature_names s <> [] ->
  exists d names,
    params_features p = Some (ODict d) /\
    continuous_feature_names s = filter (fun k => is_continuous d k = true) (dict_keys d) /\
    categorical_feature_names s = filter (fun k => is_continuous d k = false) (dict_keys d) /\
    Forall (fun c => exists v, dict_get c d = Some v /\
                               dict_get c (categorical_levels s) = Some v /\
                               iterate v = Ok (map AStr (declared_levels d c)))
      (categorical_feature_names s) /\
    encoded_feature_names s = Some names /\
    names = encoded_layout d /\
    names = continuous_feature_names s ++
            flat_map (fun c => map (encoded_name c)
                                 (merge_sort String.le (declared_levels d c)))
              (categorical_feature_names s) /\
    length names =
      (length (continuous_feature_names s) +
       sum_list (map (fun c => length (declared_levels d c)) (categorical_feature_names s)))%nat.
Proof.
  intros H Hne. destruct (init_layout p s H) as (d & Hf & _ & Hcont & Hcat & _ & Hlev & Henc).
  destruct (Henc Hne) as [Hall Hnames].
  exists d, (encoded_layout d). split; [exact Hf|]. split; [exact Hcont|].
  split; [exact Hcat|]. split.
  { rewrite Forall_forall in Hall |- *. intros c Hc.
    destruct (Hall c Hc) as (v & Hv & Hit). exists v.
    rewrite (Hlev c Hc). auto. }
  split; [exact Hnames|]. split; [reflexivity|].
  assert (Heq : encoded_layout d =
                continuous_feature_names s ++
                flat_map (fun c => map (encoded_name c)
                                     (merge_sort String.le (declared_levels d c)))
                  (categorical_feature_names s)).
  { unfold encoded_layout. rewrite <- Hcont, <- Hcat. reflexivity. }
  split; [exact Heq|].
  rewrite Heq, length_app, length_flat_map_sum. f_equal. f_equal.
  apply map_ext. intros c. rewrite length_map.
  apply Permutation_length, merge_sort_Permutation.
Qed.

Lemma encoded_feature_names_layout_witness :
  init example_params = Ok example_schema /\
  categorical_feature_names example_schema <> [] /\
  exists d names,
    params_features example_params = Some (ODict d) /\
    continuous_feature_names example_schema
      = filter (fun k => is_continuous d k = true) (dict_keys d) /\
    categorical_feature_names example_schema
      = filter (fun k => is_continuous d k = false) (dict_keys d) /\
    Forall (fun c => exists v, dict_get c d = Some v /\
                               dict_get c (categorical_levels example_schema) = Some v /\
                               iterate v = Ok (map AStr (declared_levels d c)))
      (categorical_feature_names example_schema) /\
    encoded_feature_names example_schema = Some names /\
    names = encoded_layout d /\
    names = continuous_feature_names example_schema ++
            flat_map (fun c => map (encoded_name c)
                                 (merge_sort String.le (declared_levels d c)))
              (categorical_feature_names example_schema) /\
    length names =
      (length (continuous_feature_names example_schema) +
       sum_list (map (fun c => length (declared_levels d c))
                   (categorical_feature_names example_schema)))%nat.
Proof.
  split; [reflexivity|]. split; [discriminate|].
  apply (encoded_feature_names_layout example_params example_schema).
  - reflexivity.
  - discriminate.
Defined.

(** C1 as stated fails on a schema without categorical features: the
    attribute is never assigned, while the stated layout is the list of the
    continuous features. *)
Lemma encoded_feature_names_layout_counterexample :
  init continuous_only_params = Ok continuous_only_schema /\
  (exists d, params_features continuous_only_params = Some (ODict d) /\
             encoded_layout d = ["age"; "hours_per_week"] /\
             encoded_feature_names continuous_only_schema <> Some (encoded_layout d)) /\
  encoded_feature_names continuous_only_schema = None.
Proof.
  split; [reflexivity|]. split; [|reflexivity].
  eexists. split; [reflexivity|]. split; [reflexivity|]. discriminate.
Qed.

(** ** Default types *)

Lemma init_type_and_precision (p : params) (s : PrivateData) :
  init p = Ok s ->
  exists n,
    len (supplied_type_and_precision p) = Ok n /\
    if Nat.eqb n 0 then
      for_each default_type (continuous_feature_names s) (supplied_type_and_precision p)
      = Ok (type_and_precision s)
    else type_and_precision s = supplied_type_and_precision p.
Proof.
  unfold init, supplied_type_and_precision. intros H.
  bind_ok H f Hf. bind_ok H d Hd. bind_ok H o Ho. bind_ok H name Hname.
  bind_ok H c Hc. bind_ok H cont_ix Hcont. bind_ok H cat_ix Hcat.
  bind_ok H enc Henc. bind_ok H n Hn. bind_ok H tp Htp.
  injection H as <-. simpl. exists n. split; [exact Hn|].
  destruct (Nat.eqb n 0); [exact Htp|]. injection Htp as <-. reflexivity.
Qed.

Lemma default_type_keeps (l : list string) (tp0 tp : pyobj) (f : string) :
  for_each default_type l tp0 = Ok tp ->
  getitem_key tp0 f = Ok (VAtom (AStr "int")) ->
  getitem_key tp f = Ok (VAtom (AStr "int")).
Proof.
  revert tp0. induction l as [|x l IH]; intros tp0 H Hf; simpl in H.
  - injection H as <-. exact Hf.
  - bind_ok H tp1 H1. apply (IH tp1 H).
    destruct tp0 as [v|d]; [discriminate|]. injection H1 as <-.
    simpl in *. unfold dict_getitem in *. rewrite dict_get_set.
    destruct (String.eqb f x); [reflexivity|exact Hf].
Qed.

Lemma default_type_loop (l : list string) (tp0 tp : pyobj) (f : string) :
  for_each default_type l tp0 = Ok tp ->
  f ∈ l ->
  getitem_key tp f = Ok (VAtom (AStr "int")).
Proof.
  revert tp0. induction l as [|x l IH]; intros tp0 H Hf; simpl in H.
  - inversion Hf.
  - bind_ok H tp1 H1. apply elem_of_cons in Hf. destruct Hf as [->|Hf].
    + apply (default_type_keeps l tp1 tp x H).
      destruct tp0 as [v|d]; [discriminate|]. injection H1 as <-.
      simpl. unfold dict_getitem. rewrite dict_get_set_eq. reflexivity.
    + exact (IH tp1 H Hf).
Qed.

(** C8 (as amended). After construction, [type_and_precision] maps every
    continuous feature to ["int"] when the optional argument is absent or
    empty; an argument that is not empty is kept as supplied. *)
Theorem type_and_precision_defaults (p : params) (s : PrivateData) :
  init p = Ok s ->
  (len (supplied_type_and_precision p) = Ok 0%nat ->
     forall f, f ∈ continuous_feature_names s ->
       getitem_key (type_and_precision s) f = Ok (VAtom (AStr "int"))) /\
  (forall n, len (supplied_type_and_precision p) = Ok (S n) ->
     type_and_precision s = supplied_type_and_precision p).
Proof.
  intros H. destruct (init_type_and_precision p s H) as (n & Hn & Htp). split.
  - intros H0 f Hf. rewrite H0 in Hn. injection Hn as <-. simpl in Htp.
    exact (default_type_loop _ _ _ f Htp Hf).
  - intros m Hm. rewrite Hm in Hn. injection Hn as <-. exact Htp.
Qed.

Lemma type_and_precision_defaults_witness :
  init continuous_only_params = Ok continuous_only_schema /\
  (len (supplied_type_and_precision continuous_only_params) = Ok 0%nat ->
     forall f, f ∈ continuous_feature_names continuous_only_schema ->
       getitem_key (type_and_precision continuous_only_schema) f
       = Ok (VAtom (AStr "int"))) /\
  (forall n, len (supplied_type_and_precision continuous_only_params) = Ok (S n) ->
     type_and_precision continuous_only_schema
     = supplied_type_and_precision continuous_only_params).
Proof.
  split; [reflexivity|].
  apply (type_and_precision_defaults continuous_only_params). reflexivity.
Defined.

(** C8 as stated fails when the argument covers only some of the continuous
    features: the others get no entry. *)
Lemma type_and_precision_defaults_counterexample :
  init partial_type_params = Ok partial_type_schema /\
  continuous_feature_names partial_type_schema = ["age"; "hours_per_week"] /\
  type_and_precision partial_type_schema
    = ODict [("hours_per_week", VList [AStr "float"; AInt 1])] /\
  getitem_key (type_and_precision partial_type_schema) "age" = Raise KeyError.
Proof. repeat split. Qed.

(** ** Decimal precisions *)

Lemma set_precision_Ok (s : PrivateData) (tp : dict pyval) (done rest : list atom)
    (f : string) (k : atom) :
  type_and_precision s = ODict tp ->
  (exists v, dict_get f tp = Some v /\ precision_of v = Some k) ->
  set_precision s (done ++ AInt 0 :: rest) (length done, f) = Ok ((done ++ [k]) ++ rest).
Proof.
  intros Htp (v & Hv & Hk). unfold set_precision. rewrite Htp. simpl.
  unfold dict_getitem. rewrite Hv. simpl.
  assert (Hset : forall x, list_setitem (done ++ AInt 0 :: rest) (length done) x
                           = Ok ((done ++ [x]) ++ rest)).
  { intros x. unfold list_setitem.
    assert (Hlt : Nat.ltb (length done) (length (done ++ AInt 0 :: rest)) = true).
    { apply Nat.ltb_lt. rewrite length_app. simpl. lia. }
    rewrite Hlt. f_equal. rewrite insert_app_r_alt by lia.
    rewrite Nat.sub_diag. simpl. rewrite <- app_assoc. reflexivity. }
  destruct v as [[| | |t]|l]; simpl in Hk; try discriminate.
  - unfold eq_str. destruct (String.eqb t "int"); [|discriminate].
    injection Hk as <-. apply Hset.
  - destruct l as [|a [|k' l]]; try discriminate. injection Hk as ->. simpl. apply Hset.
Qed.

Lemma set_precision_loop (s : PrivateData) (tp : dict pyval) (fs : list string) :
  type_and_precision s = ODict tp ->
  forall (ks done : list atom) (m : nat),
    Forall2 (fun f k => exists v, dict_get f tp = Some v /\ precision_of v = Some k) fs ks ->
    length fs <= m ->
    for_each (set_precision s) (combine (seq (length done) (length fs)) fs)
      (done ++ repeat (AInt 0) m)
    = Ok (done ++ ks ++ repeat (AInt 0) (m - length fs)).
Proof.
  intros Htp. induction fs as [|f fs IH]; intros ks done m Hall Hm.
  - inversion Hall. subst. simpl. rewrite Nat.sub_0_r. reflexivity.
  - inversion Hall as [|f' k fs' ks' Hk Hall']. subst. simpl in Hm.
    destruct m as [|m]; [lia|].
    cbn [length seq combine repeat for_each].
    rewrite (set_precision_Ok s tp done (repeat (AInt 0) m) f k Htp Hk).
    cbn [mbind outcome_mbind outcome_bind].
    specialize (IH ks' (done ++ [k]) m Hall' ltac:(lia)).
    rewrite length_app in IH. cbn [length] in IH. rewrite Nat.add_1_r in IH.
    rewrite IH. rewrite <- app_assoc. reflexivity.
Qed.




(** ** Operations that stop at an unbound name *)

Lemma get_indexes_of_features_to_vary_all (s : PrivateData) (names : list string) :
  encoded_feature_names s = Some names ->
  get_indexes_of_features_to_vary s (VAtom (AStr "all")) = Ok (seq 0 (length names)).
Proof. intros H. unfold get_indexes_of_features_to_vary. simpl. rewrite H. reflexivity. Qed.

Lemma get_indexes_of_features_to_vary_other (s : PrivateData) (name : string)
    (names : list string) (v : pyval) :
  encoded_feature_names s = Some (name :: names) ->
  eq_str v "all" = false ->
  get_indexes_of_features_to_vary s v = Raise (NameError "feature_list").
Proof.
  intros H Hv. unfold get_indexes_of_features_to_vary. rewrite Hv, H. reflexivity.
Qed.

(** C4. With ["all"] the method returns [range(0, len(encoded_feature_names))];
    with a list of feature names, known ([color]) or unknown ([zip]), it
    raises [NameError]: the filter reads [feature_list], a name that nothing
    binds, instead of its argument.  So it does on every schema with an
    encoded space. *)
Theorem get_indexes_of_features_to_vary_unbound_name :
  init example_params = Ok example_schema /\
  get_indexes_of_features_to_vary example_schema (VAtom (AStr "all")) = Ok [0; 1; 2; 3] /\
  get_indexes_of_features_to_vary example_schema (VList [AStr "color"])
    = Raise (NameError "feature_list") /\
  get_indexes_of_features_to_vary example_schema (VList [AStr "zip"])
    = Raise (NameError "feature_list") /\
  (forall s name names v,
     encoded_feature_names s = Some (name :: names) ->
     eq_str v "all" = false ->
     get_indexes_of_features_to_vary s v = Raise (NameError "feature_list")).
Proof.
  repeat split. exact get_indexes_of_features_to_vary_other.
Qed.

Lemma get_minx_maxx_normalized (s : PrivateData) (names : list string) :
  encoded_feature_names s = Some names ->
  get_minx_maxx s true = Ok (row_of 0 (length names), row_of 1 (length names)).
Proof. intros H. unfold get_minx_maxx. rewrite H. reflexivity. Qed.

Lemma get_minx_maxx_de_normalized (s : PrivateData) (names : list string) :
  encoded_feature_names s = Some names ->
  get_minx_maxx s false = Raise (NameError "feature_name").
Proof. intros H. unfold get_minx_maxx. rewrite H. reflexivity. Qed.

(** C5. With [normalized=True] the method returns a row of zeros and a row of
    ones, as long as the encoded space; with [normalized=False] it raises
    [NameError] instead of returning the permitted ranges: the assignment
    reads [feature_name] and [idx], names that nothing binds.  So it does on
    every schema with an encoded space. *)
Theorem get_minx_maxx_unbound_name :
  init example_params = Ok example_schema /\
  get_minx_maxx example_schema true
    = Ok ({| ncols := 4; rows := [[0; 0; 0; 0]%Q] |}, {| ncols := 4; rows := [[1; 1; 1; 1]%Q] |}) /\
  get_minx_maxx example_schema false = Raise (NameError "feature_name") /\
  (forall s names,
     encoded_feature_names s = Some names ->
     get_minx_maxx s false = Raise (NameError "feature_name")).
Proof.
  repeat split. exact get_minx_maxx_de_normalized.
Qed.

(** ** Index groups of the categorical features *)

(** C6. The group of a categorical feature holds every encoded column whose
    name starts with the feature's name: the group of [education] also holds
    position 0, the continuous feature [education_num]. *)
Theorem get_data_params_prefix_collision :
  init education_params = Ok education_schema /\
  encoded_feature_names education_schema
    = Some ["education_num"; "education_Bachelors"; "education_HS-grad"] /\
  exists s',
    get_data_params education_schema
    = Ok ({| dp_minx := row_of 0 3; dp_maxx := row_of 1 3;
             dp_continuous := [0]; dp_categorical := [[0; 1; 2]] |}, s') /\
    encoded_continuous_feature_indexes s' = Some [0] /\
    encoded_categorical_feature_indexes s' = Some [[0; 1; 2]].
Proof.
  split; [reflexivity|]. split; [reflexivity|]. eexists. repeat split.
Qed.

(** ** Normalisation *)

Lemma atom_sub_num (a b : atom) (x y : Q) :
  num_of a = Some x -> num_of b = Some y ->
  exists d q, atom_sub b a = Ok d /\ num_of d = Some q /\ (q == y - x)%Q.
Proof.
  destruct a as [|x'|x'|]; try discriminate; destruct b as [|y'|y'|]; try discriminate;
    simpl; intros Hx Hy; injection Hx as <-; injection Hy as <-;
    eexists; eexists; (split; [reflexivity|]); (split; [reflexivity|]);
    try reflexivity.
  unfold Z.sub. rewrite inject_Z_plus, inject_Z_opp. reflexivity.
Qed.

Lemma range_of_Some (s : PrivateData) (c : string) (lo hi : Q) :
  range_of s c = Some (lo, hi) ->
  exists v a b,
    dict_getitem c (permitted_range s) = Ok v /\
    getitem v 0 = Ok a /\ getitem v 1 = Ok b /\
    num_of a = Some lo /\ num_of b = Some hi.
Proof.
  unfold range_of, dict_getitem.
  destruct (dict_get c (permitted_range s)) as [v|]; [|discriminate].
  destruct (getitem v 0) as [a| |] eqn:H0; try discriminate.
  destruct (getitem v 1) as [b| |] eqn:H1; try discriminate.
  destruct (num_of a) as [x|] eqn:Ha; try discriminate.
  destruct (num_of b) as [y|] eqn:Hb; try discriminate.
  intros H. injection H as <- <-. exists v, a, b. repeat split; assumption.
Qed.

Lemma deref_old (st : store) (g : frame) (df : ref) (f : frame) :
  st !! df = Some f -> deref (st ++ [g]) df = Ok f.
Proof. intros H. unfold deref. rewrite (lookup_app_l_Some _ _ _ _ H). reflexivity. Qed.

Lemma frame_setitem_new (st : store) (g : frame) (c : string) (col : column) :
  frame_setitem (st ++ [g]) (length st) c col = Ok (st ++ [frame_set c col g]).
Proof.
  unfold frame_setitem, deref.
  rewrite lookup_app_r by lia. rewrite Nat.sub_diag. simpl.
  rewrite insert_app_r_alt by lia. rewrite Nat.sub_diag. reflexivity.
Qed.



Lemma dict_get_Some_keys {V : Type} (k : string) (v : V) (d : dict V) :
  dict_get k d = Some v -> k ∈ dict_keys d.
Proof.
  induction d as [|[k0 v0] d IH]; simpl; [discriminate|].
  destruct (String.eqb k k0) eqn:E.
  - apply String.eqb_eq in E. subst. intros _. left.
  - intros H. right. exact (IH H).
Qed.

Lemma dict_set_keys {V : Type} (k : string) (v : V) (d : dict V) :
  k ∈ dict_keys d -> dict_keys (dict_set k v d) = dict_keys d.
Proof.
  induction d as [|[k0 v0] d IH]; simpl; intros H.
  - inversion H.
  - destruct (String.eqb k k0) eqn:E; [reflexivity|]. simpl. f_equal. apply IH.
    apply elem_of_cons in H. destruct H as [->|H]; [|exact H].
    rewrite String.eqb_refl in E. discriminate.
Qed.


(** *** Machine integers *)

Lemma wrap64_in_range (z : Z) : in_int64 z = true -> wrap64 z = z.
Proof.
  unfold in_int64, wrap64, int64_min, int64_max. intros H.
  apply andb_true_iff in H. destruct H as [H1 H2].
  apply Z.leb_le in H1. apply Z.leb_le in H2.
  change (2 ^ 64)%Z with 18446744073709551616%Z.
  change (2 ^ 63)%Z with 9223372036854775808%Z in *.
  rewrite Z.mod_small by lia. lia.
Qed.

Lemma within_int64_inject (z : Z) : within_int64 (inject_Z z) -> in_int64 z = true.
Proof.
  unfold within_int64, in_int64. intros [H1 H2].
  rewrite <- Zle_Qle in H1. rewrite <- Zle_Qle in H2.
  apply andb_true_iff. split; apply Z.leb_le; assumption.
Qed.

Lemma within_int64_Qeq (x y : Q) : (x == y)%Q -> within_int64 x -> within_int64 y.
Proof. unfold within_int64. intros E [H1 H2]. rewrite <- E. split; assumption. Qed.

Lemma inject_Z_sub (x y : Z) : (inject_Z (x - y) == inject_Z x - inject_Z y)%Q.
Proof. unfold Z.sub. rewrite inject_Z_plus, inject_Z_opp. reflexivity. Qed.

















Lemma range_width_nonzero (lo hi q : Q) :
  (q == hi - lo)%Q -> ~ (hi == lo)%Q -> ~ (q == 0)%Q.
Proof.
  intros Hq Hne H0. apply Hne. rewrite Hq in H0.
  assert (Hh : (hi == (hi - lo) + lo)%Q) by ring. rewrite Hh, H0. ring.
Qed.












(** ** Round trip *)






(** * Further properties of the code *)

(** ** De-normalisation *)


(** Without the proviso the product wraps around: with the range
    [0, 2^62] the machine integer 2 becomes [-2^63]. *)
Example de_normalize_data_wraps :
  range_of count_schema "count" = Some (inject_Z 0, inject_Z (2 ^ 62)) /\
  de_normalize_data count_schema [count_frame] 0
  = Ok (1%nat, [count_frame; [("count", IntCol [- 2 ^ 63]%Z)]]).
Proof. split; [reflexivity|vm_compute; reflexivity]. Qed.


(** ** The feature lists of a schema *)

Lemma list_index_lookup (x : string) (l : list string) (i : nat) :
  list_index x l = Ok i ->
  l !! i = Some x /\ forall j, (j < i)%nat -> l !! j <> Some x.
Proof.
  revert i. induction l as [|y l IH]; intros i H; simpl in H; [discriminate|].
  destruct (String.eqb y x) eqn:E.
  - injection H as <-. apply String.eqb_eq in E. subst y. split; [reflexivity|]. lia.
  - bind_ok H i' Hi'. injection H as <-. destruct (IH i' Hi') as [Hl Hfirst]. split.
    + exact Hl.
    + intros [|j] Hj; simpl.
      * intros Heq. injection Heq as ->. rewrite String.eqb_refl in E. discriminate.
      * apply Hfirst. lia.
Qed.

Lemma comprehension_Forall2 {A B : Type} (f : A -> outcome B) (l : list A) (r : list B) :
  comprehension f l = Ok r -> Forall2 (fun y x => f x = Ok y) r l.
Proof.
  revert r. induction l as [|x l IH]; intros r H; simpl in H.
  - injection H as <-. constructor.
  - bind_ok H y Hy. bind_ok H ys Hys. injection H as <-. constructor; auto.
Qed.

Lemma dict_mem_keys {V : Type} (k : string) (d : dict V) :
  k ∈ dict_keys d -> dict_mem k d = true.
Proof.
  unfold dict_mem. induction d as [|[k0 v0] d IH]; simpl; intros H; [inversion H|].
  destruct (String.eqb k k0) eqn:E; [reflexivity|].
  apply IH. apply elem_of_cons in H. destruct H as [->|H]; [|exact H].
  rewrite String.eqb_refl in E. discriminate.
Qed.

Lemma filter_all {A : Type} (P : A -> Prop) `{forall x, Decision (P x)} (l : list A) :
  Forall P l -> filter P l = l.
Proof.
  induction 1 as [|x l Hx _ IH]; [reflexivity|].
  rewrite filter_cons_True by exact Hx. f_equal. exact IH.
Qed.

(** The index list of a group of declared features holds, for each name, the
    first position of the name among the keys. *)
Lemma indexes_in_keys {V : Type} (d : dict V) (names : list string) (ixs : list nat) :
  (forall name, name ∈ names -> name ∈ dict_keys d) ->
  indexes_in d names = Ok ixs ->
  Forall2 (fun i name => dict_keys d !! i = Some name) ixs names.
Proof.
  intros Hsub H. unfold indexes_in in H. rewrite filter_all in H.
  - apply comprehension_Forall2 in H.
    eapply Forall2_impl; [exact H|]. intros i name Hi.
    exact (proj1 (list_index_lookup _ _ _ Hi)).
  - apply Forall_forall. intros name Hname. apply dict_mem_keys, Hsub, Hname.
Qed.

Lemma filter_split_Permutation (d : dict pyval) (ks : list string) :
  filter (fun k => is_continuous d k = true) ks ++
  filter (fun k => is_continuous d k = false) ks ≡ₚ ks.
Proof.
  induction ks as [|k ks IH]; [reflexivity|].
  destruct (is_continuous d k) eqn:E.
  - rewrite filter_cons_True by exact E.
    rewrite filter_cons_False by (rewrite E; discriminate).
    simpl. constructor. exact IH.
  - rewrite filter_cons_False by (rewrite E; discriminate).
    rewrite filter_cons_True by exact E.
    rewrite <- Permutation_middle. constructor. exact IH.
Qed.

(** After construction, [feature_names] lists the declared features in
    declaration order; the continuous and the categorical names are its two
    complementary sub-lists, in that order too, so together they are a
    rearrangement of [feature_names]; and the two index lists give the
    position in [feature_names] of each name of their group. *)
Theorem init_feature_lists (p : params) (s : PrivateData) :
  init p = Ok s ->
  exists d,
    params_features p = Some (ODict d) /\
    feature_names s = dict_keys d /\
    continuous_feature_names s
      = filter (fun k => is_continuous d k = true) (feature_names s) /\
    categorical_feature_names s
      = filter (fun k => is_continuous d k = false) (feature_names s) /\
    continuous_feature_names s ++ categorical_feature_names s ≡ₚ feature_names s /\
    Forall2 (fun i name => feature_names s !! i = Some name)
      (continuous_feature_indexes s) (continuous_feature_names s) /\
    Forall2 (fun i name => feature_names s !! i = Some name)
      (categorical_feature_indexes s) (categorical_feature_names s).
Proof.
  intros H. pose proof (init_Ok p s H) as Hok.
  destruct Hok as (d & o & c & ci & ca & enc & tp & Hf & _ & Hc & Hci & Hca & _ & Hs).
  apply classify_loop in Hc. simpl in Hc. destruct Hc as (Hcont & Hcat & _ & _).
  subst s. simpl. exists d. split; [exact Hf|]. split; [reflexivity|].
  split; [exact Hcont|]. split; [exact Hcat|].
  split. { rewrite Hcont, Hcat. apply filter_split_Permutation. }
  split.
  - apply indexes_in_keys; [|exact Hci]. intros name Hn. rewrite Hcont in Hn.
    apply list_elem_of_filter in Hn. tauto.
  - apply indexes_in_keys; [|exact Hca]. intros name Hn. rewrite Hcat in Hn.
    apply list_elem_of_filter in Hn. tauto.
Qed.

Lemma init_feature_lists_witness :
  init interleaved_params = Ok interleaved_schema /\
  exists d,
    params_features interleaved_params = Some (ODict d) /\
    feature_names interleaved_schema = dict_keys d /\
    continuous_feature_names interleaved_schema
      = filter (fun k => is_continuous d k = true) (feature_names interleaved_schema) /\
    categorical_feature_names interleaved_schema
      = filter (fun k => is_continuous d k = false) (feature_names interleaved_schema) /\
    continuous_feature_names interleaved_schema ++
      categorical_feature_names interleaved_schema ≡ₚ feature_names interleaved_schema /\
    Forall2 (fun i name => feature_names interleaved_schema !! i = Some name)
      (continuous_feature_indexes interleaved_schema)
      (continuous_feature_names interleaved_schema) /\
    Forall2 (fun i name => feature_names interleaved_schema !! i = Some name)
      (categorical_feature_indexes interleaved_schema)
      (categorical_feature_names interleaved_schema).
Proof.
  split; [reflexivity|].
  apply (init_feature_lists interleaved_params interleaved_schema). reflexivity.
Defined.

(** ** The size of the encoded space *)

(** On every schema built with at least one categorical feature, the
    normalised bounds and the index list of all features span the encoded
    space: [get_minx_maxx(True)] returns one row of zeros and one row of ones,
    and [get_indexes_of_features_to_vary("all")] the positions [0 .. n-1],
    where [n] is the number of continuous features plus the number of declared
    levels of all categorical features. *)
Theorem encoded_space_size (p : params) (s : PrivateData) :
  init p = Ok s ->
  categorical_feature_names s <> [] ->
  exists d n,
    params_features p = Some (ODict d) /\
    n = (length (continuous_feature_names s) +
         sum_list (map (fun c => length (declared_levels d c))
                     (categorical_feature_names s)))%nat /\
    get_minx_maxx s true
      = Ok ({| ncols := n; rows := [repeat 0%Q n] |},
            {| ncols := n; rows := [repeat 1%Q n] |}) /\
    get_indexes_of_features_to_vary s (VAtom (AStr "all")) = Ok (seq 0 n).
Proof.
  intros H Hne.
  destruct (init_layout p s H) as (d & Hf & _ & Hcont & Hcat & _ & _ & Henc).
  destruct (Henc Hne) as [_ Hnames].
  exists d, (length (encoded_layout d)). split; [exact Hf|]. split; [|split].
  - unfold encoded_layout. rewrite <- Hcont, <- Hcat.
    rewrite length_app, length_flat_map_sum. f_equal. f_equal.
    apply map_ext. intros c. unfold one_hot_columns. rewrite length_map.
    apply Permutation_length, merge_sort_Permutation.
  - rewrite (get_minx_maxx_normalized s _ Hnames). reflexivity.
  - exact (get_indexes_of_features_to_vary_all s _ Hnames).
Qed.

Lemma encoded_space_size_witness :
  init example_params = Ok example_schema /\
  categorical_feature_names example_schema <> [] /\
  exists d n,
    params_features example_params = Some (ODict d) /\
    n = (length (continuous_feature_names example_schema) +
         sum_list (map (fun c => length (declared_levels d c))
                     (categorical_feature_names example_schema)))%nat /\
    get_minx_maxx example_schema true
      = Ok ({| ncols := n; rows := [repeat 0%Q n] |},
            {| ncols := n; rows := [repeat 1%Q n] |}) /\
    get_indexes_of_features_to_vary example_schema (VAtom (AStr "all")) = Ok (seq 0 n).
Proof.
  split; [reflexivity|]. split; [discriminate|].
  apply (encoded_space_size example_params example_schema).
  - reflexivity.
  - discriminate.
Defined.

(** ** Tables that lack a continuous column *)

Lemma for_each_app {A S : Type} (body : S -> A -> outcome S) (l1 l2 : list A) (s : S) :
  for_each body (l1 ++ l2) s = for_each body l1 s ≫= for_each body l2.
Proof.
  revert s. induction l1 as [|x l1 IH]; intros s; simpl; [reflexivity|].
  destruct (body s x) as [s'| |]; simpl; [apply IH|reflexivity|reflexivity].
Qed.



(** ** Index groups of the categorical features, without name clashes *)

Lemma prefix_app (c x : string) : String.prefix c (c +:+ x) = true.
Proof.
  induction c as [|a c IH]; [destruct x; reflexivity|].
  change (String a c +:+ x) with (String a (c +:+ x)). simpl.
  destruct (ascii_dec a a) as [_|Hne]; [exact IH|contradiction].
Qed.

Lemma list_index_elem (x : string) (l : list string) :
  x ∈ l -> exists i, list_index x l = Ok i.
Proof.
  induction l as [|y l IH]; intros H; [inversion H|]. simpl.
  destruct (String.eqb y x) eqn:E; [eexists; reflexivity|].
  apply elem_of_cons in H. destruct H as [->|H].
  - rewrite String.eqb_refl in E. discriminate.
  - destruct (IH H) as [i Hi]. rewrite Hi. eexists. reflexivity.
Qed.

Lemma comprehension_total {A B : Type} (f : A -> outcome B) (l : list A) :
  (forall x, x ∈ l -> exists y, f x = Ok y) -> exists r, comprehension f l = Ok r.
Proof.
  induction l as [|x l IH]; intros H; simpl; [eexists; reflexivity|].
  destruct (H x) as [y Hy]; [left|]. rewrite Hy. simpl.
  destruct IH as [r Hr]. { intros z Hz. apply H. right. exact Hz. }
  rewrite Hr. eexists. reflexivity.
Qed.

Lemma filter_none {A : Type} (P : A -> Prop) `{forall x, Decision (P x)} (l : list A) :
  (forall x, x ∈ l -> ~ P x) -> filter P l = [].
Proof.
  induction l as [|x l IH]; intros Hl; [reflexivity|].
  rewrite filter_cons_False by (apply Hl; left).
  apply IH. intros y Hy. apply Hl. right. exact Hy.
Qed.

(** A filter that accepts exactly a segment of a list without repetition
    returns the segment. *)
Lemma filter_segment (P : string -> Prop) `{forall x, Decision (P x)}
    (a g b : list string) :
  NoDup (a ++ g ++ b) ->
  (forall x, x ∈ g -> P x) ->
  (forall x, x ∈ a ++ g ++ b -> P x -> x ∈ g) ->
  filter P (a ++ g ++ b) = g.
Proof.
  intros Hnd Hg Honly.
  apply NoDup_app in Hnd. destruct Hnd as (_ & Hag & Hgb).
  apply NoDup_app in Hgb. destruct Hgb as (_ & Hgb & _).
  rewrite !filter_app.
  rewrite (filter_none P a), (filter_none P b), (filter_all P g).
  - rewrite app_nil_r. reflexivity.
  - apply Forall_forall. exact Hg.
  - intros x Hx HP. apply (Hgb x); [|exact Hx].
    apply Honly; [|exact HP]. rewrite !elem_of_app. auto.
  - intros x Hx HP. apply (Hag x Hx). rewrite elem_of_app. left.
    apply Honly; [|exact HP]. rewrite !elem_of_app. auto.
Qed.

Lemma flat_map_segment {A B : Type} (F : A -> list B) (l : list A) (x : A) :
  x ∈ l -> exists a b, flat_map F l = a ++ F x ++ b.
Proof.
  induction l as [|y l IH]; intros H; [inversion H|].
  apply elem_of_cons in H. destruct H as [->|H].
  - exists [], (flat_map F l). reflexivity.
  - destruct (IH H) as (a & b & Hab). exists (F y ++ a), b.
    simpl. rewrite Hab, <- app_assoc. reflexivity.
Qed.

(** One step of the loop of [get_encoded_categorical_feature_indexes]. *)
Lemma encoded_group_Ok (s : PrivateData) (d : dict pyval) (names : list string)
    (c : string) (a b : list string) :
  encoded_feature_names s = Some names ->
  names = a ++ one_hot_columns d c ++ b ->
  NoDup names ->
  (forall n, n ∈ names -> String.prefix c n = true -> n ∈ one_hot_columns d c) ->
  exists temp,
    Forall2 (fun i n => names !! i = Some n) temp (one_hot_columns d c) /\
    forall cols, encoded_group s cols c = Ok (cols ++ [temp]).
Proof.
  intros Henc Hseg Hnd Honly.
  assert (Hfilter : filter (fun col => String.prefix c col = true) names
                    = one_hot_columns d c).
  { rewrite Hseg. apply filter_segment.
    - rewrite <- Hseg. exact Hnd.
    - intros x Hx. unfold one_hot_columns in Hx.
      apply list_elem_of_In, in_map_iff in Hx. destruct Hx as (l & <- & _).
      apply prefix_app.
    - intros x Hx. apply Honly. rewrite Hseg. exact Hx. }
  destruct (comprehension_total (fun col => list_index col names) (one_hot_columns d c))
    as [temp Htemp].
  { intros x Hx. apply list_index_elem. rewrite Hseg, !elem_of_app. auto. }
  exists temp. split.
  - apply comprehension_Forall2 in Htemp.
    eapply Forall2_impl; [exact Htemp|]. intros i n Hi.
    exact (proj1 (list_index_lookup _ _ _ Hi)).
  - intros cols. unfold encoded_group. rewrite Henc. simpl.
    rewrite Hfilter, Htemp. reflexivity.
Qed.

Lemma encoded_group_loop (s : PrivateData) (P : string -> list nat -> Prop)
    (cats : list string) :
  (forall c, c ∈ cats ->
     exists temp, P c temp /\ forall cols, encoded_group s cols c = Ok (cols ++ [temp])) ->
  forall cols0, exists groups,
    for_each (encoded_group s) cats cols0 = Ok (cols0 ++ groups) /\
    Forall2 P cats groups.
Proof.
  induction cats as [|c cats IH]; intros Hstep cols0.
  - exists []. rewrite app_nil_r. split; [reflexivity|constructor].
  - destruct (Hstep c) as (temp & HP & Hc); [left|].
    destruct (IH (fun c' Hc' => Hstep c' (list_elem_of_further _ _ _ Hc')) (cols0 ++ [temp]))
      as (groups & Hloop & Hall).
    exists (temp :: groups). split.
    + simpl. rewrite Hc. simpl. rewrite Hloop, <- app_assoc. reflexivity.
    + constructor; assumption.
Qed.

Lemma comprehension_length {A B : Type} (f : A -> outcome B) (l : list A) (r : list B) :
  comprehension f l = Ok r -> length r = length l.
Proof. intros H. apply comprehension_Forall2, Forall2_length in H. exact H. Qed.

(** When the encoded names are distinct and only the columns of a categorical
    feature start with its name, [get_data_params] returns the normalised
    bounds, the positions [0 .. k-1] of the [k] continuous features, and for
    each categorical feature, in declaration order, the positions in encoded
    space of its columns, in sorted-level order; it stores the two index tables
    in the object and leaves [encoded_feature_names] as it is. *)
Theorem get_data_params_groups (p : params) (s : PrivateData) (d : dict pyval)
    (names : list string) :
  init p = Ok s ->
  params_features p = Some (ODict d) ->
  encoded_feature_names s = Some names ->
  NoDup names ->
  separable d (categorical_feature_names s) names ->
  exists groups s',
    get_data_params s
    = Ok ({| dp_minx := row_of 0 (length names);
             dp_maxx := row_of 1 (length names);
             dp_continuous := seq 0 (length (continuous_feature_names s));
             dp_categorical := groups |}, s') /\
    Forall2 (fun c group =>
               Forall2 (fun i n => names !! i = Some n) group (one_hot_columns d c))
      (categorical_feature_names s) groups /\
    encoded_continuous_feature_indexes s'
      = Some (seq 0 (length (continuous_feature_names s))) /\
    encoded_categorical_feature_indexes s' = Some groups /\
    encoded_feature_names s' = Some names.
Proof.
  intros H Hf Henc Hnd Hsep.
  assert (Hcats : categorical_feature_names s <> []).
  { intros Hnil. apply (init_encoded_feature_names_None p s H) in Hnil. congruence. }
  destruct (init_layout p s H) as (d' & Hf' & _ & Hcont & Hcat & _ & _ & Hlay).
  rewrite Hf in Hf'. injection Hf' as <-.
  destruct (Hlay Hcats) as [_ Hnames]. rewrite Henc in Hnames. injection Hnames as Hnames.
  assert (Hlen : length (continuous_feature_indexes s)
                 = length (continuous_feature_names s)).
  { destruct (init_Ok p s H) as (d0 & o & c & ci & ca & enc & tp & Hf0 & _ & Hc & Hci & _ & _ & ->).
    simpl. unfold indexes_in in Hci. apply comprehension_length in Hci. rewrite Hci.
    f_equal. apply filter_all. apply Forall_forall. intros k Hk.
    apply classify_loop in Hc. simpl in Hc. destruct Hc as (Hcc & _).
    rewrite Hcc in Hk. apply list_elem_of_filter in Hk. destruct Hk as [_ Hk].
    apply dict_mem_keys. exact Hk. }
  set (s1 := set_encoded_continuous_feature_indexes s
               (seq 0 (length (continuous_feature_indexes s)))).
  destruct (encoded_group_loop s1
              (fun c group => Forall2 (fun i n => names !! i = Some n) group
                                (one_hot_columns d c))
              (categorical_feature_names s)) with (cols0 := @nil (list nat))
    as (groups & Hloop & Hall).
  { intros c Hc.
    destruct (flat_map_segment (one_hot_columns d) (categorical_feature_names s) c Hc)
      as (a & b & Hab).
    apply (encoded_group_Ok s1 d names c (continuous_feature_names s ++ a) b).
    - exact Henc.
    - rewrite Hnames. unfold encoded_layout. rewrite <- Hcont, <- Hcat, Hab.
      rewrite <- app_assoc. reflexivity.
    - exact Hnd.
    - intros n Hn Hp. exact (Hsep c n Hc Hn Hp). }
  exists groups, (set_encoded_categorical_feature_indexes s1 groups). split.
  - unfold get_data_params. rewrite (get_minx_maxx_normalized s names Henc). simpl.
    fold s1. unfold get_encoded_categorical_feature_indexes.
    change (categorical_feature_names s1) with (categorical_feature_names s).
    rewrite Hloop. simpl. rewrite Hlen. reflexivity.
  - split; [exact Hall|]. simpl. rewrite Hlen. auto.
Qed.

Lemma separable_example :
  separable example_features (categorical_feature_names example_schema)
    ["age"; "color_blue"; "color_green"; "color_red"].
Proof.
  intros c n Hc Hn Hp. apply list_elem_of_singleton in Hc. subst c.
  repeat (apply elem_of_cons in Hn; destruct Hn as [->|Hn]);
    [discriminate Hp| | | |inversion Hn].
  - apply list_elem_of_In. vm_compute. auto.
  - apply list_elem_of_In. vm_compute. auto.
  - apply list_elem_of_In. vm_compute. auto.
Qed.

Lemma NoDup_example : NoDup ["age"; "color_blue"; "color_green"; "color_red"].
Proof. apply (bool_decide_unpack _). vm_compute. exact I. Qed.

Lemma get_data_params_groups_witness :
  init example_params = Ok example_schema /\
  exists groups s',
    get_data_params example_schema
    = Ok ({| dp_minx := row_of 0 (length ["age"; "color_blue"; "color_green"; "color_red"]);
             dp_maxx := row_of 1 (length ["age"; "color_blue"; "color_green"; "color_red"]);
             dp_continuous := seq 0 (length (continuous_feature_names example_schema));
             dp_categorical := groups |}, s') /\
    Forall2 (fun c group =>
               Forall2 (fun i n =>
                          ["age"; "color_blue"; "color_green"; "color_red"] !! i = Some n)
                 group (one_hot_columns example_features c))
      (categorical_feature_names example_schema) groups /\
    encoded_continuous_feature_indexes s'
      = Some (seq 0 (length (continuous_feature_names example_schema))) /\
    encoded_categorical_feature_indexes s' = Some groups /\
    encoded_feature_names s' = Some ["age"; "color_blue"; "color_green"; "color_red"].
Proof.
  split; [reflexivity|].
  apply (get_data_params_groups example_params example_schema example_features).
  - reflexivity.
  - reflexivity.
  - reflexivity.
  - exact NoDup_example.
  - exact separable_example.
Defined.

(** ** Decoding one-hot columns *)

Lemma existsb_eqb_elem (name : string) (cols : list string) :
  existsb (String.eqb name) cols = true <-> name ∈ cols.
Proof.
  rewrite existsb_exists. split.
  - intros (x & Hx & E). apply String.eqb_eq in E. subst x. apply list_elem_of_In. exact Hx.
  - intros H. exists name. split; [apply list_elem_of_In; exact H|apply String.eqb_refl].
Qed.

Lemma drop_cols_cons (cols : list string) (name : string) (c : column) (f : frame) :
  drop_cols cols ((name, c) :: f)
  = if existsb (String.eqb name) cols then drop_cols cols f
    else (name, c) :: drop_cols cols f.
Proof.
  unfold drop_cols. destruct (existsb (String.eqb name) cols) eqn:E.
  - apply filter_cons_False. simpl. rewrite E. simpl. auto.
  - apply filter_cons_True. simpl. rewrite E. simpl. auto.
Qed.

Lemma drop_cols_app (cols : list string) (f g : frame) :
  drop_cols cols (f ++ g) = drop_cols cols f ++ drop_cols cols g.
Proof. unfold drop_cols. apply filter_app. Qed.

Lemma drop_cols_none (cols : list string) (f : frame) :
  (forall name, name ∈ columns f -> name ∉ cols) -> drop_cols cols f = f.
Proof.
  induction f as [|[name c] f IH]; intros H; [reflexivity|].
  rewrite drop_cols_cons.
  destruct (existsb (String.eqb name) cols) eqn:E.
  - exfalso. apply existsb_eqb_elem in E. apply (H name); [left|exact E].
  - f_equal. apply IH. intros n Hn. apply H. right. exact Hn.
Qed.

Lemma drop_cols_drop_cols (c1 c2 : list string) (f : frame) :
  drop_cols c2 (drop_cols c1 f) = drop_cols (c1 ++ c2) f.
Proof.
  induction f as [|[name c] f IH]; [reflexivity|].
  rewrite (drop_cols_cons c1), (drop_cols_cons (c1 ++ c2)), existsb_app.
  destruct (existsb (String.eqb name) c1) eqn:E1; simpl; [exact IH|].
  rewrite drop_cols_cons.
  destruct (existsb (String.eqb name) c2); [exact IH|]. f_equal. exact IH.
Qed.

Lemma columns_drop_cols (cols : list string) (f : frame) (name : string) :
  name ∈ columns (drop_cols cols f) <-> name ∈ columns f /\ name ∉ cols.
Proof.
  induction f as [|[n c] f IH].
  - simpl. split; [intros H; inversion H|intros [H _]; inversion H].
  - rewrite drop_cols_cons. destruct (existsb (String.eqb n) cols) eqn:E.
    + rewrite IH. simpl. rewrite elem_of_cons. apply existsb_eqb_elem in E.
      split; [tauto|]. intros [[->|H] Hn]; [contradiction|tauto].
    + simpl. rewrite !elem_of_cons, IH.
      assert (Hn : n ∉ cols).
      { intros Hin. apply existsb_eqb_elem in Hin. congruence. }
      split; [|tauto]. intros [->|[H1 H2]]; tauto.
Qed.

Lemma dict_mem_elem {V : Type} (k : string) (d : dict V) :
  dict_mem k d = true <-> k ∈ dict_keys d.
Proof.
  split; [|apply dict_mem_keys].
  unfold dict_mem. destruct (dict_get k d) as [v|] eqn:E; [|discriminate].
  intros _. exact (dict_get_Some_keys k v d E).
Qed.

Lemma dict_set_fresh {V : Type} (k : string) (v : V) (d : dict V) :
  k ∉ dict_keys d -> dict_set k v d = d ++ [(k, v)].
Proof.
  induction d as [|[k0 v0] d IH]; intros H; [reflexivity|]. simpl.
  destruct (String.eqb k k0) eqn:E.
  - apply String.eqb_eq in E. subst k0. exfalso. apply H. left.
  - f_equal. apply IH. intros Hin. apply H. right. exact Hin.
Qed.

Lemma select_values_numeric (d : frame) (cols : list string) :
  (forall c, c ∈ cols -> exists vs, frame_get c d = Some (NumCol vs)) ->
  select_values d cols = Ok (group_values cols d).
Proof.
  unfold select_values, group_values.
  induction cols as [|c cols IH]; intros H; simpl; [reflexivity|].
  destruct (H c) as [vs Hvs]; [left|]. rewrite Hvs. simpl.
  rewrite IH; [reflexivity|]. intros c' Hc'. apply H. right. exact Hc'.
Qed.

Lemma drop_columns_new (st : store) (g : frame) (cols : list string) :
  (forall c, c ∈ cols -> c ∈ columns g) ->
  drop_columns (st ++ [g]) (length st) cols = Ok (st ++ [drop_cols cols g]).
Proof.
  intros H. unfold drop_columns, deref.
  rewrite lookup_app_r by lia. rewrite Nat.sub_diag.
  cbn [lookup list_lookup mbind outcome_mbind outcome_bind].
  assert (Hall : forallb (fun c => dict_mem c g) cols = true).
  { apply forallb_forall. intros c Hc. apply dict_mem_elem, H, list_elem_of_In, Hc. }
  rewrite Hall. rewrite (insert_app_r_alt st [g] (length st)) by lia.
  rewrite Nat.sub_diag. reflexivity.
Qed.

(** One step of [from_dummies]: the labels of the feature are appended to the
    copy and the columns of its group are dropped from it. *)
Lemma from_dummies_feature_Ok (st : store) (data : ref) (d out_cur : frame) (l : string) :
  st !! data = Some d ->
  one_hot_group l d <> [] ->
  (forall c, c ∈ one_hot_group l d -> exists vs, frame_get c d = Some (NumCol vs)) ->
  l ∉ columns out_cur ->
  (forall c, c ∈ one_hot_group l d -> c ∈ columns out_cur) ->
  from_dummies_feature data (length st) (st ++ [out_cur]) l
  = Ok (st ++ [drop_cols (one_hot_group l d)
                 (out_cur ++ [(l, StrCol (decoded_labels l d))])]).
Proof.
  intros Hdata Hne Hnum Hfresh Hin.
  unfold from_dummies_feature. rewrite (deref_old st out_cur data d Hdata). simpl.
  fold (one_hot_group l d).
  rewrite (select_values_numeric d (one_hot_group l d) Hnum). simpl.
  assert (Hargmax : argmax_rows (group_values (one_hot_group l d) d)
                    = Ok (map (fun i => argmax (map (fun c => nth i c 0%Q)
                                                  (group_values (one_hot_group l d) d)))
                            (seq 0 (length (hd [] (group_values (one_hot_group l d) d)))))).
  { unfold group_values. destruct (one_hot_group l d) as [|c cols]; [contradiction|].
    reflexivity. }
  rewrite Hargmax. simpl. rewrite map_map.
  rewrite frame_setitem_new. simpl.
  unfold frame_set. rewrite (dict_set_fresh l _ out_cur Hfresh).
  apply drop_columns_new. intros c Hc. unfold columns. rewrite map_app.
  rewrite elem_of_app. left. exact (Hin c Hc).
Qed.

Lemma columns_decoded (cats : list string) (d : frame) :
  columns (decoded cats d)
  = columns (drop_cols (flat_map (fun l => one_hot_group l d) cats) d) ++ cats.
Proof.
  unfold decoded, columns. rewrite map_app, map_map. simpl. rewrite map_id. reflexivity.
Qed.

Lemma one_hot_group_columns (l : string) (d : frame) (c : string) :
  c ∈ one_hot_group l d -> c ∈ columns d.
Proof. unfold one_hot_group. intros H. apply list_elem_of_filter in H. tauto. Qed.

Lemma decoded_step (done : list string) (l : string) (d : frame) :
  (forall l', l' ∈ done ++ [l] -> l' ∉ columns d) ->
  drop_cols (one_hot_group l d) (decoded done d ++ [(l, StrCol (decoded_labels l d))])
  = decoded (done ++ [l]) d.
Proof.
  intros Hfresh. unfold decoded.
  rewrite <- app_assoc, drop_cols_app, drop_cols_drop_cols.
  rewrite flat_map_app. simpl. rewrite app_nil_r. f_equal.
  rewrite map_app. simpl. apply drop_cols_none.
  intros name Hname Hin. apply one_hot_group_columns in Hin.
  apply (Hfresh name); [|exact Hin].
  unfold columns in Hname. rewrite map_app, map_map in Hname. simpl in Hname.
  rewrite map_id in Hname. exact Hname.
Qed.

Lemma from_dummies_loop (st : store) (data : ref) (d : frame) (cats : list string) :
  st !! data = Some d ->
  decodable cats d ->
  forall rest done, cats = done ++ rest ->
    for_each (from_dummies_feature data (length st)) rest (st ++ [decoded done d])
    = Ok (st ++ [decoded cats d]).
Proof.
  intros Hdata (Hnd & Hfresh & Hgroup & Hdisj).
  induction rest as [|l rest IH]; intros done Hcats.
  - rewrite app_nil_r in Hcats. subst done. reflexivity.
  - assert (Hl : l ∈ cats). { rewrite Hcats, elem_of_app. right. left. }
    assert (Hdone : l ∉ done).
    { rewrite Hcats in Hnd. apply NoDup_app in Hnd. destruct Hnd as (_ & Hnd & _).
      intros Hin. apply (Hnd l Hin). left. }
    destruct (Hgroup l Hl) as [Hne Hnum].
    simpl. rewrite (from_dummies_feature_Ok st data d (decoded done d) l Hdata Hne Hnum).
    + simpl. rewrite decoded_step.
      * apply IH. rewrite Hcats, <- app_assoc. reflexivity.
      * intros l' Hl'. apply Hfresh. rewrite Hcats.
        rewrite elem_of_app in Hl' |- *. destruct Hl' as [Hl'|Hl']; [left; exact Hl'|].
        apply list_elem_of_singleton in Hl'. subst l'. right. left.
    + rewrite columns_decoded, elem_of_app. intros [Hin|Hin]; [|contradiction].
      apply columns_drop_cols in Hin. exact (Hfresh l Hl (proj1 Hin)).
    + intros c Hc. rewrite columns_decoded, elem_of_app. left.
      apply columns_drop_cols. split; [exact (one_hot_group_columns l d c Hc)|].
      intros Hin. apply list_elem_of_In, in_flat_map in Hin.
      destruct Hin as (l' & Hl' & Hc'). apply list_elem_of_In in Hl', Hc'.
      assert (Hne' : l' <> l) by (intros ->; contradiction).
      apply (Hdisj l' l c); auto.
      rewrite Hcats, elem_of_app. left. exact Hl'.
Qed.

Lemma drop_cols_nil (f : frame) : drop_cols [] f = f.
Proof. apply drop_cols_none. intros name _ H. inversion H. Qed.

(** [from_dummies] on a table it can decode: it returns a new table that holds
    the columns of the argument outside every group, in their order, followed
    by one column of labels per categorical feature, in the order of the
    features; no table that existed before the call is modified. *)
Theorem from_dummies_decoded (s : PrivateData) (st : store) (data : ref) (d : frame) :
  st !! data = Some d ->
  decodable (categorical_feature_names s) d ->
  from_dummies s st data
    = Ok (length st, st ++ [decoded (categorical_feature_names s) d]) /\
  get_decoded_data s st (Frame data)
    = Ok (length st, st ++ [decoded (categorical_feature_names s) d]).
Proof.
  intros Hdata Hdec.
  assert (H : from_dummies s st data
              = Ok (length st, st ++ [decoded (categorical_feature_names s) d])).
  { unfold from_dummies, copy, deref. rewrite Hdata. simpl.
    pose proof (from_dummies_loop st data d (categorical_feature_names s) Hdata Hdec
                  (categorical_feature_names s) [] eq_refl) as Hloop.
    unfold decoded at 1 in Hloop. simpl in Hloop.
    rewrite drop_cols_nil, app_nil_r in Hloop. rewrite Hloop. reflexivity. }
  split; [exact H|exact H].
Qed.

Lemma decodable_example :
  decodable (categorical_feature_names example_schema) encoded_example_frame.
Proof.
  assert (Hgroup : one_hot_group "color" encoded_example_frame
                   = ["color_blue"; "color_green"; "color_red"]) by reflexivity.
  split; [|split; [|split]].
  - apply (bool_decide_unpack _). vm_compute. exact I.
  - intros l Hl. apply list_elem_of_singleton in Hl. subst l.
    apply (bool_decide_unpack _). vm_compute. exact I.
  - intros l Hl. apply list_elem_of_singleton in Hl. subst l. rewrite Hgroup. split.
    + discriminate.
    + intros c Hc.
      repeat (apply elem_of_cons in Hc; destruct Hc as [->|Hc]);
        [eexists; reflexivity..|inversion Hc].
  - intros l l' c Hl Hl' Hne. apply list_elem_of_singleton in Hl, Hl'. congruence.
Qed.

Lemma from_dummies_decoded_witness :
  [encoded_example_frame] !! 0%nat = Some encoded_example_frame /\
  decodable (categorical_feature_names example_schema) encoded_example_frame /\
  decoded (categorical_feature_names example_schema) encoded_example_frame
    = decoded_example_frame /\
  from_dummies example_schema [encoded_example_frame] 0
    = Ok (length [encoded_example_frame],
          [encoded_example_frame] ++
          [decoded (categorical_feature_names example_schema) encoded_example_frame]) /\
  get_decoded_data example_schema [encoded_example_frame] (Frame 0%nat)
    = Ok (length [encoded_example_frame],
          [encoded_example_frame] ++
          [decoded (categorical_feature_names example_schema) encoded_example_frame]).
Proof.
  split; [reflexivity|]. split; [exact decodable_example|]. split; [reflexivity|].
  apply (from_dummies_decoded example_schema [encoded_example_frame] 0%nat
           encoded_example_frame).
  - reflexivity.
  - exact decodable_example.
Defined.

(** ** What a one-hot row decodes to *)

Lemma argmax_from_keeps (best : Q) (besti i : nat) (l : list Q) :
  (forall m, (m < length l)%nat -> (nth m l 0 <= best)%Q) ->
  argmax_from best besti i l = besti.
Proof.
  revert i. induction l as [|x l IH]; intros i H; simpl; [reflexivity|].
  destruct (Qlt_le_dec best x) as [Hlt|_].
  - exfalso. apply (Qlt_not_le _ _ Hlt). apply (H 0%nat). simpl. lia.
  - apply IH. intros m Hm. apply (H (S m)). simpl. lia.
Qed.

Lemma argmax_from_moves (best : Q) (besti i k : nat) (l : list Q) :
  (k < length l)%nat ->
  (best < nth k l 0)%Q ->
  (forall m, (m < k)%nat -> (nth m l 0 < nth k l 0)%Q) ->
  (forall m, (k < m < length l)%nat -> (nth m l 0 <= nth k l 0)%Q) ->
  argmax_from best besti i l = (i + k)%nat.
Proof.
  revert best besti i k. induction l as [|x l IH]; intros best besti i k Hk Hbest Hlt Hle.
  - simpl in Hk. lia.
  - destruct k as [|k]; simpl in *.
    + destruct (Qlt_le_dec best x) as [_|Hge].
      * rewrite Nat.add_0_r. apply argmax_from_keeps.
        intros m Hm. apply (Hle (S m)). lia.
      * exfalso. exact (Qlt_not_le _ _ Hbest Hge).
    + assert (Hx : (x < nth k l 0)%Q) by (apply (Hlt 0%nat); lia).
      assert (Hlt' : forall m, (m < k)%nat -> (nth m l 0 < nth k l 0)%Q).
      { intros m Hm. apply (Hlt (S m)). lia. }
      assert (Hle' : forall m, (k < m < length l)%nat -> (nth m l 0 <= nth k l 0)%Q).
      { intros m Hm. apply (Hle (S m)). lia. }
      destruct (Qlt_le_dec best x) as [_|_].
      * rewrite (IH x i (S i) k); [lia|lia|exact Hx|exact Hlt'|exact Hle'].
      * rewrite (IH best besti (S i) k); [lia|lia|exact Hbest|exact Hlt'|exact Hle'].
Qed.

(** [argmax] returns the first position that holds the largest value. *)
Lemma argmax_first (l : list Q) (k : nat) :
  (k < length l)%nat ->
  (forall m, (m < k)%nat -> (nth m l 0 < nth k l 0)%Q) ->
  (forall m, (k < m < length l)%nat -> (nth m l 0 <= nth k l 0)%Q) ->
  argmax l = k.
Proof.
  destruct l as [|x l]; simpl; intros Hk Hlt Hle; [lia|].
  destruct k as [|k].
  - apply argmax_from_keeps. intros m Hm. apply (Hle (S m)). lia.
  - rewrite (argmax_from_moves x 0 1 k l); [reflexivity|lia| | |].
    + apply (Hlt 0%nat). lia.
    + intros m Hm. apply (Hlt (S m)). lia.
    + intros m Hm. apply (Hle (S m)). lia.
Qed.

Lemma remove_scan_absent (old s : string) :
  contains old s = false -> remove_scan old 0 s = s.
Proof.
  induction s as [|c s IH]; intros H; [reflexivity|].
  simpl in H. apply orb_false_iff in H. destruct H as [Hp Hc].
  simpl. simpl in Hp. rewrite Hp. f_equal. exact (IH Hc).
Qed.

Lemma remove_scan_skip (old o t : string) :
  remove_scan old (String.length o) (o +:+ t) = remove_scan old 0 t.
Proof.
  induction o as [|b o IH]; [reflexivity|].
  change (String b o +:+ t) with (String b (o +:+ t)). simpl. exact IH.
Qed.

(** Removing ["<feature>_"] from a column label gives the level back, unless
    the level holds ["<feature>_"] itself. *)
Lemma str_remove_encoded_name (l level : string) :
  contains (l +:+ "_") level = false ->
  str_remove (l +:+ "_") (encoded_name l level) = level.
Proof.
  intros H. unfold encoded_name. rewrite <- append_assoc.
  assert (Hold : exists a o, l +:+ "_" = String a o).
  { destruct l as [|a l]; eexists; eexists; reflexivity. }
  destruct Hold as (a & o & Hold). rewrite Hold in *.
  unfold str_remove.
  change (String a o +:+ level) with (String a (o +:+ level)).
  assert (Hp : String.prefix (String a o) (String a (o +:+ level)) = true).
  { change (String a (o +:+ level)) with (String a o +:+ level). apply prefix_app. }
  cbn [remove_scan]. rewrite Hp.
  cbn [String.length]. rewrite Nat.sub_succ, Nat.sub_0_r.
  rewrite remove_scan_skip. apply remove_scan_absent. exact H.
Qed.

Lemma contains_encoded_name (l level : string) :
  contains (l +:+ "_") (encoded_name l level) = true.
Proof.
  unfold encoded_name. rewrite <- append_assoc.
  pose proof (prefix_app (l +:+ "_") level) as Hp.
  destruct ((l +:+ "_") +:+ level); simpl; simpl in Hp; rewrite Hp; reflexivity.
Qed.

Lemma group_row_cells (d : frame) (cols : list string) (i : nat) :
  map (fun c => nth i c 0%Q) (group_values cols d) = map (fun c => cell d c i) cols.
Proof.
  unfold group_values. rewrite map_map. apply map_ext. intros c. unfold cell.
  destruct (frame_get c d) as [[vs|vs|zs|n]|]; try reflexivity; destruct i; reflexivity.
Qed.

Lemma nth_map_default {A B : Type} (f : A -> B) (l : list A) (m : nat) (a : A) (b : B) :
  (m < length l)%nat -> nth m (map f l) b = f (nth m l a).
Proof.
  intros Hm. rewrite (nth_indep _ b (f a)) by (rewrite length_map; exact Hm).
  apply map_nth.
Qed.

(** The labels of a feature whose columns are named after its levels. *)
Lemma decoded_labels_one_hot (d : frame) (l : string) (levels : list string) (n : nat)
    (choice : nat -> nat) :
  one_hot_group l d = map (encoded_name l) levels ->
  levels <> [] ->
  (forall level, level ∈ levels -> contains (l +:+ "_") level = false) ->
  (forall level, level ∈ levels ->
     exists vs, frame_get (encoded_name l level) d = Some (NumCol vs) /\ length vs = n) ->
  (forall i, (i < n)%nat -> chosen d l levels i (choice i)) ->
  decoded_labels l d = map (fun i => nth (choice i) levels "") (seq 0 n).
Proof.
  intros Hgroup Hne Hclean Hnum Hchoice. unfold decoded_labels. rewrite Hgroup.
  assert (Hlabs : map (str_remove (l +:+ "_")) (map (encoded_name l) levels) = levels).
  { rewrite map_map. clear Hgroup Hne Hnum Hchoice.
    induction levels as [|x levels IH]; [reflexivity|]. simpl. f_equal.
    - apply str_remove_encoded_name, Hclean. left.
    - apply IH. intros y Hy. apply Hclean. right. exact Hy. }
  assert (Hlen : length (hd [] (group_values (map (encoded_name l) levels) d)) = n).
  { destruct levels as [|x levels]; [contradiction|]. simpl.
    destruct (Hnum x) as (vs & Hvs & Hn); [left|]. rewrite Hvs. exact Hn. }
  cbv zeta. rewrite Hlabs, Hlen. apply map_ext_in. intros i Hi.
  apply in_seq in Hi. destruct (Hchoice i) as (Hk & Hlt & Hle); [lia|].
  f_equal. rewrite group_row_cells, map_map. apply argmax_first.
  - rewrite length_map. exact Hk.
  - intros m Hm.
    rewrite (nth_map_default _ levels m "" 0%Q) by lia.
    rewrite (nth_map_default _ levels (choice i) "" 0%Q) by lia.
    exact (Hlt m Hm).
  - intros m Hm. rewrite length_map in Hm.
    rewrite (nth_map_default _ levels m "" 0%Q) by lia.
    rewrite (nth_map_default _ levels (choice i) "" 0%Q) by lia.
    exact (Hle m Hm).
Qed.

Lemma dict_get_app {V : Type} (k : string) (f g : dict V) :
  dict_get k (f ++ g) = match dict_get k f with Some v => Some v | None => dict_get k g end.
Proof.
  induction f as [|[k0 v0] f IH]; [reflexivity|]. simpl.
  destruct (String.eqb k k0); [reflexivity|exact IH].
Qed.

Lemma dict_get_absent {V : Type} (k : string) (d : dict V) :
  k ∉ dict_keys d -> dict_get k d = None.
Proof.
  intros H. destruct (dict_get k d) as [v|] eqn:E; [|reflexivity].
  exfalso. exact (H (dict_get_Some_keys k v d E)).
Qed.

Lemma dict_get_map {V : Type} (F : string -> V) (k : string) (ks : list string) :
  k ∈ ks -> dict_get k (map (fun x => (x, F x)) ks) = Some (F k).
Proof.
  induction ks as [|x ks IH]; intros H; [inversion H|]. simpl.
  destruct (String.eqb k x) eqn:E.
  - apply String.eqb_eq in E. subst x. reflexivity.
  - apply IH. apply elem_of_cons in H. destruct H as [->|H]; [|exact H].
    rewrite String.eqb_refl in E. discriminate.
Qed.

Lemma frame_get_decoded (cats : list string) (d : frame) (l : string) :
  l ∈ cats -> l ∉ columns d ->
  frame_get l (decoded cats d) = Some (StrCol (decoded_labels l d)).
Proof.
  intros Hl Hfresh. unfold frame_get, decoded. rewrite dict_get_app.
  rewrite dict_get_absent.
  - exact (dict_get_map (fun x => StrCol (decoded_labels x d)) l cats Hl).
  - intros Hin. apply columns_drop_cols in Hin. exact (Hfresh (proj1 Hin)).
Qed.


(** X7. Decoding reads each row of a one-hot group back as a level. Let the
    columns of the table that contain ["<feature>_"] be exactly
    ["<feature>_<level>"] for the levels of a list, in the order of the list,
    all numeric with [n] rows, and let no level contain ["<feature>_"] itself.
    If in every row [i] the column of level number [choice i] holds the
    largest value of the group and every earlier column holds strictly less,
    then [get_decoded_data] returns a new table whose column [feature] holds,
    row by row, the level number [choice i]: ties go to the first column, and
    the prefix is taken off the label. *)
Theorem decode_one_hot (s : PrivateData) (st : store) (data : ref) (d : frame)
    (l : string) (levels : list string) (n : nat) (choice : nat -> nat) :
  st !! data = Some d ->
  decodable (categorical_feature_names s) d ->
  l ∈ categorical_feature_names s ->
  one_hot_group l d = map (encoded_name l) levels ->
  (forall level, level ∈ levels -> contains (l +:+ "_") level = false) ->
  (forall level, level ∈ levels ->
     exists vs, frame_get (encoded_name l level) d = Some (NumCol vs) /\ length vs = n) ->
  (forall i, (i < n)%nat -> chosen d l levels i (choice i)) ->
  exists out,
    get_decoded_data s st (Frame data) = Ok (length st, st ++ [out]) /\
    frame_get l out = Some (StrCol (map (fun i => nth (choice i) levels "") (seq 0 n))).
Proof.
  intros Hdata Hdec Hl Hgroup Hclean Hnum Hchoice.
  exists (decoded (categorical_feature_names s) d). split.
  - cbn [get_decoded_data]. unfold from_dummies, copy, deref. rewrite Hdata. simpl.
    pose proof (from_dummies_loop st data d (categorical_feature_names s) Hdata Hdec
                  (categorical_feature_names s) [] eq_refl) as Hloop.
    unfold decoded at 1 in Hloop. simpl in Hloop.
    rewrite drop_cols_nil, app_nil_r in Hloop. rewrite Hloop. reflexivity.
  - destruct Hdec as (_ & Hfresh & Hgroups & _).
    rewrite (frame_get_decoded _ d l Hl (Hfresh l Hl)). do 2 f_equal.
    apply (decoded_labels_one_hot d l levels n choice Hgroup); try assumption.
    intros ->. destruct (Hgroups l Hl) as [Hne _]. apply Hne. rewrite Hgroup. reflexivity.
Qed.

Lemma decode_one_hot_witness :
  [encoded_example_frame] !! 0%nat = Some encoded_example_frame /\
  one_hot_group "color" encoded_example_frame
    = map (encoded_name "color") ["blue"; "green"; "red"] /\
  chosen encoded_example_frame "color" ["blue"; "green"; "red"] 0 1 /\
  chosen encoded_example_frame "color" ["blue"; "green"; "red"] 1 0 /\
  exists out,
    get_decoded_data example_schema [encoded_example_frame] (Frame 0%nat)
      = Ok (length [encoded_example_frame], [encoded_example_frame] ++ [out]) /\
    frame_get "color" out
      = Some (StrCol (map (fun i => nth (match i with O => 1 | S _ => 0 end)%nat
                                      ["blue"; "green"; "red"] "")
                        (seq 0 2))).
Proof.
  assert (H0 : chosen encoded_example_frame "color" ["blue"; "green"; "red"] 0 1).
  { split; [simpl; lia|]. split.
    - intros m Hm. assert (m = 0%nat) as -> by lia. reflexivity.
    - intros m Hm. simpl in Hm. assert (m = 2%nat) as -> by lia. discriminate. }
  assert (H1 : chosen encoded_example_frame "color" ["blue"; "green"; "red"] 1 0).
  { split; [simpl; lia|]. split.
    - intros m Hm. lia.
    - intros m Hm. simpl in Hm.
      assert (m = 1%nat \/ m = 2%nat) as [-> | ->] by lia; discriminate. }
  split; [reflexivity|]. split; [reflexivity|]. split; [exact H0|]. split; [exact H1|].
  apply (decode_one_hot example_schema [encoded_example_frame] 0%nat encoded_example_frame
           "color" ["blue"; "green"; "red"] 2
           (fun i => match i with O => 1 | S _ => 0 end)%nat).
  - reflexivity.
  - exact decodable_example.
  - left.
  - reflexivity.
  - intros level Hlevel.
    repeat (apply elem_of_cons in Hlevel; destruct Hlevel as [->|Hlevel]);
      [reflexivity..|inversion Hlevel].
  - intros level Hlevel.
    repeat (apply elem_of_cons in Hlevel; destruct Hlevel as [->|Hlevel]);
      [eexists; split; reflexivity..|inversion Hlevel].
  - intros i Hi. destruct i as [|[|i]]; [exact H0|exact H1|lia].
Defined.


(** ** Tables that cannot be decoded *)

Lemma decoded_nil (d : frame) : decoded [] d = d.
Proof. unfold decoded. simpl. rewrite drop_cols_nil. apply app_nil_r. Qed.

(** The loop of [from_dummies] stops at the first feature that fails. *)
Lemma from_dummies_stops (s : PrivateData) (st : store) (data : ref) (d : frame)
    (done rest : list string) (l : string) (e : exn) :
  st !! data = Some d ->
  categorical_feature_names s = done ++ l :: rest ->
  decodable done d ->
  from_dummies_feature data (length st) (st ++ [decoded done d]) l = Raise e ->
  from_dummies s st data = Raise e.
Proof.
  intros Hdata Hcats Hdec Hfail.
  unfold from_dummies, copy, deref. rewrite Hdata. simpl. rewrite Hcats, for_each_app.
  pose proof (from_dummies_loop st data d done Hdata Hdec done [] eq_refl) as Hloop.
  rewrite decoded_nil in Hloop. rewrite Hloop. simpl. rewrite Hfail. reflexivity.
Qed.


(** X8. A table without the one-hot columns of a categorical feature cannot
    be decoded. If the categorical features listed before [l] can be decoded
    and no column label of the table contains ["<l>_"] (as in a table that
    was never one-hot encoded), then [from_dummies], and with it
    [get_decoded_data], raises [ValueError]: the row-wise [argmax] is taken
    over no column at all. *)
Theorem from_dummies_missing_group (s : PrivateData) (st : store) (data : ref) (d : frame)
    (done rest : list string) (l : string) :
  st !! data = Some d ->
  categorical_feature_names s = done ++ l :: rest ->
  decodable done d ->
  one_hot_group l d = [] ->
  from_dummies s st data = Raise ValueError /\
  get_decoded_data s st (Frame data) = Raise ValueError.
Proof.
  intros Hdata Hcats Hdec Hnone.
  assert (H : from_dummies s st data = Raise ValueError).
  { apply (from_dummies_stops s st data d done rest l ValueError Hdata Hcats Hdec).
    unfold from_dummies_feature. rewrite (deref_old st _ data d Hdata). simpl.
    fold (one_hot_group l d). rewrite Hnone. reflexivity. }
  split; [exact H|exact H].
Qed.

Lemma from_dummies_missing_group_witness :
  [example_frame] !! 0%nat = Some example_frame /\
  categorical_feature_names example_schema = [] ++ "color" :: [] /\
  one_hot_group "color" example_frame = [] /\
  from_dummies example_schema [example_frame] 0 = Raise ValueError /\
  get_decoded_data example_schema [example_frame] (Frame 0%nat) = Raise ValueError.
Proof.
  split; [reflexivity|]. split; [reflexivity|]. split; [reflexivity|].
  apply (from_dummies_missing_group example_schema [example_frame] 0%nat example_frame
           [] [] "color").
  - reflexivity.
  - reflexivity.
  - split; [constructor|]. split; [intros l Hl; inversion Hl|].
    split; [intros l Hl; inversion Hl|intros l l' c Hl; inversion Hl].
  - reflexivity.
Defined.

Lemma drop_columns_missing (st : store) (g : frame) (cols : list string) (c : string) :
  c ∈ cols -> c ∉ columns g ->
  drop_columns (st ++ [g]) (length st) cols = Raise KeyError.
Proof.
  intros Hc Hmiss. unfold drop_columns, deref.
  rewrite lookup_app_r by lia. rewrite Nat.sub_diag.
  cbn [lookup list_lookup mbind outcome_mbind outcome_bind].
  destruct (forallb (fun c0 => dict_mem c0 g) cols) eqn:E; [|reflexivity].
  exfalso. apply Hmiss. rewrite forallb_forall in E.
  apply dict_mem_elem, E, list_elem_of_In, Hc.
Qed.

Lemma columns_frame_set (name : string) (col : column) (g : frame) (c : string) :
  c ∈ columns (frame_set name col g) -> c = name \/ c ∈ columns g.
Proof.
  unfold columns, frame_set. induction g as [|[k v] g IH]; simpl.
  - intros H. apply list_elem_of_singleton in H. left. exact H.
  - destruct (String.eqb name k) eqn:E; simpl.
    + intros H. right. exact H.
    + rewrite !elem_of_cons. intros [->|H]; [right; left; reflexivity|].
      destruct (IH H) as [->|H']; [left; reflexivity|right; right; exact H'].
Qed.

(** X9. Categorical features whose groups of columns overlap cannot be
    decoded. The group of a feature is every column whose label contains
    ["<feature>_"], and [from_dummies] drops the group from its result after
    decoding the feature. If a column of the group of [l] also belongs to the
    group of a feature decoded before [l] (as with features [degree] and
    [degree_field]), the column is gone when the group of [l] is dropped, and
    [from_dummies] raises [KeyError]. *)
Theorem from_dummies_overlapping_groups (s : PrivateData) (st : store) (data : ref)
    (d : frame) (done rest : list string) (l l' c : string) :
  st !! data = Some d ->
  categorical_feature_names s = done ++ l :: rest ->
  decodable done d ->
  l ∉ columns d ->
  (forall c0, c0 ∈ one_hot_group l d -> exists vs, frame_get c0 d = Some (NumCol vs)) ->
  l' ∈ done ->
  c ∈ one_hot_group l' d ->
  c ∈ one_hot_group l d ->
  from_dummies s st data = Raise KeyError /\
  get_decoded_data s st (Frame data) = Raise KeyError.
Proof.
  intros Hdata Hcats Hdec Hfresh Hnum Hl' Hc' Hc.
  assert (H : from_dummies s st data = Raise KeyError).
  { apply (from_dummies_stops s st data d done rest l KeyError Hdata Hcats Hdec).
    unfold from_dummies_feature. rewrite (deref_old st _ data d Hdata). simpl.
    fold (one_hot_group l d).
    rewrite (select_values_numeric d (one_hot_group l d) Hnum). simpl.
    assert (Hargmax : exists ix, argmax_rows (group_values (one_hot_group l d) d) = Ok ix).
    { unfold group_values. destruct (one_hot_group l d) as [|c0 cols]; [inversion Hc|].
      eexists. reflexivity. }
    destruct Hargmax as [ix Hix]. rewrite Hix. simpl.
    rewrite frame_setitem_new. simpl.
    apply (drop_columns_missing st _ (one_hot_group l d) c Hc).
    intros Hin. apply columns_frame_set in Hin.
    pose proof (one_hot_group_columns l d c Hc) as Hcd.
    destruct Hin as [->|Hin]; [contradiction|].
    rewrite columns_decoded, elem_of_app in Hin. destruct Hin as [Hin|Hin].
    - apply columns_drop_cols in Hin. apply (proj2 Hin).
      apply list_elem_of_In, in_flat_map. exists l'.
      split; apply list_elem_of_In; assumption.
    - destruct Hdec as (_ & Hfr & _). exact (Hfr c Hin Hcd). }
  split; [exact H|exact H].
Qed.

Lemma decodable_degree : decodable ["degree"] degree_frame.
Proof.
  assert (Hgroup : one_hot_group "degree" degree_frame
                   = ["degree_BA"; "degree_MA"; "degree_field_arts"; "degree_field_law"])
    by reflexivity.
  split; [|split; [|split]].
  - apply (bool_decide_unpack _). vm_compute. exact I.
  - intros l Hl. apply list_elem_of_singleton in Hl. subst l.
    apply (bool_decide_unpack _). vm_compute. exact I.
  - intros l Hl. apply list_elem_of_singleton in Hl. subst l. rewrite Hgroup. split.
    + discriminate.
    + intros c Hc.
      repeat (apply elem_of_cons in Hc; destruct Hc as [->|Hc]);
        [eexists; reflexivity..|inversion Hc].
  - intros l l' c Hl Hl' Hne. apply list_elem_of_singleton in Hl, Hl'. congruence.
Qed.

Lemma from_dummies_overlapping_groups_witness :
  init degree_params = Ok degree_schema /\
  [degree_frame] !! 0%nat = Some degree_frame /\
  columns degree_frame = ["degree_BA"; "degree_MA"; "degree_field_arts"; "degree_field_law"] /\
  one_hot_group "degree" degree_frame
    = ["degree_BA"; "degree_MA"; "degree_field_arts"; "degree_field_law"] /\
  one_hot_group "degree_field" degree_frame = ["degree_field_arts"; "degree_field_law"] /\
  from_dummies degree_schema [degree_frame] 0 = Raise KeyError /\
  get_decoded_data degree_schema [degree_frame] (Frame 0%nat) = Raise KeyError.
Proof.
  split; [reflexivity|]. split; [reflexivity|]. split; [reflexivity|].
  split; [reflexivity|]. split; [reflexivity|].
  apply (from_dummies_overlapping_groups degree_schema [degree_frame] 0%nat degree_frame
           ["degree"] [] "degree_field" "degree" "degree_field_arts").
  - reflexivity.
  - reflexivity.
  - exact decodable_degree.
  - apply (bool_decide_unpack _). vm_compute. exact I.
  - intros c Hc. change (one_hot_group "degree_field" degree_frame)
      with ["degree_field_arts"; "degree_field_law"] in Hc.
    repeat (apply elem_of_cons in Hc; destruct Hc as [->|Hc]);
      [eexists; reflexivity..|inversion Hc].
  - left.
  - apply (bool_decide_unpack _). vm_compute. exact I.
  - apply (bool_decide_unpack _). vm_compute. exact I.
Defined.


(** ** The table of levels *)

Lemma for_each_seq {S A : Type} (body : S -> nat -> outcome S) (g : S -> A -> outcome S)
    (l : list A) :
  (forall s i a, l !! i = Some a -> body s i = g s a) ->
  forall m i s, (i + m <= length l)%nat ->
    for_each body (seq i m) s = for_each g (take m (drop i l)) s.
Proof.
  intros Hbody. induction m as [|m IH]; intros i s Hlen; [reflexivity|].
  destruct (lookup_lt_is_Some_2 l i) as [a Ha]; [lia|].
  rewrite (drop_S l a i Ha). simpl. rewrite (Hbody s i a Ha).
  destruct (g s a) as [s'| |]; simpl; [|reflexivity|reflexivity].
  apply IH. lia.
Qed.

Lemma for_each_cons {S A : Type} (body : S -> A -> outcome S) (x : A) (l : list A)
    (s s' : S) :
  body s x = Ok s' -> for_each body (x :: l) s = for_each body l s'.
Proof. intros H. simpl. rewrite H. reflexivity. Qed.

Lemma comprehension_entry_of (ls : list string) :
  comprehension entry_of (map AStr ls) = Ok (map Str ls).
Proof.
  induction ls as [|x ls IH]; [reflexivity|]. simpl. rewrite IH. reflexivity.
Qed.

Lemma length_pad (n : nat) (c : list entry) : length (pad n c) = Nat.max n (length c).
Proof. unfold pad. rewrite length_app, repeat_length. lia. Qed.

Lemma pad_pad (n m : nat) (c : list entry) :
  (n <= m)%nat -> pad m (pad n c) = pad m c.
Proof.
  intros Hnm. unfold pad. rewrite <- app_assoc. f_equal.
  rewrite length_app, repeat_length, <- repeat_app. f_equal. lia.
Qed.

Lemma pad_full (n : nat) (c : list entry) : (n <= length c)%nat -> pad n c = c.
Proof.
  intros H. unfold pad. replace (n - length c)%nat with 0%nat by lia. apply app_nil_r.
Qed.

Lemma list_max_snoc (l : list nat) (x : nat) : list_max (l ++ [x]) = Nat.max (list_max l) x.
Proof. rewrite list_max_app. simpl. lia. Qed.

Lemma list_max_ge (l : list nat) (x : nat) : x ∈ l -> (x <= list_max l)%nat.
Proof.
  intros H. pose proof (proj1 (list_max_le l (list_max l)) (Nat.le_refl _)) as Hall.
  rewrite List.Forall_forall in Hall. apply Hall, list_elem_of_In, H.
Qed.

Lemma height_level_columns (s : PrivateData) (names : list string) :
  names <> [] ->
  height (level_columns s names)
  = list_max (map (fun c => length (schema_levels s c)) names).
Proof.
  destruct names as [|c names]; [contradiction|]. intros _.
  unfold level_columns. cbn [map height]. rewrite length_pad, length_map.
  simpl. lia.
Qed.


Lemma labels_level_columns (s : PrivateData) (names : list string) :
  labels (level_columns s names) = names.
Proof.
  unfold labels, level_columns. cbv zeta. rewrite map_map. simpl. apply map_id.
Qed.

(** One more categorical feature in the table of levels. *)
Lemma level_columns_step (s : PrivateData) (names : list string) (c : string) :
  names <> [] ->
  NoDup (names ++ [c]) ->
  pd_concat (level_columns s names) [(c, map Str (schema_levels s c))]
  = Ok (level_columns s (names ++ [c])).
Proof.
  intros Hne Hnd. unfold pd_concat.
  rewrite labels_level_columns. cbn [labels map fst].
  rewrite (bool_decide_eq_true_2 _ Hnd).
  rewrite (height_level_columns s names Hne). cbn [height]. rewrite length_map.
  assert (Hmax : list_max (map (fun c0 => length (schema_levels s c0)) (names ++ [c]))
                 = Nat.max (list_max (map (fun c0 => length (schema_levels s c0)) names))
                     (length (schema_levels s c))).
  { rewrite map_app. apply list_max_snoc. }
  f_equal. unfold level_columns. cbv zeta. rewrite Hmax.
  set (n := list_max (map (fun c0 => length (schema_levels s c0)) names)).
  set (n' := Nat.max n (length (schema_levels s c))).
  rewrite !map_app, map_map. cbn [map fst snd]. f_equal.
  apply map_ext. intros c0. cbn [fst snd]. f_equal. apply pad_pad. unfold n'. lia.
Qed.

Lemma level_columns_loop (s : PrivateData) (rest done : list string) :
  done <> [] ->
  NoDup (done ++ rest) ->
  for_each
    (fun df name =>
       temp_df ← pd_DataFrame_column name (VList (map AStr (schema_levels s name)));
       pd_concat df temp_df)
    rest (level_columns s done)
  = Ok (level_columns s (done ++ rest)).
Proof.
  revert done. induction rest as [|c rest IH]; intros done Hne Hnd.
  - rewrite app_nil_r. reflexivity.
  - rewrite (for_each_cons _ c rest _ (level_columns s (done ++ [c]))).
    + rewrite (IH (done ++ [c])).
      * rewrite <- app_assoc. reflexivity.
      * intros H. apply app_eq_nil in H. destruct H as [_ H]. discriminate.
      * rewrite <- app_assoc. exact Hnd.
    + cbn [pd_DataFrame_column]. rewrite comprehension_entry_of.
      cbn [mbind outcome_mbind outcome_bind].
      apply level_columns_step; [exact Hne|].
      assert (E : done ++ c :: rest = (done ++ [c]) ++ rest)
        by (rewrite <- app_assoc; reflexivity).
      rewrite E in Hnd. apply NoDup_app in Hnd. tauto.
Qed.

(** One more continuous feature in the table of levels. *)
Lemma missing_columns_loop (n : nat) (t : dataframe) (rest done : list string) :
  t <> [] ->
  height t = n ->
  (forall kc, kc ∈ t -> length kc.2 = n) ->
  NoDup (labels t ++ done ++ rest) ->
  for_each
    (fun df name =>
       temp_df ← pd_DataFrame_column name (VList []);
       pd_concat df temp_df)
    rest (t ++ map (fun c => (c, repeat NaN n)) done)
  = Ok (t ++ map (fun c => (c, repeat NaN n)) (done ++ rest)).
Proof.
  intros Hne Hheight Hlen. revert done. induction rest as [|c rest IH]; intros done Hnd.
  - rewrite app_nil_r. reflexivity.
  - assert (Hstep : pd_concat (t ++ map (fun c0 => (c0, repeat NaN n)) done) [(c, [])]
                    = Ok (t ++ map (fun c0 => (c0, repeat NaN n)) (done ++ [c]))).
    { assert (Hnd' : NoDup (labels (t ++ map (fun c0 => (c0, repeat NaN n)) done)
                            ++ labels [(c, [])])).
      { unfold labels. rewrite (map_app fst), map_map. cbn [fst map]. rewrite map_id.
        assert (E : map fst t ++ done ++ c :: rest = ((map fst t ++ done) ++ [c]) ++ rest)
          by (rewrite <- !app_assoc; reflexivity).
        unfold labels in Hnd. rewrite E in Hnd. apply NoDup_app in Hnd. tauto. }
      unfold pd_concat. rewrite (bool_decide_eq_true_2 _ Hnd').
      assert (Hh : height (t ++ map (fun c0 => (c0, repeat NaN n)) done) = n).
      { destruct t as [|kc t]; [contradiction|]. exact Hheight. }
      rewrite Hh. cbn [height length]. rewrite Nat.max_0_r.
      f_equal. rewrite <- app_assoc, !map_app, map_map. cbn [map fst snd].
      f_equal; [|f_equal].
      - rewrite <- (map_id t) at 2. apply map_ext_in. intros [k col] Hin.
        cbn [fst snd]. f_equal. apply pad_full.
        pose proof (Hlen (k, col) (proj2 (list_elem_of_In _ _) Hin)) as Hk.
        cbn [snd] in Hk. lia.
      - apply map_ext. intros c0. f_equal. apply pad_full. rewrite repeat_length. lia.
      - unfold pad. simpl. rewrite Nat.sub_0_r. reflexivity. }
    rewrite (for_each_cons _ c rest _ _ Hstep).
    rewrite (IH (done ++ [c])).
    + rewrite <- app_assoc. reflexivity.
    + rewrite <- app_assoc. exact Hnd.
Qed.


Lemma lookup_map {A B : Type} (f : A -> B) (l : list A) (i : nat) (a : A) :
  l !! i = Some a -> map f l !! i = Some (f a).
Proof.
  revert i. induction l as [|x l IH]; intros [|i] H; try discriminate.
  - injection H as <-. reflexivity.
  - exact (IH i H).
Qed.

Lemma pd_DataFrame_column_strings (name : string) (ls : list string) :
  pd_DataFrame_column name (VList (map AStr ls)) = Ok [(name, map Str ls)].
Proof. unfold pd_DataFrame_column. rewrite comprehension_entry_of. reflexivity. Qed.

Lemma levels_loop (s : PrivateData) (names : list string) (acc : list pyval) :
  (forall c, c ∈ names ->
     dict_get c (categorical_levels s) = Some (VList (map AStr (schema_levels s c)))) ->
  for_each
    (fun levels cat_feature =>
       v ← dict_getitem cat_feature (categorical_levels s);
       Ok (levels ++ [v]))
    names acc
  = Ok (acc ++ map (fun c => VList (map AStr (schema_levels s c))) names).
Proof.
  revert acc. induction names as [|c names IH]; intros acc H.
  - simpl. rewrite app_nil_r. reflexivity.
  - rewrite (for_each_cons _ c names acc (acc ++ [VList (map AStr (schema_levels s c))])).
    + rewrite IH.
      * rewrite <- app_assoc. reflexivity.
      * intros c' Hc'. apply H. right. exact Hc'.
    + unfold dict_getitem. rewrite (H c) by left. reflexivity.
Qed.

Lemma labels_encoding_template (s : PrivateData) :
  labels (encoding_template s)
  = categorical_feature_names s ++ continuous_feature_names s.
Proof.
  unfold encoding_template. cbv zeta. unfold labels. rewrite map_app.
  fold (labels (level_columns s (categorical_feature_names s))).
  rewrite labels_level_columns. f_equal. rewrite map_map. simpl. apply map_id.
Qed.

Lemma dict_get_template_level (s : PrivateData) (c : string) :
  NoDup (categorical_feature_names s ++ continuous_feature_names s) ->
  c ∈ categorical_feature_names s ->
  dict_get c (encoding_template s)
  = Some (pad (list_max (map (fun c0 => length (schema_levels s c0))
                           (categorical_feature_names s)))
            (map Str (schema_levels s c))).
Proof.
  intros _ Hc. unfold encoding_template, level_columns. cbv zeta.
  rewrite dict_get_app.
  rewrite (dict_get_map
             (fun c0 => pad (list_max (map (fun c1 => length (schema_levels s c1))
                                         (categorical_feature_names s)))
                          (map Str (schema_levels s c0)))
             c (categorical_feature_names s) Hc).
  reflexivity.
Qed.

Lemma dict_get_template_missing (s : PrivateData) (c : string) :
  NoDup (categorical_feature_names s ++ continuous_feature_names s) ->
  c ∈ continuous_feature_names s ->
  dict_get c (encoding_template s)
  = Some (repeat NaN (list_max (map (fun c0 => length (schema_levels s c0))
                                  (categorical_feature_names s)))).
Proof.
  intros Hnd Hc. unfold encoding_template. cbv zeta. rewrite dict_get_app.
  rewrite dict_get_absent.
  - exact (dict_get_map
             (fun _ => repeat NaN (list_max (map (fun c0 => length (schema_levels s c0))
                                               (categorical_feature_names s))))
             c (continuous_feature_names s) Hc).
  - change (c ∉ labels (level_columns s (categorical_feature_names s))).
    rewrite labels_level_columns. apply NoDup_app in Hnd.
    destruct Hnd as (_ & Hdisj & _). intros Hin. exact (Hdisj c Hin Hc).
Qed.

Lemma height_encoding_template (s : PrivateData) :
  categorical_feature_names s <> [] ->
  height (encoding_template s)
  = list_max (map (fun c0 => length (schema_levels s c0)) (categorical_feature_names s)).
Proof.
  intros Hne. rewrite <- (height_level_columns s _ Hne).
  unfold encoding_template. cbv zeta.
  destruct (categorical_feature_names s) as [|c0 cs]; [contradiction|]. reflexivity.
Qed.

(** The three loops of [prepare_df_for_encoding], one after the other. *)
Lemma encoding_template_Ok (s : PrivateData) :
  categorical_feature_names s <> [] ->
  NoDup (categorical_feature_names s ++ continuous_feature_names s) ->
  string_levels s ->
  prepare_df_for_encoding s = Ok (encoding_template s).
Proof.
  intros Hne Hnd Hlevels. unfold prepare_df_for_encoding, encoding_template.
  rewrite (levels_loop s (categorical_feature_names s) [] Hlevels).
  cbn [mbind outcome_mbind outcome_bind app].
  pose proof (level_columns_loop s) as Hcat.
  pose proof (height_level_columns s (categorical_feature_names s) Hne) as Hheight.
  pose proof (labels_level_columns s (categorical_feature_names s)) as Hlabels.
  assert (Hlen : forall kc, kc ∈ level_columns s (categorical_feature_names s) ->
            length kc.2
            = list_max (map (fun c => length (schema_levels s c))
                          (categorical_feature_names s))).
  { intros kc Hkc. unfold level_columns in Hkc. cbv zeta in Hkc.
    apply list_elem_of_fmap in Hkc. destruct Hkc as (c & -> & Hc). cbn [snd].
    rewrite length_pad, length_map.
    pose proof (list_max_ge (map (fun c0 => length (schema_levels s c0))
                               (categorical_feature_names s))
                  (length (schema_levels s c))) as Hge.
    assert (Hin : length (schema_levels s c)
                  ∈ map (fun c0 => length (schema_levels s c0))
                      (categorical_feature_names s)).
    { apply list_elem_of_fmap. exists c. split; [reflexivity|exact Hc]. }
    specialize (Hge Hin). lia. }
  destruct (categorical_feature_names s) as [|c0 cs] eqn:Ecats; [contradiction|].
  cbn [list_getitem lookup list_lookup map mbind outcome_mbind outcome_bind].
  rewrite pd_DataFrame_column_strings.
  cbn [mbind outcome_mbind outcome_bind].
  assert (Hfirst : [(c0, map Str (schema_levels s c0))] = level_columns s [c0]).
  { unfold level_columns. cbn [map list_max fold_right]. f_equal. f_equal.
    symmetry. apply pad_full. rewrite length_map. lia. }
  rewrite Hfirst.
  rewrite (for_each_seq _
             (fun df name =>
                temp_df ← pd_DataFrame_column name (VList (map AStr (schema_levels s name)));
                pd_concat df temp_df)
             (c0 :: cs)).
  - cbn [length]. replace (S (length cs) - 1)%nat with (length cs) by lia.
    change (drop 1 (c0 :: cs)) with cs. rewrite firstn_all.
    rewrite (Hcat cs [c0]); [|discriminate|].
    + cbn [mbind outcome_mbind outcome_bind app].
      rewrite (for_each_seq _
                 (fun df name =>
                    temp_df ← pd_DataFrame_column name (VList []);
                    pd_concat df temp_df)
                 (continuous_feature_names s)).
      * rewrite drop_0, firstn_all.
        pose proof (missing_columns_loop
                      (list_max (map (fun c => length (schema_levels s c)) (c0 :: cs)))
                      (level_columns s (c0 :: cs)) (continuous_feature_names s) []) as Hcont.
        cbn [map app] in Hcont. rewrite app_nil_r in Hcont. apply Hcont.
        -- unfold level_columns. discriminate.
        -- exact Hheight.
        -- exact Hlen.
        -- rewrite Hlabels. exact Hnd.
      * intros df i a Hi. unfold list_getitem. rewrite Hi. reflexivity.
      * simpl. lia.
    + apply NoDup_app in Hnd. tauto.
  - intros df i a Hi. unfold list_getitem. rewrite Hi.
    pose proof (lookup_map (fun c => VList (map AStr (schema_levels s c)))
                  (c0 :: cs) i a Hi) as Hm.
    cbn [map] in Hm. rewrite Hm. reflexivity.
  - simpl. lia.
Qed.

(** X10. The table [prepare_df_for_encoding] builds holds every level of every
    categorical feature.  For a schema with at least one categorical feature,
    whose features have distinct names and whose categorical features each
    have a list of strings as levels, the table has one column per
    categorical feature, in schema order, holding the levels of the feature
    in the order they were declared, followed by missing cells up to the
    largest number of levels; then one column per continuous feature, in
    schema order, in which every cell is missing. *)
Theorem prepare_df_for_encoding_template (s : PrivateData) :
  categorical_feature_names s <> [] ->
  NoDup (categorical_feature_names s ++ continuous_feature_names s) ->
  string_levels s ->
  prepare_df_for_encoding s = Ok (encoding_template s) /\
  labels (encoding_template s)
    = categorical_feature_names s ++ continuous_feature_names s /\
  (forall c, c ∈ categorical_feature_names s ->
     exists missing,
       dict_get c (encoding_template s)
       = Some (map Str (schema_levels s c) ++ repeat NaN missing)) /\
  (forall c, c ∈ continuous_feature_names s ->
     dict_get c (encoding_template s)
     = Some (repeat NaN (height (encoding_template s)))).
Proof.
  intros Hne Hnd Hlevels.
  split; [exact (encoding_template_Ok s Hne Hnd Hlevels)|].
  split; [exact (labels_encoding_template s)|]. split.
  - intros c Hc. eexists. rewrite (dict_get_template_level s c Hnd Hc). reflexivity.
  - intros c Hc. rewrite (dict_get_template_missing s c Hnd Hc).
    rewrite (height_encoding_template s Hne). reflexivity.
Qed.

Lemma prepare_df_for_encoding_template_witness :
  encoding_template example_schema
    = [("color", [Str "red"; Str "green"; Str "blue"]); ("age", [NaN; NaN; NaN])] /\
  prepare_df_for_encoding example_schema = Ok (encoding_template example_schema) /\
  labels (encoding_template example_schema)
    = categorical_feature_names example_schema ++ continuous_feature_names example_schema /\
  (forall c, c ∈ categorical_feature_names example_schema ->
     exists missing,
       dict_get c (encoding_template example_schema)
       = Some (map Str (schema_levels example_schema c) ++ repeat NaN missing)) /\
  (forall c, c ∈ continuous_feature_names example_schema ->
     dict_get c (encoding_template example_schema)
     = Some (repeat NaN (height (encoding_template example_schema)))).
Proof.
  split; [reflexivity|].
  apply (prepare_df_for_encoding_template example_schema).
  - discriminate.
  - apply (bool_decide_unpack _). vm_compute. exact I.
  - intros c Hc. apply list_elem_of_singleton in Hc. subst c. reflexivity.
Defined.


(** ** Test inputs *)

(** X11. A schema without categorical features has no table of levels:
    [prepare_df_for_encoding] raises [IndexError] (it reads the first
    categorical feature), and so does [get_test_inputs] with [encode=True],
    for every query that makes a one-row table. *)
Theorem get_test_inputs_no_categorical (s : PrivateData) (params : list atom)
    (test : dataframe) :
  categorical_feature_names s = [] ->
  from_row params (feature_names s) = Ok test ->
  prepare_df_for_encoding s = Raise IndexError /\
  get_test_inputs s params true = Raise IndexError.
Proof.
  intros Hcats Hrow.
  assert (H : prepare_df_for_encoding s = Raise IndexError).
  { unfold prepare_df_for_encoding. rewrite Hcats. reflexivity. }
  split; [exact H|]. unfold get_test_inputs. rewrite Hrow. simpl. rewrite H. reflexivity.
Qed.

Lemma get_test_inputs_no_categorical_witness :
  init continuous_only_params = Ok continuous_only_schema /\
  from_row [AInt 30; AInt 40] (feature_names continuous_only_schema)
    = Ok [("age", [Int 30]); ("hours_per_week", [Int 40])] /\
  prepare_df_for_encoding continuous_only_schema = Raise IndexError /\
  get_test_inputs continuous_only_schema [AInt 30; AInt 40] true = Raise IndexError.
Proof.
  split; [reflexivity|]. split; [reflexivity|].
  apply (get_test_inputs_no_categorical continuous_only_schema [AInt 30; AInt 40]
           [("age", [Int 30]); ("hours_per_week", [Int 40])]).
  - reflexivity.
  - reflexivity.
Defined.


Lemma comprehension_map {A B : Type} (f : A -> outcome B) (g : A -> B) (l : list A) :
  (forall x, x ∈ l -> f x = Ok (g x)) -> comprehension f l = Ok (map g l).
Proof.
  induction l as [|x l IH]; intros H; [reflexivity|]. simpl.
  rewrite (H x) by left. simpl. rewrite IH; [reflexivity|].
  intros y Hy. apply H. right. exact Hy.
Qed.

Lemma entry_of_entry_or_missing (a : atom) :
  a <> ANone -> entry_of a = Ok (entry_or_missing a).
Proof. destruct a; intros H; [contradiction|reflexivity..]. Qed.

Lemma entry_or_missing_num (a : atom) (v : Q) :
  num_of a = Some v -> not_string (entry_or_missing a).
Proof. destruct a; simpl; intros H; try discriminate; exact I. Qed.

(** The cell of a number of a query, after normalisation. *)
Lemma scaled_query (lo hi : Q) (a : atom) (v : Q) (e' : entry) :
  num_of a = Some v -> scaled lo hi e' (entry_or_missing a) ->
  exists w, e' = Num w /\ (w == (v - lo) / (hi - lo))%Q.
Proof.
  destruct a; simpl; intros H; try discriminate; injection H as <-;
    destruct e' as [|w| |]; simpl; intros Hs; try contradiction; exists w; auto.
Qed.

Lemma from_row_Ok (params : list atom) (names : list string) :
  length params = length names ->
  NoDup names ->
  names <> [] ->
  Forall (fun a => a <> ANone) params ->
  from_row params names = Ok (query_row names params).
Proof.
  intros Hlen Hnd Hne Hsome. unfold from_row.
  rewrite (proj2 (Nat.eqb_eq _ _) Hlen). rewrite (bool_decide_eq_true_2 _ Hnd).
  cbn [negb]. destruct names as [|k names]; [contradiction|].
  unfold query_row. apply comprehension_map. intros [k0 a] Hin. cbn [fst snd].
  rewrite entry_of_entry_or_missing; [reflexivity|].
  apply list_elem_of_In, in_combine_r in Hin.
  rewrite List.Forall_forall in Hsome. exact (Hsome a Hin).
Qed.

Lemma labels_query_row (names : list string) (params : list atom) :
  length params = length names -> labels (query_row names params) = names.
Proof.
  unfold labels, query_row. rewrite map_map. cbn [fst].
  revert params. induction names as [|k names IH]; intros [|a params] H;
    try discriminate; [reflexivity|].
  simpl. f_equal. apply IH. simpl in H. lia.
Qed.

Lemma dict_get_query_row (names : list string) (params : list atom) (i : nat)
    (c : string) (a : atom) :
  NoDup names ->
  names !! i = Some c -> params !! i = Some a ->
  dict_get c (query_row names params) = Some [entry_or_missing a].
Proof.
  unfold query_row. revert params i.
  induction names as [|k names IH]; intros [|b params] [|i] Hnd Hc Ha; try discriminate.
  - injection Hc as <-. injection Ha as <-. simpl. rewrite String.eqb_refl. reflexivity.
  - apply NoDup_cons in Hnd. destruct Hnd as [Hk Hnd]. simpl.
    destruct (String.eqb c k) eqn:E.
    + apply String.eqb_eq in E. subst k. exfalso. apply Hk.
      apply (list_elem_of_lookup_2 _ i). exact Hc.
    + exact (IH params i Hnd Hc Ha).
Qed.

(** The loop of [normalize_table]: every step overwrites one column of the
    result. *)
Lemma entries_loop (body : dataframe -> string -> outcome dataframe)
    (P : string -> list entry -> Prop) (names : list string) :
  (forall c g, c ∈ names -> exists col, P c col /\ body g c = Ok (dict_set c col g)) ->
  forall g, exists g',
    for_each body names g = Ok g' /\
    (forall name, name ∈ names -> exists col, P name col /\ dict_get name g' = Some col) /\
    (forall name, name ∉ names -> dict_get name g' = dict_get name g) /\
    ((forall c, c ∈ names -> c ∈ dict_keys g) -> dict_keys g' = dict_keys g).
Proof.
  induction names as [|c names IH]; intros Hbody g.
  - exists g. split; [reflexivity|]. split; [|split]; auto.
    intros name Hn. inversion Hn.
  - destruct (Hbody c g) as (col & HP & Hstep); [left|].
    destruct (IH (fun c' g' Hc' => Hbody c' g' (list_elem_of_further _ _ _ Hc'))
                (dict_set c col g)) as (g' & Hloop & Hin & Hout & Hcols).
    exists g'. split; [simpl; rewrite Hstep; exact Hloop|].
    split; [|split].
    + intros name Hn. destruct (decide (name ∈ names)) as [Hn'|Hn']; [exact (Hin name Hn')|].
      apply elem_of_cons in Hn. destruct Hn as [->|Hn]; [|contradiction].
      exists col. split; [exact HP|]. rewrite (Hout c Hn').
      apply dict_get_set_eq.
    + intros name Hn. apply not_elem_of_cons in Hn. destruct Hn as [Hne Hn].
      rewrite (Hout name Hn). apply dict_get_set_ne. exact Hne.
    + intros Hall. rewrite Hcols.
      * apply dict_set_keys. apply Hall. left.
      * intros c' Hc'. rewrite dict_set_keys by (apply Hall; left).
        apply Hall. right. exact Hc'.
Qed.

Lemma ints_of_not_string (col : list entry) (zs : list Z) :
  ints_of col = Some zs -> col = map Int zs.
Proof.
  revert zs. induction col as [|e col IH]; simpl; intros zs H.
  - injection H as <-. reflexivity.
  - destruct e; try discriminate. destruct (ints_of col) as [zs'|]; [|discriminate].
    injection H as <-. simpl. f_equal. apply IH. reflexivity.
Qed.

Lemma int_cells_Some (col : list entry) (zs : list Z) :
  int_cells col = Some zs -> col = map Int zs.
Proof. destruct col; [discriminate|]. apply ints_of_not_string. Qed.

(** The cells of a column after the subtraction of [lo]: no cell is a string,
    and a number [v] has become [v - lo]. *)
Lemma entries_sub_Ok (col : list entry) (a : atom) (lo : Q) :
  num_of a = Some lo ->
  Forall not_string col ->
  no_overflow lo col ->
  exists col1,
    entries_sub col a = Ok col1 /\
    Forall not_string col1 /\
    Forall2 (fun e1 e =>
               match e, e1 with
               | NaN, NaN => True
               | Num v, Num w => w == v - lo
               | Int z, Num w => w == inject_Z z - lo
               | Int z, Int k => inject_Z k == inject_Z z - lo
               | _, _ => False
               end)%Q col1 col.
Proof.
  intros Ha Hcol Hsafe. unfold entries_sub. rewrite Ha.
  destruct (int_cells col) as [zs|] eqn:Hint.
  - specialize (Hsafe zs Hint). apply int_cells_Some in Hint. subst col.
    assert (Hin : forallb in_int64 zs = true).
    { apply forallb_forall. intros z Hz. rewrite List.Forall_forall in Hsafe.
      apply within_int64_inject. exact (proj1 (Hsafe z Hz)). }
    rewrite Hin. clear Hin Hcol.
    destruct a as [|n|q|]; try discriminate; simpl in Ha; injection Ha as <-.
    + destruct (in_int64 n).
      * eexists. split; [reflexivity|]. split.
        { apply List.Forall_forall. intros e He. apply in_map_iff in He.
          destruct He as (z & <- & _). exact I. }
        induction zs as [|z zs IH]; simpl; [constructor|].
        inversion Hsafe as [|? ? [_ Hz] Hzs]; subst. constructor; [|exact (IH Hzs)].
        rewrite wrap64_in_range; [apply inject_Z_sub|].
        apply within_int64_inject.
        apply (within_int64_Qeq (inject_Z z - inject_Z n)); [|exact Hz].
        symmetry. apply inject_Z_sub.
      * eexists. split; [reflexivity|]. split.
        { apply List.Forall_forall. intros e He. apply in_map_iff in He.
          destruct He as (z & <- & _). exact I. }
        clear Hsafe. induction zs as [|z zs IH]; simpl; constructor; [|exact IH].
        apply inject_Z_sub.
    + eexists. split; [reflexivity|]. split.
      { apply List.Forall_forall. intros e He. apply in_map_iff in He.
        destruct He as (z & <- & _). exact I. }
      clear Hsafe. induction zs as [|z zs IH]; simpl; constructor; [|exact IH].
      reflexivity.
  - clear Hint Hsafe.
    exists (map (fun e => match e with
                          | Num v => Num (v - lo)%Q
                          | Int z => Num (inject_Z z - lo)%Q
                          | _ => NaN
                          end) col).
    split; [|split].
    + apply comprehension_map.
      intros e He. rewrite List.Forall_forall in Hcol.
      specialize (Hcol e (proj1 (list_elem_of_In _ _) He)).
      destruct e; [reflexivity|reflexivity|contradiction|reflexivity].
    + apply List.Forall_forall. intros e He. apply in_map_iff in He.
      destruct He as (e0 & <- & _). destruct e0; exact I.
    + induction col as [|e col IH]; simpl; [constructor|].
      apply Forall_cons in Hcol. destruct Hcol as [He Hcol].
      constructor; [|exact (IH Hcol)].
      destruct e; simpl; [exact I|reflexivity|contradiction|reflexivity].
Qed.

Lemma entries_div_Ok (col : list entry) (d : atom) (q : Q) :
  num_of d = Some q ->
  ~ (q == 0)%Q ->
  Forall not_string col ->
  entries_div col d
  = Ok (map (fun e => match e with
                      | Num v => Num (v / q)%Q
                      | Int z => Num (inject_Z z / q)%Q
                      | _ => NaN
                      end) col).
Proof.
  intros Hd Hq Hcol. unfold entries_div. rewrite Hd.
  destruct (Qeq_bool q 0) eqn:E; [apply Qeq_bool_iff in E; contradiction|].
  apply comprehension_map.
  intros e He. rewrite List.Forall_forall in Hcol.
  specialize (Hcol e (proj1 (list_elem_of_In _ _) He)).
  destruct e; [reflexivity|reflexivity|contradiction|reflexivity].
Qed.

(** One step of [normalize_table]. *)
Lemma normalize_entries_Ok (s : PrivateData) (df g : dataframe) (c : string)
    (col : list entry) (lo hi : Q) :
  dict_get c df = Some col ->
  Forall not_string col ->
  no_overflow lo col ->
  range_of s c = Some (lo, hi) ->
  ~ (hi == lo)%Q ->
  exists col',
    Forall2 (scaled lo hi) col' col /\
    normalize_entries s df g c = Ok (dict_set c col' g).
Proof.
  intros Hcol Hnum Hsafe Hrange Hne.
  destruct (range_of_Some s c lo hi Hrange) as (v & a & b & Hv & Ha & Hb & Hlo & Hhi).
  destruct (atom_sub_num a b lo hi Hlo Hhi) as (d & q & Hd & Hq & Hqeq).
  pose proof (range_width_nonzero lo hi q Hqeq Hne) as Hq0.
  destruct (entries_sub_Ok col a lo Hlo Hnum Hsafe) as (col1 & Hsub & Hnum1 & Hrel).
  exists (map (fun e => match e with
                        | Num v0 => Num (v0 / q)%Q
                        | Int z => Num (inject_Z z / q)%Q
                        | _ => NaN
                        end) col1).
  split.
  - clear Hsub Hnum1 Hcol Hnum Hsafe.
    induction Hrel as [|e1 e col1 col He _ IH]; simpl; [constructor|].
    constructor; [|exact IH].
    destruct e as [|x|x|z]; destruct e1 as [|w|w|k]; cbv beta iota in He;
      try contradiction; unfold scaled; cbv beta iota; try exact I;
      rewrite He, Hqeq; reflexivity.
  - unfold normalize_entries. rewrite Hv. simpl. rewrite Hb, Ha. simpl.
    unfold dict_getitem at 1. rewrite Hcol. simpl.
    rewrite Hsub. simpl. rewrite Hd. simpl.
    rewrite (entries_div_Ok _ d q Hq Hq0 Hnum1). reflexivity.
Qed.

(** [normalize_table] on a table whose continuous columns hold numbers or
    missing cells. *)
Lemma normalize_table_Ok (s : PrivateData) (df : dataframe) :
  (forall c, c ∈ continuous_feature_names s ->
     exists col lo hi,
       dict_get c df = Some col /\ Forall not_string col /\
       range_of s c = Some (lo, hi) /\ ~ (hi == lo)%Q /\ no_overflow lo col) ->
  exists t,
    normalize_table s df = Ok t /\
    labels t = labels df /\
    (forall c, c ∈ continuous_feature_names s ->
       exists col lo hi col',
         dict_get c df = Some col /\
         range_of s c = Some (lo, hi) /\
         dict_get c t = Some col' /\
         Forall2 (scaled lo hi) col' col) /\
    (forall c, c ∉ continuous_feature_names s -> dict_get c t = dict_get c df).
Proof.
  intros Hnum.
  destruct (entries_loop (normalize_entries s df)
              (fun c col' => exists col lo hi,
                 dict_get c df = Some col /\
                 range_of s c = Some (lo, hi) /\
                 Forall2 (scaled lo hi) col' col)
              (continuous_feature_names s)) with (g := df)
    as (t & Hloop & Hin & Hout & Hkeys).
  - intros c g Hc.
    destruct (Hnum c Hc) as (col & lo & hi & Hcol & Hns & Hrange & Hne & Hsafe).
    destruct (normalize_entries_Ok s df g c col lo hi Hcol Hns Hsafe Hrange Hne)
      as (col' & Hscaled & Hstep).
    exists col'. split; [|exact Hstep]. exists col, lo, hi. auto.
  - exists t. split; [exact Hloop|]. split; [|split].
    + apply Hkeys. intros c Hc. destruct (Hnum c Hc) as (col & _ & _ & Hcol & _).
      exact (dict_get_Some_keys c col df Hcol).
    + intros c Hc. destruct (Hin c Hc) as (col' & (col & lo & hi & H1 & H2 & H3) & H4).
      exists col, lo, hi, col'. auto.
    + exact Hout.
Qed.


(** X12. [get_test_inputs] without encoding returns the query as one row,
    with its continuous values normalised.  For a schema whose feature names are
    distinct and include the continuous features, and a query with one value
    per feature, none of them [None], a number for every continuous feature
    (whose range is not empty): the result has the labels [feature_names], in
    that order; the cell of a continuous feature holds the float
    [(v - min) / (max - min)] for the query's value [v], provided that an
    [int] value [v], which makes a column of machine integers, and [v - min]
    are within the range of [int64]; the cell of every other feature holds
    the query's value as it is. *)
Theorem get_test_inputs_raw (s : PrivateData) (params : list atom) :
  length params = length (feature_names s) ->
  NoDup (feature_names s) ->
  feature_names s <> [] ->
  (forall c, c ∈ continuous_feature_names s -> c ∈ feature_names s) ->
  Forall (fun a => a <> ANone) params ->
  (forall i c a,
     feature_names s !! i = Some c -> params !! i = Some a ->
     c ∈ continuous_feature_names s ->
     exists v lo hi,
       num_of a = Some v /\ range_of s c = Some (lo, hi) /\ ~ (hi == lo)%Q /\
       (is_int a = true -> within_int64 v /\ within_int64 (v - lo))) ->
  exists t,
    get_test_inputs s params false = Ok t /\
    labels t = feature_names s /\
    (forall i c a,
       feature_names s !! i = Some c -> params !! i = Some a ->
       c ∈ continuous_feature_names s ->
       exists v lo hi w,
         num_of a = Some v /\ range_of s c = Some (lo, hi) /\
         dict_get c t = Some [Num w] /\ (w == (v - lo) / (hi - lo))%Q) /\
    (forall i c a,
       feature_names s !! i = Some c -> params !! i = Some a ->
       c ∉ continuous_feature_names s ->
       exists e, entry_of a = Ok e /\ dict_get c t = Some [e]).
Proof.
  intros Hlen Hnd Hne Hsub Hsome Hcont.
  unfold get_test_inputs. rewrite (from_row_Ok params _ Hlen Hnd Hne Hsome).
  cbn [mbind outcome_mbind outcome_bind negb].
  destruct (normalize_table_Ok s (query_row (feature_names s) params))
    as (t & Ht & Hlabels & Hin & Hout).
  { intros c Hc. destruct (list_elem_of_lookup_1 _ _ (Hsub c Hc)) as [i Hi].
    destruct (lookup_lt_is_Some_2 params i) as [a Ha].
    { rewrite Hlen. apply (lookup_lt_Some _ _ _ Hi). }
    destruct (Hcont i c a Hi Ha Hc) as (v & lo & hi & Hv & Hrange & Hprop & Hsafe).
    exists [entry_or_missing a], lo, hi. split; [|split; [|split; [|split]]]; try assumption.
    - exact (dict_get_query_row _ _ i c a Hnd Hi Ha).
    - constructor; [exact (entry_or_missing_num a v Hv)|constructor].
    - intros zs Hzs. destruct a as [|z|q|x]; try discriminate.
      simpl in Hzs. injection Hzs as <-. simpl in Hv. injection Hv as <-.
      constructor; [exact (Hsafe eq_refl)|constructor]. }
  exists t. split; [exact Ht|]. split; [|split].
  - rewrite Hlabels. apply labels_query_row. exact Hlen.
  - intros i c a Hi Ha Hc.
    destruct (Hcont i c a Hi Ha Hc) as (v & lo & hi & Hv & Hrange & _).
    destruct (Hin c Hc) as (col & lo' & hi' & col' & Hcol & Hrange' & Hcol' & Hscaled).
    rewrite Hrange in Hrange'. injection Hrange' as <- <-.
    rewrite (dict_get_query_row _ _ i c a Hnd Hi Ha) in Hcol.
    injection Hcol as <-.
    inversion Hscaled as [|e' e l' l He Hl]; subst. inversion Hl; subst.
    destruct (scaled_query lo hi a v e' Hv He) as (w & -> & Hw).
    exists v, lo, hi, w. auto.
  - intros i c a Hi Ha Hc. exists (entry_or_missing a). split.
    + apply entry_of_entry_or_missing.
      rewrite List.Forall_forall in Hsome. apply Hsome.
      apply list_elem_of_In, (list_elem_of_lookup_2 _ i). exact Ha.
    + rewrite (Hout c Hc). exact (dict_get_query_row _ _ i c a Hnd Hi Ha).
Qed.

Lemma get_test_inputs_raw_witness :
  init example_params = Ok example_schema /\
  get_test_inputs example_schema [AInt 30; AStr "red"] false
    = Ok [("age", [Num (inject_Z (30 - 18) / inject_Z (65 - 18))]);
          ("color", [Str "red"])] /\
  exists t,
    get_test_inputs example_schema [AInt 30; AStr "red"] false = Ok t /\
    labels t = feature_names example_schema /\
    (forall i c a,
       feature_names example_schema !! i = Some c ->
       [AInt 30; AStr "red"] !! i = Some a ->
       c ∈ continuous_feature_names example_schema ->
       exists v lo hi w,
         num_of a = Some v /\ range_of example_schema c = Some (lo, hi) /\
         dict_get c t = Some [Num w] /\ (w == (v - lo) / (hi - lo))%Q) /\
    (forall i c a,
       feature_names example_schema !! i = Some c ->
       [AInt 30; AStr "red"] !! i = Some a ->
       c ∉ continuous_feature_names example_schema ->
       exists e, entry_of a = Ok e /\ dict_get c t = Some [e]).
Proof.
  split; [reflexivity|]. split; [vm_compute; reflexivity|].
  apply (get_test_inputs_raw example_schema [AInt 30; AStr "red"]).
  - reflexivity.
  - apply (bool_decide_unpack _). vm_compute. exact I.
  - discriminate.
  - intros c Hc. apply list_elem_of_singleton in Hc. subst c. left.
  - repeat constructor; discriminate.
  - intros i c a Hi Ha Hc. apply list_elem_of_singleton in Hc. subst c.
    destruct i as [|[|i]]; try discriminate. injection Ha as <-.
    exists (inject_Z 30), (inject_Z 18), (inject_Z 65).
    split; [reflexivity|]. split; [reflexivity|]. split; [discriminate|].
    intros _. split; split; discriminate.
Defined.


(** Without the proviso the subtraction wraps around: with the range
    [-2^62, 2^62] the query [2^62], for which the formula gives 1, becomes
    -1. *)
Example get_test_inputs_raw_wraps :
  exists w,
    get_test_inputs wide_schema [AInt (2 ^ 62)] false = Ok [("balance", [Num w])] /\
    (w == - (1))%Q.
Proof. eexists. split; [vm_compute; reflexivity|reflexivity]. Qed.


(** ** Encoding a query *)

Lemma merge_sort_Permutation_eq (l l' : list string) :
  l ≡ₚ l' -> merge_sort String.le l = merge_sort String.le l'.
Proof.
  intros Hp. apply (Sorted_unique String.le).
  - apply Sorted_merge_sort. apply _.
  - apply Sorted_merge_sort. apply _.
  - rewrite !merge_sort_Permutation. exact Hp.
Qed.

Lemma dict_get_elem {V : Type} (k : string) (v : V) (d : dict V) :
  NoDup (dict_keys d) -> (k, v) ∈ d -> dict_get k d = Some v.
Proof.
  induction d as [|[k0 v0] d IH]; intros Hnd Hin; [inversion Hin|].
  simpl in Hnd. apply NoDup_cons in Hnd. destruct Hnd as [Hk0 Hnd].
  apply elem_of_cons in Hin. simpl. destruct Hin as [Heq|Hin].
  - injection Heq as -> ->. rewrite String.eqb_refl. reflexivity.
  - destruct (String.eqb k k0) eqn:E; [|exact (IH Hnd Hin)].
    apply String.eqb_eq in E. subst k0. exfalso. apply Hk0.
    apply list_elem_of_fmap. exists (k, v). split; [reflexivity|exact Hin].
Qed.

Lemma strings_in_app (c1 c2 : list entry) (l1 l2 : list string) :
  strings_in c1 = Ok l1 -> strings_in c2 = Ok l2 -> strings_in (c1 ++ c2) = Ok (l1 ++ l2).
Proof.
  revert l1. induction c1 as [|e c1 IH]; intros l1 H1 H2; simpl in H1.
  - injection H1 as <-. exact H2.
  - destruct e as [|q|x|z]; simpl.
    + exact (IH l1 H1 H2).
    + discriminate.
    + bind_ok H1 l Hl. injection H1 as <-. rewrite (IH l Hl H2). reflexivity.
    + discriminate.
Qed.

Lemma strings_in_Str (ls : list string) : strings_in (map Str ls) = Ok ls.
Proof. induction ls as [|x ls IH]; [reflexivity|]. simpl. rewrite IH. reflexivity. Qed.

Lemma strings_in_NaN (n : nat) : strings_in (repeat NaN n) = Ok [].
Proof. induction n as [|n IH]; [reflexivity|exact IH]. Qed.

(** The categories of a column that holds the levels of a feature, missing
    cells, and one of the levels once more. *)
Lemma categories_levels (n : nat) (ls : list string) (q : string) :
  NoDup ls -> q ∈ ls ->
  categories (pad n (map Str ls) ++ [Str q]) = Ok (merge_sort String.le ls).
Proof.
  intros Hnd Hq. unfold categories, pad.
  rewrite (strings_in_app _ [Str q] (ls ++ []) [q]).
  - cbn [mbind outcome_mbind outcome_bind]. rewrite sorted_strings.
    cbn [mbind outcome_mbind outcome_bind]. rewrite strings_of_map. f_equal.
    apply merge_sort_Permutation_eq. apply NoDup_Permutation.
    + apply NoDup_remove_dups.
    + exact Hnd.
    + intros x. rewrite elem_of_remove_dups, app_nil_r, elem_of_app.
      rewrite list_elem_of_singleton. split; [intros [H| ->]; assumption|auto].
  - apply strings_in_app; [apply strings_in_Str|apply strings_in_NaN].
  - reflexivity.
Qed.


Section Encoding.

Variable s : PrivateData.
Variable params : list atom.

Hypothesis Hwf : well_formed s.
Hypothesis Hne : categorical_feature_names s <> [].
Hypothesis Hfits : fits s params.

Lemma query_value (c : string) :
  c ∈ feature_names s ->
  exists i a, feature_names s !! i = Some c /\ params !! i = Some a.
Proof.
  intros Hc. destruct (list_elem_of_lookup_1 _ _ Hc) as [i Hi].
  destruct (lookup_lt_is_Some_2 params i) as [a Ha].
  { rewrite (proj1 Hfits). apply (lookup_lt_Some _ _ _ Hi). }
  exists i, a. auto.
Qed.

Lemma stacked_level (c : string) :
  c ∈ categorical_feature_names s ->
  exists i q,
    feature_names s !! i = Some c /\ params !! i = Some (AStr q) /\
    q ∈ schema_levels s c /\
    stacked s params c
    = pad (list_max (map (fun c0 => length (schema_levels s c0))
                       (categorical_feature_names s)))
        (map Str (schema_levels s c)) ++ [Str q].
Proof.
  intros Hc. destruct Hwf as (Hnames & Hsame & Hnd & _).
  destruct (query_value c) as (i & a & Hi & Ha).
  { apply Hsame, elem_of_app. left. exact Hc. }
  destruct Hfits as (_ & _ & Hcat). destruct (Hcat i c a Hi Ha Hc) as (q & -> & Hq).
  exists i, q. split; [exact Hi|]. split; [exact Ha|]. split; [exact Hq|].
  unfold stacked, column_or_missing.
  rewrite (dict_get_template_level s c Hnd Hc).
  rewrite (dict_get_query_row _ _ i c (AStr q) Hnames Hi Ha). reflexivity.
Qed.

Lemma stacked_number (c : string) :
  c ∈ continuous_feature_names s ->
  exists i a v lo hi,
    feature_names s !! i = Some c /\ params !! i = Some a /\
    num_of a = Some v /\ range_of s c = Some (lo, hi) /\ ~ (hi == lo)%Q /\
    stacked s params c
    = repeat NaN (list_max (map (fun c0 => length (schema_levels s c0))
                              (categorical_feature_names s))) ++ [entry_or_missing a].
Proof.
  intros Hc. destruct Hwf as (Hnames & Hsame & Hnd & _).
  destruct (query_value c) as (i & a & Hi & Ha).
  { apply Hsame, elem_of_app. right. exact Hc. }
  destruct Hfits as (_ & Hcont & _).
  destruct (Hcont i c a Hi Ha Hc) as (v & lo & hi & Hv & Hrange & Hprop).
  exists i, a, v, lo, hi. repeat (split; [assumption|]).
  unfold stacked, column_or_missing.
  rewrite (dict_get_template_missing s c Hnd Hc).
  rewrite (dict_get_query_row _ _ i c a Hnames Hi Ha). reflexivity.
Qed.

(** The table of levels has at least one row. *)
Lemma template_height_pos :
  (0 < list_max (map (fun c0 => length (schema_levels s c0))
                   (categorical_feature_names s)))%nat.
Proof.
  destruct (categorical_feature_names s) as [|c cats] eqn:E; [contradiction|].
  assert (Hc : c ∈ categorical_feature_names s) by (rewrite E; left).
  destruct (stacked_level c Hc) as (i & q & _ & _ & Hq & _).
  cbn [map list_max fold_right].
  destruct (schema_levels s c) as [|x l]; [inversion Hq|]. simpl. lia.
Qed.

Lemma stacked_no_overflow (c : string) (lo : Q) :
  c ∈ continuous_feature_names s -> no_overflow lo (stacked s params c).
Proof.
  intros Hc zs Hzs.
  destruct (stacked_number c Hc) as (i & a & v & lo' & hi & _ & _ & _ & _ & _ & Hstack).
  rewrite Hstack in Hzs. pose proof template_height_pos as Hpos.
  destruct (list_max _) as [|n]; [lia|]. discriminate Hzs.
Qed.

Lemma params_not_None : Forall (fun a => a <> ANone) params.
Proof.
  apply List.Forall_forall. intros a Ha. apply list_elem_of_In in Ha.
  apply list_elem_of_lookup_1 in Ha. destruct Ha as [i Ha].
  destruct (lookup_lt_is_Some_2 (feature_names s) i) as [c Hi].
  { rewrite <- (proj1 Hfits). apply (lookup_lt_Some _ _ _ Ha). }
  destruct Hwf as (_ & Hsame & _). destruct Hfits as (_ & Hcont & Hcat).
  assert (Hc : c ∈ feature_names s) by (apply (list_elem_of_lookup_2 _ i); exact Hi).
  apply Hsame, elem_of_app in Hc. destruct Hc as [Hc|Hc].
  - destruct (Hcat i c a Hi Ha Hc) as (q & -> & _). discriminate.
  - destruct (Hcont i c a Hi Ha Hc) as (v & _ & _ & Hv & _). intros ->. discriminate.
Qed.

Lemma feature_names_nonempty : feature_names s <> [].
Proof.
  destruct Hwf as (_ & Hsame & _).
  destruct (categorical_feature_names s) as [|c cs] eqn:E; [contradiction|].
  intros Hnil. assert (Hc : c ∈ feature_names s) by (apply Hsame; left).
  rewrite Hnil in Hc. inversion Hc.
Qed.

(** The rows of the query under the table of levels. *)
Lemma append_rows_stacked :
  append_rows (encoding_template s) (query_row (feature_names s) params)
  = map (fun k => (k, stacked s params k))
      (categorical_feature_names s ++ continuous_feature_names s).
Proof.
  destruct Hwf as (_ & Hsame & _). unfold append_rows.
  assert (Hf : filter (fun k => k ∉ labels (encoding_template s))
                 (labels (query_row (feature_names s) params)) = []).
  { apply filter_none. intros k Hk Hnot. apply Hnot.
    rewrite labels_encoding_template. apply Hsame.
    rewrite (labels_query_row _ _ (proj1 Hfits)) in Hk. exact Hk. }
  rewrite Hf, app_nil_r, labels_encoding_template. reflexivity.
Qed.

Lemma labels_encoded_stack : labels (encoded_stack s params) = schema_layout s.
Proof.
  unfold labels, encoded_stack, schema_layout. rewrite map_app. f_equal.
  - rewrite map_map. simpl. apply map_id.
  - rewrite concat_map, map_map, flat_map_concat_map. f_equal.
    apply map_ext. intros c. unfold dummy_columns. rewrite map_map. reflexivity.
Qed.

Lemma dummies_stacked (c : string) :
  c ∈ categorical_feature_names s ->
  dummies c (stacked s params c) = Ok (dummy_columns s params c).
Proof.
  intros Hc. destruct (stacked_level c Hc) as (i & q & _ & _ & Hq & Hstack).
  unfold dummies. rewrite Hstack at 1.
  rewrite categories_levels; [reflexivity| |exact Hq].
  destruct Hwf as (_ & _ & _ & _ & Hdistinct). exact (Hdistinct c Hc).
Qed.

End Encoding.


Lemma schema_layout_nonempty (s : PrivateData) (params : list atom) :
  well_formed s -> fits s params -> categorical_feature_names s <> [] ->
  schema_layout s <> [].
Proof.
  intros Hwf Hfits Hne.
  destruct (categorical_feature_names s) as [|c cs] eqn:E; [contradiction|].
  assert (Hc : c ∈ categorical_feature_names s) by (rewrite E; left).
  destruct (stacked_level s params Hwf Hfits c Hc) as (i & q & _ & _ & Hq & _).
  assert (Hin : encoded_name c q ∈ schema_layout s).
  { unfold schema_layout. rewrite elem_of_app. right.
    apply list_elem_of_In, in_flat_map. exists c. split.
    - apply list_elem_of_In. exact Hc.
    - apply in_map, list_elem_of_In. rewrite merge_sort_Permutation. exact Hq. }
  intros Hnil. rewrite Hnil in Hin. inversion Hin.
Qed.

(** [one_hot_encode_data] on the stacked rows: the columns of the continuous
    features, then the indicator columns of each categorical feature. *)
Lemma one_hot_encode_stacked (s : PrivateData) (params : list atom) :
  well_formed s -> fits s params -> categorical_feature_names s <> [] ->
  NoDup (schema_layout s) ->
  one_hot_encode_data s
    (map (fun k => (k, stacked s params k))
       (categorical_feature_names s ++ continuous_feature_names s))
  = Ok (encoded_stack s params).
Proof.
  intros Hwf Hfits Hne Hlayout.
  pose proof Hwf as (_ & _ & Hnd & _).
  pose proof (proj1 (NoDup_app _ _) Hnd) as (Hcats & Hdisj & Hconts).
  assert (Hrest : forall (dec : forall kc : string * list entry,
                                  Decision (kc.1 ∉ categorical_feature_names s)),
            @filter _ _ (@list_filter _)
              (fun kc : string * list entry => kc.1 ∉ categorical_feature_names s) dec
              (map (fun k => (k, stacked s params k))
                 (categorical_feature_names s ++ continuous_feature_names s))
            = map (fun k => (k, stacked s params k)) (continuous_feature_names s)).
  { intros dec. rewrite map_app, filter_app. rewrite filter_none, filter_all; [reflexivity| |].
    - apply List.Forall_forall. intros kc Hkc. apply in_map_iff in Hkc.
      destruct Hkc as (k & <- & Hk). apply list_elem_of_In in Hk. cbn [fst].
      intros Hin. exact (Hdisj k Hin Hk).
    - intros kc Hkc. apply list_elem_of_In, in_map_iff in Hkc.
      destruct Hkc as (k & <- & Hk). apply list_elem_of_In in Hk. cbn [fst]. auto. }
  assert (Hsel : comprehension
                   (fun k => c ← dict_getitem k
                                  (map (fun k0 => (k0, stacked s params k0))
                                     (categorical_feature_names s
                                      ++ continuous_feature_names s));
                             Ok (k, c))
                   (categorical_feature_names s)
                 = Ok (map (fun k => (k, stacked s params k)) (categorical_feature_names s))).
  { apply comprehension_map. intros k Hk. unfold dict_getitem.
    rewrite (dict_get_map (stacked s params) k); [reflexivity|].
    apply elem_of_app. left. exact Hk. }
  assert (Hdum : comprehension (fun kc : string * list entry => dummies kc.1 kc.2)
                   (map (fun k => (k, stacked s params k)) (categorical_feature_names s))
                 = Ok (map (dummy_columns s params) (categorical_feature_names s))).
  { rewrite (comprehension_map _ (fun kc => dummy_columns s params kc.1)).
    - rewrite map_map. reflexivity.
    - intros kc Hkc. apply list_elem_of_In, in_map_iff in Hkc.
      destruct Hkc as (k & <- & Hk). apply list_elem_of_In in Hk. cbn [fst snd].
      exact (dummies_stacked s params Hwf Hfits k Hk). }
  unfold one_hot_encode_data, get_dummies.
  rewrite (bool_decide_eq_true_2 _ Hcats). rewrite Hsel.
  cbn [mbind outcome_mbind outcome_bind]. rewrite Hdum.
  cbn [mbind outcome_mbind outcome_bind]. cbv zeta. rewrite Hrest.
  fold (encoded_stack s params).
  assert (Hlab : NoDup (labels (encoded_stack s params))).
  { rewrite labels_encoded_stack. exact Hlayout. }
  rewrite (bool_decide_eq_true_2 _ Hlab).
  destruct (encoded_stack s params) as [|kc t] eqn:E; [|reflexivity].
  exfalso. apply (schema_layout_nonempty s params Hwf Hfits Hne).
  rewrite <- (labels_encoded_stack s params), E. reflexivity.
Qed.


Lemma labels_tail_rows (k : nat) (t : dataframe) : labels (tail_rows k t) = labels t.
Proof. unfold labels, tail_rows. rewrite map_map. reflexivity. Qed.

Lemma dict_get_tail_rows (k : nat) (t : dataframe) (c : string) (col : list entry) :
  dict_get c t = Some col ->
  dict_get c (tail_rows k t) = Some (drop (length col - k) col).
Proof.
  induction t as [|[k0 col0] t IH]; simpl; [discriminate|].
  destruct (String.eqb c k0); [|exact IH].
  intros H. injection H as ->. reflexivity.
Qed.

Lemma drop_last {A : Type} (l : list A) (x : A) :
  drop (length (l ++ [x]) - 1) (l ++ [x]) = [x].
Proof.
  rewrite length_app. simpl. replace (length l + 1 - 1)%nat with (length l) by lia.
  apply drop_app_length.
Qed.

Lemma height_query_row (names : list string) (params : list atom) :
  names <> [] -> length params = length names -> height (query_row names params) = 1%nat.
Proof.
  destruct names as [|k names]; [contradiction|]. destruct params as [|a params];
    [discriminate|]. reflexivity.
Qed.

Lemma lookup_unique (names : list string) (i j : nat) (c : string) :
  NoDup names -> names !! i = Some c -> names !! j = Some c -> i = j.
Proof. intros Hnd Hi Hj. exact (NoDup_lookup names i j c Hnd Hi Hj). Qed.

(** [get_test_inputs] with encoding, step by step. *)
Lemma get_test_inputs_encoded_Ok (s : PrivateData) (params : list atom) :
  well_formed s -> fits s params -> categorical_feature_names s <> [] ->
  NoDup (schema_layout s) ->
  exists t,
    get_test_inputs s params true = Ok t /\
    labels t = schema_layout s /\
    (forall i c a,
       feature_names s !! i = Some c -> params !! i = Some a ->
       c ∈ continuous_feature_names s ->
       exists v lo hi w,
         num_of a = Some v /\ range_of s c = Some (lo, hi) /\
         dict_get c t = Some [Num w] /\ (w == (v - lo) / (hi - lo))%Q) /\
    (forall i c q level,
       feature_names s !! i = Some c -> params !! i = Some (AStr q) ->
       c ∈ categorical_feature_names s -> level ∈ schema_levels s c ->
       dict_get (encoded_name c level) t
       = Some [Num (if String.eqb q level then 1 else 0)]).
Proof.
  intros Hwf Hfits Hne Hlayout.
  pose proof Hwf as (Hnames & Hsame & Hnd & Hlevels & Hdistinct).
  pose proof (feature_names_nonempty s Hwf Hne) as Hnonempty.
  assert (Hkeys : NoDup (dict_keys (encoded_stack s params))).
  { change (NoDup (labels (encoded_stack s params))).
    rewrite labels_encoded_stack. exact Hlayout. }
  assert (Hget_cont : forall c, c ∈ continuous_feature_names s ->
            dict_get c (encoded_stack s params) = Some (stacked s params c)).
  { intros c Hc. apply (dict_get_elem _ _ _ Hkeys). unfold encoded_stack.
    apply elem_of_app. left. apply list_elem_of_In, in_map_iff.
    exists c. split; [reflexivity|apply list_elem_of_In; exact Hc]. }
  assert (Hget_dummy : forall c level,
            c ∈ categorical_feature_names s -> level ∈ schema_levels s c ->
            dict_get (encoded_name c level) (encoded_stack s params)
            = Some (map (indicator level) (stacked s params c))).
  { intros c level Hc Hlevel. apply (dict_get_elem _ _ _ Hkeys). unfold encoded_stack.
    apply elem_of_app. right. apply list_elem_of_In, in_concat.
    exists (dummy_columns s params c). split.
    - apply in_map, list_elem_of_In. exact Hc.
    - unfold dummy_columns. apply in_map_iff. exists level. split; [reflexivity|].
      apply list_elem_of_In. rewrite merge_sort_Permutation. exact Hlevel. }
  destruct (normalize_table_Ok s (encoded_stack s params))
    as (t' & Ht' & Hlab & Hin & Hout).
  { intros c Hc.
    destruct (stacked_number s params Hwf Hfits c Hc)
      as (i & a & v & lo & hi & _ & _ & Hv & Hrange & Hprop & Hstack).
    exists (stacked s params c), lo, hi. split; [exact (Hget_cont c Hc)|].
    split; [|split; [assumption|split; [assumption|]]].
    - rewrite Hstack. apply Forall_app. split.
      + apply List.Forall_forall. intros e He. apply repeat_spec in He. subst e. exact I.
      + constructor; [exact (entry_or_missing_num a v Hv)|constructor].
    - exact (stacked_no_overflow s params Hwf Hne Hfits c lo Hc). }
  exists (tail_rows 1 t'). split; [|split; [|split]].
  - unfold get_test_inputs.
    rewrite (from_row_Ok params _ (proj1 Hfits) Hnames Hnonempty
               (params_not_None s params Hwf Hfits)).
    cbn [mbind outcome_mbind outcome_bind negb].
    rewrite (encoding_template_Ok s Hne Hnd Hlevels).
    cbn [mbind outcome_mbind outcome_bind].
    rewrite (append_rows_stacked s params Hwf Hfits).
    rewrite (one_hot_encode_stacked s params Hwf Hfits Hne Hlayout).
    cbn [mbind outcome_mbind outcome_bind]. rewrite Ht'.
    cbn [mbind outcome_mbind outcome_bind].
    rewrite (height_query_row _ _ Hnonempty (proj1 Hfits)). reflexivity.
  - rewrite labels_tail_rows, Hlab. apply labels_encoded_stack.
  - intros i c a Hi Ha Hc.
    destruct (stacked_number s params Hwf Hfits c Hc)
      as (i' & a' & v & lo & hi & Hi' & Ha' & Hv & Hrange & _ & Hstack).
    pose proof (lookup_unique _ i i' c Hnames Hi Hi') as <-.
    rewrite Ha in Ha'. injection Ha' as <-.
    destruct (Hin c Hc) as (col & lo' & hi' & col' & Hcol & Hrange' & Hcol' & Hscaled).
    rewrite Hrange in Hrange'. injection Hrange' as <- <-.
    rewrite (Hget_cont c Hc), Hstack in Hcol. injection Hcol as <-.
    apply Forall2_app_inv_r in Hscaled.
    destruct Hscaled as (l1 & l2 & _ & Hl2 & ->).
    inversion Hl2 as [|e' e l' l He Hl]; subst. inversion Hl; subst.
    destruct (scaled_query lo hi a v e' Hv He) as (w & -> & Hw).
    exists v, lo, hi, w. split; [exact Hv|]. split; [exact Hrange|]. split; [|exact Hw].
    rewrite (dict_get_tail_rows 1 t' c _ Hcol'). rewrite drop_last. reflexivity.
  - intros i c q level Hi Ha Hc Hlevel.
    destruct (stacked_level s params Hwf Hfits c Hc) as (i' & q' & Hi' & Ha' & _ & Hstack).
    pose proof (lookup_unique _ i i' c Hnames Hi Hi') as <-.
    rewrite Ha in Ha'. injection Ha' as <-.
    assert (Hnot : encoded_name c level ∉ continuous_feature_names s).
    { unfold schema_layout in Hlayout. apply NoDup_app in Hlayout.
      destruct Hlayout as (_ & Hdisj & _). intros Hcont. apply (Hdisj _ Hcont).
      apply list_elem_of_In, in_flat_map. exists c. split.
      - apply list_elem_of_In. exact Hc.
      - apply in_map, list_elem_of_In. rewrite merge_sort_Permutation. exact Hlevel. }
    pose proof (Hget_dummy c level Hc Hlevel) as Hd. rewrite <- (Hout _ Hnot) in Hd.
    rewrite (dict_get_tail_rows 1 t' _ _ Hd). rewrite Hstack, map_app. cbn [map].
    rewrite drop_last. cbn [indicator]. destruct (String.eqb q level); reflexivity.
Qed.


Lemma init_well_formed (p : params) (s : PrivateData) :
  init p = Ok s ->
  NoDup (feature_names s) ->
  string_levels s ->
  (forall c, c ∈ categorical_feature_names s -> NoDup (schema_levels s c)) ->
  well_formed s.
Proof.
  intros Hinit Hnames Hlevels Hdistinct.
  destruct (init_layout p s Hinit) as (d & _ & Hkeys & Hcont & Hcat & _).
  split; [exact Hnames|]. split; [|split; [|split; assumption]].
  - intros c. rewrite elem_of_app, Hcat, Hcont, Hkeys, !list_elem_of_filter.
    destruct (is_continuous d c); intuition congruence.
  - apply NoDup_app. rewrite Hcat, Hcont. rewrite Hkeys in Hnames.
    split; [apply NoDup_filter; exact Hnames|].
    split; [|apply NoDup_filter; exact Hnames].
    intros c Hc Hc'. apply list_elem_of_filter in Hc, Hc'. destruct Hc, Hc'. congruence.
Qed.

Lemma init_schema_layout (p : params) (s : PrivateData) :
  init p = Ok s ->
  categorical_feature_names s <> [] ->
  encoded_feature_names s = Some (schema_layout s).
Proof.
  intros Hinit Hne.
  destruct (init_layout p s Hinit) as (d & _ & _ & Hcont & Hcat & _ & Hlev & Henc).
  destruct (Henc Hne) as [_ ->]. f_equal.
  unfold encoded_layout, schema_layout. rewrite <- Hcont, <- Hcat. f_equal.
  apply flat_map_ext_Forall, List.Forall_forall. intros c Hc. apply list_elem_of_In in Hc.
  unfold one_hot_columns, declared_levels, schema_levels. rewrite (Hlev c Hc). reflexivity.
Qed.

(** X13. [get_test_inputs] with encoding returns the query as one row of the
    encoded space.  For a schema the constructor built from a mapping with
    distinct feature names, at least one categorical feature, a list of
    distinct strings as the levels of each categorical feature and distinct
    encoded feature names, and for a query that holds one value per feature,
    a number for each continuous feature (whose range is not empty) and a
    declared level for each categorical feature: the result is one row whose
    labels are [encoded_feature_names], in that order; the cell of a
    continuous feature holds [(v - min) / (max - min)] for the query's value
    [v]; the cell ["<feature>_<level>"] holds 1 when the query gives the
    level for the feature and 0 when it gives another level. *)
Theorem get_test_inputs_encoded (p : params) (s : PrivateData) (query : list atom) :
  init p = Ok s ->
  NoDup (feature_names s) ->
  categorical_feature_names s <> [] ->
  string_levels s ->
  (forall c, c ∈ categorical_feature_names s -> NoDup (schema_levels s c)) ->
  (forall names, encoded_feature_names s = Some names -> NoDup names) ->
  fits s query ->
  exists t,
    get_test_inputs s query true = Ok t /\
    encoded_feature_names s = Some (labels t) /\
    (forall i c a,
       feature_names s !! i = Some c -> query !! i = Some a ->
       c ∈ continuous_feature_names s ->
       exists v lo hi w,
         num_of a = Some v /\ range_of s c = Some (lo, hi) /\
         dict_get c t = Some [Num w] /\ (w == (v - lo) / (hi - lo))%Q) /\
    (forall i c q level,
       feature_names s !! i = Some c -> query !! i = Some (AStr q) ->
       c ∈ categorical_feature_names s -> level ∈ schema_levels s c ->
       dict_get (encoded_name c level) t
       = Some [Num (if String.eqb q level then 1 else 0)]).
Proof.
  intros Hinit Hnames Hne Hlevels Hdistinct Hencoded Hfits.
  pose proof (init_well_formed p s Hinit Hnames Hlevels Hdistinct) as Hwf.
  pose proof (init_schema_layout p s Hinit Hne) as Hlayout.
  destruct (get_test_inputs_encoded_Ok s query Hwf Hfits Hne (Hencoded _ Hlayout))
    as (t & Ht & Hlabels & Hcont & Hcat).
  exists t. split; [exact Ht|]. split; [|split; assumption].
  rewrite Hlabels. exact Hlayout.
Qed.

Lemma fits_example : fits example_schema [AInt 30; AStr "red"].
Proof.
  split; [reflexivity|]. split.
  - intros i c a Hi Ha Hc. apply list_elem_of_singleton in Hc. subst c.
    destruct i as [|[|i]]; try discriminate. injection Ha as <-.
    exists (inject_Z 30), (inject_Z 18), (inject_Z 65).
    split; [reflexivity|]. split; [reflexivity|]. discriminate.
  - intros i c a Hi Ha Hc. apply list_elem_of_singleton in Hc. subst c.
    destruct i as [|[|[|i]]]; try discriminate. injection Ha as <-.
    exists "red". split; [reflexivity|]. left.
Qed.

Lemma get_test_inputs_encoded_witness :
  init example_params = Ok example_schema /\
  get_test_inputs example_schema [AInt 30; AStr "red"] true
    = Ok [("age", [Num ((inject_Z 30 - inject_Z 18) / inject_Z (65 - 18))]);
          ("color_blue", [Num 0]); ("color_green", [Num 0]); ("color_red", [Num 1])] /\
  exists t,
    get_test_inputs example_schema [AInt 30; AStr "red"] true = Ok t /\
    encoded_feature_names example_schema = Some (labels t) /\
    (forall i c a,
       feature_names example_schema !! i = Some c ->
       [AInt 30; AStr "red"] !! i = Some a ->
       c ∈ continuous_feature_names example_schema ->
       exists v lo hi w,
         num_of a = Some v /\ range_of example_schema c = Some (lo, hi) /\
         dict_get c t = Some [Num w] /\ (w == (v - lo) / (hi - lo))%Q) /\
    (forall i c q level,
       feature_names example_schema !! i = Some c ->
       [AInt 30; AStr "red"] !! i = Some (AStr q) ->
       c ∈ categorical_feature_names example_schema ->
       level ∈ schema_levels example_schema c ->
       dict_get (encoded_name c level) t
       = Some [Num (if String.eqb q level then 1 else 0)]).
Proof.
  split; [reflexivity|]. split; [vm_compute; reflexivity|].
  apply (get_test_inputs_encoded example_params example_schema [AInt 30; AStr "red"]).
  - reflexivity.
  - apply (bool_decide_unpack _). vm_compute. exact I.
  - discriminate.
  - intros c Hc. apply list_elem_of_singleton in Hc. subst c. reflexivity.
  - intros c Hc. apply list_elem_of_singleton in Hc. subst c.
    apply (bool_decide_unpack _). vm_compute. exact I.
  - intros names H. injection H as <-. exact NoDup_example.
  - exact fits_example.
Defined.


(** ** Median absolute deviations *)

(** X14. [get_mads_from_training_data] returns what the constructor stored,
    whatever its [normalized] argument: the [mad] entry of the constructor's
    argument as supplied (it is not checked against the features), or, when
    the entry is absent, a list with one [1.0] per declared feature,
    continuous or categorical. *)
Theorem get_mads_default (p : params) (s : PrivateData) (normalized : bool) :
  init p = Ok s ->
  get_mads_from_training_data s normalized
  = match params_mad p with
    | Some m => m
    | None => OVal (VList (repeat (AFloat 1) (length (feature_names s))))
    end.
Proof.
  intros H. apply init_Ok in H.
  destruct H as (d & o & c & ci & ca & enc & tp & _ & _ & _ & _ & _ & _ & ->).
  unfold get_mads_from_training_data, dict_keys. cbn [mad feature_names].
  rewrite length_map. reflexivity.
Qed.

Lemma get_mads_default_witness :
  init example_params = Ok example_schema /\
  get_mads_from_training_data example_schema true = OVal (VList [AFloat 1; AFloat 1]) /\
  get_mads_from_training_data example_schema false
  = match params_mad example_params with
    | Some m => m
    | None => OVal (VList (repeat (AFloat 1) (length (feature_names example_schema))))
    end.
Proof.
  split; [reflexivity|]. split; [reflexivity|].
  apply (get_mads_default example_params example_schema false). reflexivity.
Defined.


(** ** Encoding, then decoding *)

Lemma categories_strings (vs : list string) :
  categories (map Str vs) = Ok (merge_sort String.le (remove_dups vs)).
Proof.
  unfold categories. rewrite strings_in_Str. cbn [mbind outcome_mbind outcome_bind].
  rewrite sorted_strings. cbn [mbind outcome_mbind outcome_bind].
  rewrite strings_of_map. reflexivity.
Qed.

Lemma entry_strings_Str (vs : list string) : entry_strings (map Str vs) = vs.
Proof.
  unfold entry_strings. induction vs as [|v vs IH]; [reflexivity|].
  simpl. f_equal. exact IH.
Qed.

(** [one_hot_encode_data] on a table whose categorical columns hold
    strings. *)
Lemma one_hot_encode_data_Ok (s : PrivateData) (t e : dataframe) :
  NoDup (categorical_feature_names s) ->
  (forall c, c ∈ categorical_feature_names s ->
     dict_get c t = Some (map Str (strings_at t c))) ->
  one_hot_encode_data s t = Ok e ->
  e = others (categorical_feature_names s) t ++
      concat (map (observed_dummies t) (categorical_feature_names s)) /\
  NoDup (labels e).
Proof.
  intros Hcats Hcols He. unfold one_hot_encode_data, get_dummies in He.
  rewrite (bool_decide_eq_true_2 _ Hcats) in He.
  rewrite (comprehension_map _ (fun k => (k, map Str (strings_at t k)))) in He.
  2:{ intros k Hk. unfold dict_getitem. rewrite (Hcols k Hk). reflexivity. }
  cbn [mbind outcome_mbind outcome_bind] in He.
  rewrite (comprehension_map _ (fun kc => observed_dummies t kc.1)) in He.
  2:{ intros kc Hkc. apply list_elem_of_In, in_map_iff in Hkc.
      destruct Hkc as (k & <- & Hk). cbn [fst snd]. unfold dummies.
      rewrite categories_strings. reflexivity. }
  cbn [mbind outcome_mbind outcome_bind] in He. rewrite map_map in He.
  cbn [fst] in He. cbv zeta in He.
  fold (others (categorical_feature_names s) t) in He.
  destruct (bool_decide (NoDup (labels
              (others (categorical_feature_names s) t ++
               concat (map (observed_dummies t) (categorical_feature_names s))))))
    eqn:E; [|discriminate].
  apply bool_decide_eq_true_1 in E.
  destruct (others (categorical_feature_names s) t ++
            concat (map (observed_dummies t) (categorical_feature_names s)))
    as [|kc r] eqn:Er; [discriminate|].
  injection He as <-. split; [reflexivity|exact E].
Qed.

Lemma to_frame_columns (t : dataframe) (f : frame) :
  to_frame t = Some f -> columns f = labels t.
Proof.
  revert f. induction t as [|[k c] t IH]; intros f H; simpl in H.
  - injection H as <-. reflexivity.
  - destruct (column_of_entries c) as [col|]; [|discriminate]. simpl in H.
    destruct (to_frame t) as [f'|]; [|discriminate]. injection H as <-.
    simpl. f_equal. apply IH. reflexivity.
Qed.

Lemma to_frame_get (t : dataframe) (f : frame) (k : string) (col : list entry) :
  to_frame t = Some f ->
  dict_get k t = Some col ->
  exists col', column_of_entries col = Some col' /\ frame_get k f = Some col'.
Proof.
  revert f. induction t as [|[k0 c] t IH]; intros f H Hk; simpl in H, Hk; [discriminate|].
  destruct (column_of_entries c) as [col0|] eqn:Ec; [|discriminate]. simpl in H.
  destruct (to_frame t) as [f'|]; [|discriminate]. injection H as <-.
  unfold frame_get. simpl. destruct (String.eqb k k0).
  - injection Hk as <-. exists col0. auto.
  - exact (IH f' eq_refl Hk).
Qed.

Lemma to_frame_get_None (t : dataframe) (f : frame) (k : string) :
  to_frame t = Some f -> dict_get k t = None -> frame_get k f = None.
Proof.
  revert f. induction t as [|[k0 c] t IH]; intros f H Hk; simpl in H, Hk.
  - injection H as <-. reflexivity.
  - destruct (column_of_entries c) as [col0|] eqn:Ec; [|discriminate]. simpl in H.
    destruct (to_frame t) as [f'|]; [|discriminate]. injection H as <-.
    unfold frame_get. simpl. destruct (String.eqb k k0); [discriminate|].
    exact (IH f' eq_refl Hk).
Qed.

Lemma numbers_of_indicator (level : string) (vs : list string) :
  numbers_of (map (indicator level) (map Str vs))
  = Some (map (fun v => if String.eqb v level then 1%Q else 0%Q) vs).
Proof.
  induction vs as [|v vs IH]; [reflexivity|]. simpl.
  destruct (String.eqb v level); simpl; rewrite IH; reflexivity.
Qed.

Lemma column_of_indicator (level : string) (vs : list string) :
  column_of_entries (map (indicator level) (map Str vs))
  = Some (NumCol (map (fun v => if String.eqb v level then 1%Q else 0%Q) vs)).
Proof.
  pose proof (numbers_of_indicator level vs) as H. unfold column_of_entries.
  destruct vs as [|v vs]; [reflexivity|]. simpl in H |- *.
  destruct (String.eqb v level); simpl in H |- *; rewrite H; reflexivity.
Qed.


Lemma position_lt (x : string) (l : list string) :
  x ∈ l -> (position x l < length l)%nat.
Proof.
  induction l as [|y l IH]; intros H; [inversion H|]. simpl.
  destruct (String.eqb y x) eqn:E; [lia|].
  apply elem_of_cons in H. destruct H as [->|H].
  - rewrite String.eqb_refl in E. discriminate.
  - specialize (IH H). lia.
Qed.

Lemma nth_position (x : string) (l : list string) :
  x ∈ l -> nth (position x l) l "" = x.
Proof.
  induction l as [|y l IH]; intros H; [inversion H|]. simpl.
  destruct (String.eqb y x) eqn:E.
  - apply String.eqb_eq in E. exact E.
  - apply elem_of_cons in H. destruct H as [->|H]; [|exact (IH H)].
    rewrite String.eqb_refl in E. discriminate.
Qed.

Lemma position_first (x : string) (l : list string) (m : nat) :
  (m < position x l)%nat -> nth m l "" <> x.
Proof.
  revert m. induction l as [|y l IH]; intros m H; simpl in H; [lia|].
  destruct (String.eqb y x) eqn:E; [lia|].
  destruct m as [|m]; simpl.
  - intros ->. rewrite String.eqb_refl in E. discriminate.
  - apply IH. lia.
Qed.

Lemma map_nth_seq (l : list string) :
  map (fun i => nth i l "") (seq 0 (length l)) = l.
Proof.
  induction l as [|x l IH]; [reflexivity|]. simpl. f_equal.
  rewrite <- seq_shift, map_map. exact IH.
Qed.

Lemma columns_drop_cols_filter (cols : list string) (f : frame) :
  columns (drop_cols cols f) = filter (fun k => k ∉ cols) (columns f).
Proof.
  induction f as [|[k c] f IH]; [reflexivity|]. rewrite drop_cols_cons. simpl.
  destruct (existsb (String.eqb k) cols) eqn:E.
  - rewrite filter_cons_False; [exact IH|]. intros Hn. apply Hn.
    apply existsb_eqb_elem. exact E.
  - rewrite filter_cons_True.
    + simpl. f_equal. exact IH.
    + intros Hin. apply existsb_eqb_elem in Hin. congruence.
Qed.

Lemma frame_get_drop_cols (cols : list string) (f : frame) (k : string) :
  k ∉ cols -> frame_get k (drop_cols cols f) = frame_get k f.
Proof.
  intros Hk. unfold frame_get. induction f as [|[k0 c] f IH]; [reflexivity|].
  rewrite drop_cols_cons. simpl. destruct (existsb (String.eqb k0) cols) eqn:E.
  - destruct (String.eqb k k0) eqn:E0; [|exact IH].
    apply String.eqb_eq in E0. subst k0. apply existsb_eqb_elem in E. contradiction.
  - simpl. destruct (String.eqb k k0); [reflexivity|exact IH].
Qed.

Lemma dict_get_others (cats : list string) (t : dataframe) (k : string) :
  k ∉ cats -> dict_get k (others cats t) = dict_get k t.
Proof.
  intros Hk. unfold others, dataframe in *.
  induction t as [|[k0 c] t IH]; [reflexivity|].
  destruct (decide (k0 ∈ cats)) as [Hin|Hout].
  - rewrite filter_cons_False by (cbn [fst]; auto). simpl.
    destruct (String.eqb k k0) eqn:E; [|exact IH].
    apply String.eqb_eq in E. subst k0. contradiction.
  - rewrite filter_cons_True by (cbn [fst]; exact Hout). simpl.
    destruct (String.eqb k k0); [reflexivity|exact IH].
Qed.

Lemma labels_others (cats : list string) (t : dataframe) :
  labels (others cats t) = filter (fun k => k ∉ cats) (labels t).
Proof.
  unfold others, labels, dataframe in *. induction t as [|[k0 c] t IH]; [reflexivity|].
  cbn [map fst]. destruct (decide (k0 ∈ cats)) as [Hin|Hout].
  - rewrite filter_cons_False by (cbn [fst]; auto).
    rewrite (filter_cons_False (fun k => k ∉ cats)) by auto. exact IH.
  - rewrite filter_cons_True by (cbn [fst]; exact Hout).
    rewrite (filter_cons_True (fun k => k ∉ cats)) by exact Hout.
    cbn [map fst]. f_equal. exact IH.
Qed.


Section RoundTrip.

Variable s : PrivateData.
Variables t e : dataframe.
Variable f : frame.

Hypothesis Hok : encodable s t e.
Hypothesis He : one_hot_encode_data s t = Ok e.
Hypothesis Hf : to_frame e = Some f.

Lemma encoded_table :
  e = others (categorical_feature_names s) t ++
      concat (map (observed_dummies t) (categorical_feature_names s)) /\
  NoDup (labels e).
Proof.
  destruct Hok as (Hcats & Hcols & _).
  apply (one_hot_encode_data_Ok s t e Hcats); [|exact He].
  intros c Hc. exact (proj1 (Hcols c Hc)).
Qed.

Lemma labels_encoded_table :
  labels e
  = labels (others (categorical_feature_names s) t) ++
    flat_map (fun c => map (encoded_name c) (observed_levels t c))
      (categorical_feature_names s).
Proof.
  destruct encoded_table as [-> _]. unfold labels. rewrite map_app. f_equal.
  rewrite concat_map, map_map, flat_map_concat_map. f_equal.
  apply map_ext. intros c. unfold observed_dummies. rewrite map_map. reflexivity.
Qed.

Lemma observed_levels_elem (c v : string) :
  v ∈ observed_levels t c <-> v ∈ strings_at t c.
Proof. unfold observed_levels. rewrite merge_sort_Permutation. apply elem_of_remove_dups. Qed.

Lemma one_hot_group_encoded (c : string) :
  c ∈ categorical_feature_names s ->
  one_hot_group c f = map (encoded_name c) (observed_levels t c).
Proof.
  intros Hc. destruct Hok as (_ & _ & _ & Hsep). destruct encoded_table as [_ Hnd].
  unfold one_hot_group. rewrite (to_frame_columns e f Hf).
  pose proof labels_encoded_table as Hlab.
  destruct (flat_map_segment (fun c0 => map (encoded_name c0) (observed_levels t c0))
              (categorical_feature_names s) c Hc) as (a & b & Hab).
  rewrite Hab, app_assoc in Hlab. rewrite Hlab in Hnd, Hsep |- *.
  apply (filter_segment (fun c0 => contains (c +:+ "_") c0 = true)
           (labels (others (categorical_feature_names s) t) ++ a)
           (map (encoded_name c) (observed_levels t c)) b).
  - exact Hnd.
  - intros x Hx. apply list_elem_of_In, in_map_iff in Hx. destruct Hx as (v & <- & _).
    apply contains_encoded_name.
  - intros x Hx Hcontains.
    destruct (Hsep c x Hc Hx Hcontains) as (v & Hv & ->).
    apply list_elem_of_In, in_map, list_elem_of_In, observed_levels_elem. exact Hv.
Qed.

Lemma frame_get_dummy (c level : string) :
  c ∈ categorical_feature_names s ->
  level ∈ observed_levels t c ->
  frame_get (encoded_name c level) f
  = Some (NumCol (map (fun v => if String.eqb v level then 1%Q else 0%Q)
                    (strings_at t c))).
Proof.
  intros Hc Hlevel. destruct encoded_table as [Ee Hnd].
  assert (Hin : (encoded_name c level,
                 map (indicator level) (map Str (strings_at t c))) ∈ e).
  { rewrite Ee. apply elem_of_app. right. apply list_elem_of_In, in_concat.
    exists (observed_dummies t c). split.
    - apply in_map, list_elem_of_In. exact Hc.
    - unfold observed_dummies. apply in_map_iff. exists level.
      split; [reflexivity|apply list_elem_of_In; exact Hlevel]. }
  destruct (to_frame_get e f _ _ Hf (dict_get_elem _ _ e Hnd Hin)) as (col & Hcol & Hget).
  rewrite column_of_indicator in Hcol. injection Hcol as <-. exact Hget.
Qed.

Lemma observed_levels_nonempty (c : string) :
  c ∈ categorical_feature_names s -> observed_levels t c <> [].
Proof.
  intros Hc Hnil. destruct Hok as (_ & Hcols & _).
  destruct (Hcols c Hc) as (_ & Hne & _).
  destruct (strings_at t c) as [|v vs] eqn:E; [contradiction|].
  assert (Hv : v ∈ observed_levels t c) by (apply observed_levels_elem; rewrite E; left).
  rewrite Hnil in Hv. inversion Hv.
Qed.

Lemma decodable_encoded : decodable (categorical_feature_names s) f.
Proof.
  pose proof Hok as (Hcats & Hcols & Hfresh & Hsep).
  split; [exact Hcats|]. split; [|split].
  - intros c Hc. rewrite (to_frame_columns e f Hf). exact (Hfresh c Hc).
  - intros c Hc. rewrite (one_hot_group_encoded c Hc). split.
    + intros Hnil. apply map_eq_nil in Hnil.
      exact (observed_levels_nonempty c Hc Hnil).
    + intros k Hk. apply list_elem_of_In, in_map_iff in Hk.
      destruct Hk as (level & <- & Hlevel). apply list_elem_of_In in Hlevel.
      eexists. exact (frame_get_dummy c level Hc Hlevel).
  - intros c c' k Hc Hc' Hne Hk Hk'.
    rewrite (one_hot_group_encoded c Hc) in Hk.
    rewrite (one_hot_group_encoded c' Hc') in Hk'.
    destruct encoded_table as [_ Hnd]. rewrite labels_encoded_table in Hnd.
    apply NoDup_app in Hnd. destruct Hnd as (_ & _ & Hnd).
    clear Hcols Hfresh Hsep.
    induction (categorical_feature_names s) as [|c0 cs IH]; [inversion Hc|].
    simpl in Hnd. apply NoDup_app in Hnd. destruct Hnd as (_ & Hdisj & Hnd).
    apply NoDup_cons in Hcats. destruct Hcats as [Hc0 Hcats].
    assert (Hflat : forall x k0, x ∈ cs ->
              k0 ∈ map (encoded_name x) (observed_levels t x) ->
              k0 ∈ flat_map (fun c1 => map (encoded_name c1) (observed_levels t c1)) cs).
    { intros x k0 Hx Hk0. apply list_elem_of_In, in_flat_map. exists x.
      split; apply list_elem_of_In; assumption. }
    apply elem_of_cons in Hc, Hc'. destruct Hc as [->|Hc], Hc' as [->|Hc'].
    + contradiction.
    + exact (Hdisj k Hk (Hflat c' k Hc' Hk')).
    + exact (Hdisj k Hk' (Hflat c k Hc Hk)).
    + exact (IH Hcats Hc Hc' Hnd).
Qed.

Lemma decoded_labels_encoded (c : string) :
  c ∈ categorical_feature_names s ->
  decoded_labels c f = strings_at t c.
Proof.
  intros Hc. pose proof Hok as (_ & Hcols & _).
  destruct (Hcols c Hc) as (_ & _ & Hclean).
  rewrite (decoded_labels_one_hot f c (observed_levels t c) (length (strings_at t c))
             (fun i => position (nth i (strings_at t c) "") (observed_levels t c))).
  - transitivity (map (fun i => nth i (strings_at t c) "")
                    (seq 0 (length (strings_at t c)))); [|apply map_nth_seq].
    apply map_ext_in. intros i Hi.
    apply in_seq in Hi. apply nth_position, observed_levels_elem.
    apply list_elem_of_In, nth_In. lia.
  - exact (one_hot_group_encoded c Hc).
  - exact (observed_levels_nonempty c Hc).
  - intros level Hlevel. apply Hclean, observed_levels_elem, Hlevel.
  - intros level Hlevel. eexists. split; [exact (frame_get_dummy c level Hc Hlevel)|].
    apply length_map.
  - intros i Hi.
    assert (Hx : nth i (strings_at t c) "" ∈ observed_levels t c).
    { apply observed_levels_elem, list_elem_of_In, nth_In. exact Hi. }
    assert (Hcell : forall m, (m < length (observed_levels t c))%nat ->
              cell f (encoded_name c (nth m (observed_levels t c) "")) i
              = if String.eqb (nth i (strings_at t c) "") (nth m (observed_levels t c) "")
                then 1%Q else 0%Q).
    { intros m Hm. unfold cell.
      rewrite (frame_get_dummy c (nth m (observed_levels t c) "") Hc)
        by (apply list_elem_of_In, nth_In; exact Hm).
      exact (nth_map_default
               (fun v => if String.eqb v (nth m (observed_levels t c) "")
                         then 1%Q else 0%Q)
               (strings_at t c) i "" 0%Q Hi). }
    pose proof (position_lt _ _ Hx) as Hk.
    split; [exact Hk|]. split.
    + intros m Hm. rewrite (Hcell m) by lia. rewrite (Hcell _ Hk).
      rewrite (nth_position _ _ Hx), String.eqb_refl.
      destruct (String.eqb _ _) eqn:E; [|reflexivity].
      apply String.eqb_eq in E. symmetry in E.
      exfalso. exact (position_first _ _ m Hm E).
    + intros m Hm. rewrite (Hcell m) by lia. rewrite (Hcell _ Hk).
      rewrite (nth_position _ _ Hx), String.eqb_refl.
      destruct (String.eqb _ _); discriminate.
Qed.

End RoundTrip.


(** X15. Encoding, then decoding, gives the categorical columns back.  Let a
    table hold, for each categorical feature, a column of strings with at
    least one row, none of which contains ["<feature>_"]; let
    [one_hot_encode_data] turn it into a table whose labels contain
    ["<feature>_"] only for the columns of the feature's own values and are
    not names of categorical features; and let that table, as a frame, be
    an object of the store.  Then [get_decoded_data] returns a new frame that
    holds the columns of the original table that are not categorical, in
    their order and with their values, followed by the categorical features
    in schema order, each with the strings of the original column, row by
    row. *)
Theorem encode_decode_round_trip (s : PrivateData) (st : store) (data : ref)
    (t e : dataframe) (f : frame) :
  encodable s t e ->
  one_hot_encode_data s t = Ok e ->
  to_frame e = Some f ->
  st !! data = Some f ->
  exists out,
    get_decoded_data s st (Frame data) = Ok (length st, st ++ [out]) /\
    columns out
      = filter (fun k => k ∉ categorical_feature_names s) (labels t)
        ++ categorical_feature_names s /\
    (forall c, c ∈ categorical_feature_names s ->
       frame_get c out = Some (StrCol (strings_at t c))) /\
    (forall k col, k ∉ categorical_feature_names s -> dict_get k t = Some col ->
       exists col', column_of_entries col = Some col' /\ frame_get k out = Some col').
Proof.
  intros Hok He Hf Hdata.
  pose proof (decodable_encoded s t e f Hok He Hf) as Hdec.
  pose proof (encoded_table s t e Hok He) as [Ee Hnd].
  pose proof (labels_encoded_table s t e f Hok He Hf) as Hlab.
  assert (Hgroups : flat_map (fun l => one_hot_group l f) (categorical_feature_names s)
                    = flat_map (fun c => map (encoded_name c) (observed_levels t c))
                        (categorical_feature_names s)).
  { apply flat_map_ext_Forall, List.Forall_forall. intros c Hc.
    apply (one_hot_group_encoded s t e f Hok He Hf). apply list_elem_of_In. exact Hc. }
  rewrite Hlab in Hnd. pose proof (proj1 (NoDup_app _ _) Hnd) as (_ & Hdisj & _).
  exists (decoded (categorical_feature_names s) f). split; [|split; [|split]].
  - cbn [get_decoded_data]. unfold from_dummies, copy, deref. rewrite Hdata. simpl.
    pose proof (from_dummies_loop st data f (categorical_feature_names s) Hdata Hdec
                  (categorical_feature_names s) [] eq_refl) as Hloop.
    unfold decoded at 1 in Hloop. simpl in Hloop.
    rewrite drop_cols_nil, app_nil_r in Hloop. rewrite Hloop. reflexivity.
  - rewrite columns_decoded, columns_drop_cols_filter. f_equal.
    rewrite Hgroups, (to_frame_columns e f Hf), Hlab, filter_app.
    rewrite filter_all, filter_none.
    + rewrite app_nil_r. apply labels_others.
    + intros x Hx Hnot. exact (Hnot Hx).
    + apply List.Forall_forall. intros x Hx. apply Hdisj, list_elem_of_In, Hx.
  - intros c Hc. destruct Hdec as (_ & Hfresh & _).
    rewrite (frame_get_decoded _ f c Hc (Hfresh c Hc)).
    rewrite (decoded_labels_encoded s t e f Hok He Hf c Hc). reflexivity.
  - intros k col Hk Hcol.
    assert (Hother : dict_get k (others (categorical_feature_names s) t) = Some col).
    { rewrite (dict_get_others _ t k Hk). exact Hcol. }
    assert (Hke : dict_get k e = Some col).
    { rewrite Ee, dict_get_app, Hother. reflexivity. }
    destruct (to_frame_get e f k col Hf Hke) as (col' & Hcol' & Hget).
    exists col'. split; [exact Hcol'|].
    unfold frame_get, decoded. rewrite dict_get_app.
    fold (frame_get k (drop_cols (flat_map (fun l => one_hot_group l f)
                                    (categorical_feature_names s)) f)).
    rewrite frame_get_drop_cols, Hget; [reflexivity|].
    rewrite Hgroups. apply Hdisj.
    exact (dict_get_Some_keys k col _ Hother).
Qed.

Lemma encodable_example : encodable example_schema raw_example encoded_raw_example.
Proof.
  split; [|split; [|split]].
  - apply (bool_decide_unpack _). vm_compute. exact I.
  - intros c Hc. apply list_elem_of_singleton in Hc. subst c.
    split; [reflexivity|]. split; [discriminate|].
    intros v Hv. change (strings_at raw_example "color") with ["red"; "blue"] in Hv.
    repeat (apply elem_of_cons in Hv; destruct Hv as [->|Hv]);
      [reflexivity..|inversion Hv].
  - intros c Hc. apply list_elem_of_singleton in Hc. subst c.
    apply (bool_decide_unpack _). vm_compute. exact I.
  - intros c k Hc Hk Hcontains. apply list_elem_of_singleton in Hc. subst c.
    change (labels encoded_raw_example) with ["age"; "color_blue"; "color_red"] in Hk.
    repeat (apply elem_of_cons in Hk; destruct Hk as [->|Hk]).
    + discriminate Hcontains.
    + exists "blue". split; [right; left|reflexivity].
    + exists "red". split; [left|reflexivity].
    + inversion Hk.
Qed.

Lemma encode_decode_round_trip_witness :
  one_hot_encode_data example_schema raw_example = Ok encoded_raw_example /\
  to_frame encoded_raw_example = Some encoded_raw_frame /\
  get_decoded_data example_schema [encoded_raw_frame] (Frame 0%nat)
    = Ok (1%nat, [encoded_raw_frame;
                   [("age", NumCol [inject_Z 30; inject_Z 41]);
                    ("color", StrCol ["red"; "blue"])]]) /\
  exists out,
    get_decoded_data example_schema [encoded_raw_frame] (Frame 0%nat)
      = Ok (length [encoded_raw_frame], [encoded_raw_frame] ++ [out]) /\
    columns out
      = filter (fun k => k ∉ categorical_feature_names example_schema) (labels raw_example)
        ++ categorical_feature_names example_schema /\
    (forall c, c ∈ categorical_feature_names example_schema ->
       frame_get c out = Some (StrCol (strings_at raw_example c))) /\
    (forall k col, k ∉ categorical_feature_names example_schema ->
       dict_get k raw_example = Some col ->
       exists col', column_of_entries col = Some col' /\ frame_get k out = Some col').
Proof.
  split; [reflexivity|]. split; [reflexivity|]. split; [reflexivity|].
  apply (encode_decode_round_trip example_schema [encoded_raw_frame] 0%nat
           raw_example encoded_raw_example encoded_raw_frame).
  - exact encodable_example.
  - reflexivity.
  - reflexivity.
  - reflexivity.
Defined.


(** ** A type table that misses a continuous feature *)

Lemma enumerate_app {A : Type} (l1 l2 : list A) :
  enumerate (l1 ++ l2)
  = enumerate l1 ++ combine (seq (length l1) (length l2)) l2.
Proof.
  unfold enumerate. rewrite length_app.
  assert (H : forall n,
            combine (seq n (length l1 + length l2)) (l1 ++ l2)
            = combine (seq n (length l1)) l1
              ++ combine (seq (n + length l1) (length l2)) l2).
  { induction l1 as [|x l1 IH]; intros n; simpl.
    - rewrite Nat.add_0_r. reflexivity.
    - f_equal. rewrite IH. do 2 f_equal. f_equal. lia. }
  exact (H 0%nat).
Qed.

(** X16. The constructor accepts a type table that misses a continuous
    feature, and [get_decimal_precisions] then fails.  When the
    [type_and_precision] entry of the constructor's argument is a non-empty
    dictionary, it is stored as it is; if it has no entry for a continuous
    feature (the continuous features before it having a type),
    [get_decimal_precisions] raises [KeyError] instead of returning a
    precision for the feature. *)
Theorem get_decimal_precisions_missing_type (p : params) (s : PrivateData)
    (tp : dict pyval) (done rest : list string) (f : string) (ks : list atom) :
  init p = Ok s ->
  params_type_and_precision p = Some (ODict tp) ->
  tp <> [] ->
  continuous_feature_names s = done ++ f :: rest ->
  Forall2 (fun f0 k => exists v, dict_get f0 tp = Some v /\ precision_of v = Some k)
    done ks ->
  dict_get f tp = None ->
  type_and_precision s = ODict tp /\
  get_decimal_precisions s = Raise KeyError.
Proof.
  intros Hinit Hsupplied Hne Hconts Hdone Hmissing.
  assert (Htp : type_and_precision s = ODict tp).
  { destruct (init_type_and_precision p s Hinit) as (n & Hn & Hcase).
    unfold supplied_type_and_precision in Hn, Hcase. rewrite Hsupplied in Hn, Hcase.
    simpl in Hn. injection Hn as <-.
    destruct tp as [|kv tp']; [contradiction|]. exact Hcase. }
  split; [exact Htp|].
  assert (Hlen : length done <= length (feature_names s)).
  { destruct (init_layout p s Hinit) as (d & _ & Hkeys & Hcont & _).
    transitivity (length (continuous_feature_names s)).
    - rewrite Hconts, length_app. lia.
    - rewrite Hcont, Hkeys. apply length_filter. }
  unfold get_decimal_precisions. rewrite Hconts, enumerate_app, for_each_app.
  pose proof (set_precision_loop s tp done Htp ks [] (length (feature_names s))
                Hdone Hlen) as Hloop.
  simpl in Hloop. unfold enumerate. rewrite Hloop.
  cbn [mbind outcome_mbind outcome_bind length seq combine for_each].
  unfold set_precision. rewrite Htp. cbn [getitem_key]. unfold dict_getitem.
  rewrite Hmissing. reflexivity.
Qed.

Lemma get_decimal_precisions_missing_type_witness :
  init partial_type_params = Ok partial_type_schema /\
  continuous_feature_names partial_type_schema = [] ++ "age" :: ["hours_per_week"] /\
  type_and_precision partial_type_schema
    = ODict [("hours_per_week", VList [AStr "float"; AInt 1])] /\
  get_decimal_precisions partial_type_schema = Raise KeyError.
Proof.
  split; [reflexivity|]. split; [reflexivity|].
  apply (get_decimal_precisions_missing_type partial_type_params partial_type_schema
           [("hours_per_week", VList [AStr "float"; AInt 1])]
           [] ["hours_per_week"] "age" []).
  - reflexivity.
  - reflexivity.
  - discriminate.
  - reflexivity.
  - constructor.
  - reflexivity.
Defined.
